(** * Lobby monitor bot: cache, join diff, watches, leaderboard

    A shallow embedding of the core of the Discord lobby bot
    (src/index.js, with its two sibling variants) and the properties its
    specification states about it.

    Conventions of the embedding:
    - JavaScript numbers that are counts, identifiers or millisecond
      timestamps are [Z]; magnitudes that come as floating point from the
      upstream (size, monetary value, price) are the rationals they
      denote, [Q], and their product, which the runtime rounds, is left
      to the runtime; [typeof x === 'number'] is [Some _] of an [option];
    - a string-or-missing field is [option string]; it is truthy when it
      is present and not empty;
    - a JS [Set] and a JS [Map] keep insertion order: they are lists
      without duplicates (resp. association lists); a plain object used
      as a dictionary is a [gmap];
    - module-level variables ([lobbyCache], [guildConfigs], [solPriceUsd])
      are fields of one [World] record that is threaded through a state
      and exception monad [Js]; [await] is sequencing in that monad (one
      logical thread, no interleaving of other handlers);
    - what the outside does (HTTP replies, how long a request takes,
      whether Discord accepts a message) is an oracle [Outside], indexed
      by the number of external requests made so far; it also says
      which embeds the builder of discord.js takes;
    - a [null] where the code reads a property (a player of a reply, an
      entry or a watch of the configuration file) is a missing element
      of an [option], and reading it throws. *)

From Stdlib Require Import ZArith QArith Qround Lia List String Ascii.
From Stdlib Require Import DecimalString DecimalZ Sorted.
From stdpp Require Import base gmap strings list pretty.

Local Open Scope string_scope.
Local Open Scope Z_scope.

(** ** JavaScript values and built-ins *)

Module JsVal.

(** Truthiness of a string-or-missing value: [undefined], [null] and the
    empty string are falsy. *)
Definition truthy (v : option string) : bool :=
  match v with
  | Some s => negb (String.eqb s "")
  | None => false
  end.

(** [a || b] on such values. *)
Definition orElse (a b : option string) : option string :=
  if truthy a then a else b.

(** [x > y] on finite numbers. *)
Definition gtb (x y : Q) : bool :=
  if Qlt_le_dec y x then true else false.

(** Truthiness of a number-or-missing value: missing and zero are falsy. *)
Definition truthyNum (v : option Q) : bool :=
  match v with
  | Some q => negb (Qeq_bool q 0)
  | None => false
  end.

(** [Math.round]: to the nearest integer, halves towards plus infinity. *)
Definition round (q : Q) : Z := Qfloor (q + (1 # 2)).

(** [Math.ceil (n / d)] of two integers. *)
Definition ceilDiv (n d : Z) : Z := Qceiling (inject_Z n / inject_Z d).

Definition nl : string := String (ascii_of_nat 10) EmptyString.

(** [lines.join('\n')] *)
Definition joinLines (l : list string) : string := String.concat nl l.

End JsVal.

(** The built-ins left to the runtime: those whose value is text, and the
    product of two numbers, which the runtime rounds to a double (a
    product that overflows to an infinity is outside the model, where
    every number is a rational). The one law used is that an ISO
    timestamp parses back to its instant. *)
Class JsText := {
  times : Q → Q → Q;                  (* x * y *)
  toFixed : nat → Q → string;          (* x.toFixed(d) *)
  toISOString : Z → string;           (* new Date(ms).toISOString() *)
  dateParse : string → Z;             (* new Date(s).getTime() *)
  toUpperCase : string → string;
  dateParse_toISOString : ∀ t, dateParse (toISOString t) = t;
  toISOString_nonempty : ∀ t, toISOString t ≠ "";
}.

(** ** Data model *)

Record LobbyDef := {
  key : string;
  region : string;
  lobby : Z;
  label : string;
  url : option string;
}.

Record Player := {
  privyId : option string;
  id : option string;
  name : option string;
  size : option Q;
  monetaryValue : option Q;
  usdFromSol : option Q;
}.

(** A cache entry, as both branches of [fetchLobbyPlayers] build it:
    [players] is always an array and [lastFetched] always a [Date]. *)
Record Snapshot := {
  serverId : string;
  playerCount : Z;
  players : list Player;
  timestamp : Z;
  lastFetched : Z;
  noApi : bool;
}.

Record Watch := {
  watchId : Z;
  lobbyKey : string;
  threshold : Z;
  intervalMinutes : Z;
  lastAlertAt : option Z;
}.

Record GuildConfig := {
  alertChannelId : option string;
  alertEnabled : gmap string bool;
  lastSeenPlayers : gmap string (list string);
  watches : list (Z * Watch);
  nextWatchId : Z;
  pingRoleId : option string;
  defaultRegion : option string;
  refreshChannelId : option string;
  lastRefreshMessageId : option string;
}.

(** Body of a reply of the players endpoint. An element of [players]
    is a record, or [null]; an element that is neither is a record
    without fields. *)
Record ApiBody := {
  success : bool;
  bodyServerId : option string;
  bodyPlayerCount : option Z;
  bodyPlayers : option (list (option Player));
  bodyTimestamp : option Z;
}.

Inductive HttpResult :=
| HttpFail (message : string)            (* timeout, non-2xx, network error *)
| HttpOk (data : option ApiBody).        (* [res.data], possibly falsy *)

(** ** Messages handed to Discord *)

Record Field := { fieldName : string; fieldValue : string; inline : bool }.

Record Embed := {
  title : string;
  description : string;
  color : Z;
  fields : list Field;
  footer : option string;
}.

Record Button := { customId : string; buttonLabel : string }.

(** One [channel.send]: plain text, or a ping line with one embed. *)
Record Sent := {
  toGuild : string;
  toChannel : string;
  content : string;
  embed : option Embed;
  delivered : bool;
}.

(** ** Persisted JSON (src/unnamed/part_001) *)

(** A parsed JSON value; numbers in the file are integers. An object is
    the list of its entries in order; a lookup takes the first entry of a
    key. *)
Unset Elimination Schemes.
Inductive Json :=
| JNull
| JBool (b : bool)
| JNum (n : Z)
| JStr (s : string)
| JArr (items : list Json)
| JObj (entries : list (string * Json)).
Set Elimination Schemes.

(** ** The world and the outside *)

Record World := {
  clock : Z;                                   (* Date.now() *)
  calls : nat;                                 (* external requests so far *)
  solPriceUsd : option Q;
  solPriceUpdatedAt : option Z;
  lobbyCache : gmap string Snapshot;
  guildConfigs : list (string * GuildConfig);
  netLog : list string;                        (* urls given to axios.get *)
  sendLog : list Sent;                         (* channel.send calls *)
  configFile : option (list (string * Json));  (* the object in CONFIG_PATH, if any *)
}.

(** What the program does not decide: what the upstream replies and
    after how long, whether Discord takes a message, which channels its
    cache holds, and whether [EmbedBuilder] takes the texts it is given:
    its validation throws on a field name over 256 characters, a
    description over 4096 and the like. [embedOk] is asked where
    [handleLbCommand] and [handleRegionSummaryCommand] build an embed
    from the names the upstream gives; the embeds of the alert passes
    are taken to be within the limits. *)
Record Outside := {
  httpGet : nat → string → HttpResult;
  delay : nat → N;                             (* duration of the n-th request *)
  sendOk : nat → bool;                         (* does the n-th request, a send, resolve *)
  textChannel : string → string → bool;        (* guild cached, channel cached and text based *)
  embedOk : Embed → bool;                      (* EmbedBuilder takes every text of the embed *)
}.

Definition setClock (t : Z) (w : World) : World :=
  {| clock := t; calls := calls w; solPriceUsd := solPriceUsd w;
     solPriceUpdatedAt := solPriceUpdatedAt w; lobbyCache := lobbyCache w;
     guildConfigs := guildConfigs w; netLog := netLog w; sendLog := sendLog w;
     configFile := configFile w |}.

Definition setCalls (n : nat) (w : World) : World :=
  {| clock := clock w; calls := n; solPriceUsd := solPriceUsd w;
     solPriceUpdatedAt := solPriceUpdatedAt w; lobbyCache := lobbyCache w;
     guildConfigs := guildConfigs w; netLog := netLog w; sendLog := sendLog w;
     configFile := configFile w |}.

Definition setLobbyCache (c : gmap string Snapshot) (w : World) : World :=
  {| clock := clock w; calls := calls w; solPriceUsd := solPriceUsd w;
     solPriceUpdatedAt := solPriceUpdatedAt w; lobbyCache := c;
     guildConfigs := guildConfigs w; netLog := netLog w; sendLog := sendLog w;
     configFile := configFile w |}.

Definition setGuildConfigs (g : list (string * GuildConfig)) (w : World) : World :=
  {| clock := clock w; calls := calls w; solPriceUsd := solPriceUsd w;
     solPriceUpdatedAt := solPriceUpdatedAt w; lobbyCache := lobbyCache w;
     guildConfigs := g; netLog := netLog w; sendLog := sendLog w;
     configFile := configFile w |}.

Definition setNetLog (l : list string) (w : World) : World :=
  {| clock := clock w; calls := calls w; solPriceUsd := solPriceUsd w;
     solPriceUpdatedAt := solPriceUpdatedAt w; lobbyCache := lobbyCache w;
     guildConfigs := guildConfigs w; netLog := l; sendLog := sendLog w;
     configFile := configFile w |}.

Definition setSendLog (l : list Sent) (w : World) : World :=
  {| clock := clock w; calls := calls w; solPriceUsd := solPriceUsd w;
     solPriceUpdatedAt := solPriceUpdatedAt w; lobbyCache := lobbyCache w;
     guildConfigs := guildConfigs w; netLog := netLog w; sendLog := l;
     configFile := configFile w |}.

Definition setSolPrice (price : option Q) (at_ : option Z) (w : World) : World :=
  {| clock := clock w; calls := calls w; solPriceUsd := price;
     solPriceUpdatedAt := at_; lobbyCache := lobbyCache w;
     guildConfigs := guildConfigs w; netLog := netLog w; sendLog := sendLog w;
     configFile := configFile w |}.

Definition setConfigFile (f : option (list (string * Json))) (w : World) : World :=
  {| clock := clock w; calls := calls w; solPriceUsd := solPriceUsd w;
     solPriceUpdatedAt := solPriceUpdatedAt w; lobbyCache := lobbyCache w;
     guildConfigs := guildConfigs w; netLog := netLog w; sendLog := sendLog w;
     configFile := f |}.

(** The process right after start: nothing cached, no tenant. *)
Definition startWorld (t : Z) : World :=
  {| clock := t; calls := 0%nat; solPriceUsd := None; solPriceUpdatedAt := None;
     lobbyCache := ∅; guildConfigs := []; netLog := []; sendLog := [];
     configFile := None |}.

(** Time that passes between two handlers. *)
Definition elapse (d : N) (w : World) : World := setClock (clock w + Z.of_N d) w.

(** ** The monad of handlers: state and exceptions *)

Inductive Outcome (A : Type) :=
| Returned (a : A)
| Thrown (message : string).
Arguments Returned {A} a.
Arguments Thrown {A} message.

Definition Js (A : Type) : Type := World → Outcome A * World.

Definition ret {A} (a : A) : Js A := λ w, (Returned a, w).

Definition bind {A B} (m : Js A) (k : A → Js B) : Js B :=
  λ w, match m w with
       | (Returned a, w') => k a w'
       | (Thrown e, w') => (Thrown e, w')
       end.

Definition throw {A} (e : string) : Js A := λ w, (Thrown e, w).

(** [try { body } catch (err) { handler }] *)
Definition tryCatch {A} (body : Js A) (handler : string → Js A) : Js A :=
  λ w, match body w with
       | (Returned a, w') => (Returned a, w')
       | (Thrown e, w') => handler e w'
       end.

Definition gets {A} (f : World → A) : Js A := λ w, (Returned (f w), w).
Definition modify (f : World → World) : Js unit := λ w, (Returned tt, f w).

Notation "'let!' x ':=' m 'in' k" := (bind m (λ x, k))
  (at level 10, x name, m at level 100, k at level 200).
Notation "'run' m 'in' k" := (bind m (λ _, k))
  (at level 10, m at level 100, k at level 200).

(** [for (const x of l) body] *)
Fixpoint forEach {A} (l : list A) (body : A → Js unit) : Js unit :=
  match l with
  | [] => ret tt
  | x :: rest => run body x in forEach rest body
  end.

(** [Date.now()] and [new Date()] *)
Definition dateNow : Js Z := gets clock.

Section Effects.
Context (out : Outside).

(** One external request: it takes its time, and it is counted. *)
Definition request : Js nat :=
  λ w, let n := calls w in
       (Returned n, setCalls (S n) (setClock (clock w + Z.of_N (delay out n)) w)).

(** [await axios.get(url, { timeout: 5000 })] *)
Definition axiosGet (u : string) : Js (option ApiBody) :=
  run modify (λ w, setNetLog (netLog w ++ [u])%list w) in
  let! n := request in
  match httpGet out n u with
  | HttpFail e => throw e
  | HttpOk data => ret data
  end.

(** [await channel.send({ content, embeds: [embed] })] *)
Definition channelSend (guildId channelId text : string) (e : option Embed) : Js unit :=
  let! n := request in
  run modify (λ w, setSendLog (sendLog w ++
    [{| toGuild := guildId; toChannel := channelId; content := text;
        embed := e; delivered := sendOk out n |}])%list w) in
  if sendOk out n then ret tt else throw "send rejected".

End Effects.

(** ** Lobby registry (src/index.js) *)

Definition PREFIX : string := ",".
Definition ORANGE : Z := 16753920.  (* 0xffa500 *)
Definition LB_PAGE_SIZE : Z := 5.

Definition LOBBIES : list LobbyDef := [
  {| key := "us-1"; region := "us"; lobby := 1; label := "US $1";
     url := Some "https://damnbruh-game-server-instance-1-us.onrender.com/players" |};
  {| key := "us-5"; region := "us"; lobby := 5; label := "US $5";
     url := Some "https://damnbruh-game-server-instance-5-us.onrender.com/players" |};
  {| key := "us-20"; region := "us"; lobby := 20; label := "US $20";
     url := Some "https://damnbruh-game-server-instance-20-us.onrender.com/players" |};
  {| key := "eu-1"; region := "eu"; lobby := 1; label := "EU $1";
     url := Some "https://damnbruh-game-server-instance-1-eu.onrender.com/players" |};
  {| key := "eu-5"; region := "eu"; lobby := 5; label := "EU $5";
     url := None |};  (* no API for this server *)
  {| key := "eu-20"; region := "eu"; lobby := 20; label := "EU $20";
     url := Some "https://damnbruh-game-server-instance-20-eu.onrender.com/players" |}
].

Definition getLobbyKey (r : string) (n : Z) : string := r +:+ "-" +:+ pretty n.

Definition findLobby (r : string) (n : Z) : option LobbyDef :=
  find (λ l, String.eqb (region l) r && (lobby l =? n)) LOBBIES.

(** [LOBBIES.find(l => l.key === k)] *)
Definition lobbyOfKey (k : string) : option LobbyDef :=
  find (λ l, String.eqb (key l) k) LOBBIES.

(** ** Snapshot cache and fetcher (src/index.js, lines 101-163) *)

Section Fetcher.
Context {text : JsText} (out : Outside).

Definition solPriceStatusLine : Js string :=
  let! price := gets solPriceUsd in
  let! at_ := gets solPriceUpdatedAt in
  match price, at_ with
  | Some p, Some t =>
      if JsVal.truthyNum (Some p)
      then ret ("SOL price: $" +:+ toFixed 2 p +:+ " (cached at " +:+ toISOString t +:+ ")")
      else ret "SOL price: unavailable (will retry every 60s)"
  | _, _ => ret "SOL price: unavailable (will retry every 60s)"
  end.

(** The USD value attached at fetch time: the native value times the
    cached rate, [null] unless both are usable. *)
Definition attachUsd (price : option Q) (p : Player) : Player :=
  let usd :=
    match monetaryValue p, price with
    | Some m, Some r =>
        if JsVal.truthyNum (Some r) && JsVal.gtb r 0 then Some (times m r) else None
    | _, _ => None
    end in
  {| privyId := privyId p; id := id p; name := name p; size := size p;
     monetaryValue := monetaryValue p; usdFromSol := usd |}.

Definition cacheSet (k : string) (s : Snapshot) : Js unit :=
  modify (λ w, setLobbyCache (<[k := s]> (lobbyCache w)) w).

Definition fetchLobbyPlayers (lobbyDef : LobbyDef) : Js (option Snapshot) :=
  if negb (JsVal.truthy (url lobbyDef)) then
    (* Special case: no API for this lobby (EU $5) *)
    let! ts := dateNow in
    let! fetched := dateNow in
    let cached :=
      {| serverId := key lobbyDef; playerCount := 0; players := [];
         timestamp := ts; lastFetched := fetched; noApi := true |} in
    run cacheSet (key lobbyDef) cached in
    ret (Some cached)
  else
    tryCatch
      (let! res := axiosGet out (default "" (url lobbyDef)) in
       match res with
       | None => throw "API returned non-success"
       | Some data =>
           if negb (success data) then throw "API returned non-success" else
           let players := default [] (bodyPlayers data) in
           let! price := gets solPriceUsd in
           (* [players.map(p => ...)] reads [p.monetaryValue]: a TypeError
              on a [null] element *)
           let! playersWithUsd :=
             (match mapM (fmap (attachUsd price)) players with
              | Some mapped => ret mapped
              | None => throw "Cannot read properties of null (reading 'monetaryValue')"
              end) in
           let! ts :=
             (match bodyTimestamp data with
              | Some t => if t =? 0 then dateNow else ret t
              | None => dateNow
              end) in
           let! fetched := dateNow in
           let cached :=
             {| serverId := default (key lobbyDef)
                              (JsVal.orElse (bodyServerId data) (Some (key lobbyDef)));
                playerCount := default (Z.of_nat (length players)) (bodyPlayerCount data);
                players := playersWithUsd;
                timestamp := ts;
                lastFetched := fetched;
                noApi := false |} in
           run cacheSet (key lobbyDef) cached in
           ret (Some cached)
       end)
      (λ err, (* console.error, nothing else *) ret None).

Definition getLobbySnapshot (lobbyDef : LobbyDef) : Js (option Snapshot) :=
  let! cache := gets lobbyCache in
  let! now := dateNow in
  match cache !! key lobbyDef with
  | Some existing =>
      if now - lastFetched existing <? 5000
      then ret (Some existing)
      else fetchLobbyPlayers lobbyDef
  | None => fetchLobbyPlayers lobbyDef
  end.

End Fetcher.

(** ** Leaderboard view (src/index.js, lines 237-348 and 429-447) *)

Record LbView := { lbEmbed : Embed; lbComponents : list (list Button) }.

(** The filter written at the leaderboard call sites:
    [p => typeof p.size === 'number' && p.size > 3]. *)
Definition lbActive (p : Player) : bool :=
  match size p with
  | Some q => JsVal.gtb q 3
  | None => false
  end.

(** [(a, b) => (b.size || 0) - (a.size || 0)] is not positive: [a] may
    stay in front of [b]. *)
Definition sizeOrZero (p : Player) : Q := default 0%Q (size p).

Definition staysBefore (a b : Player) : bool := Qle_bool (sizeOrZero b) (sizeOrZero a).

Fixpoint insertBySize (p : Player) (sorted : list Player) : list Player :=
  match sorted with
  | [] => [p]
  | q :: rest => if staysBefore p q then p :: q :: rest else q :: insertBySize p rest
  end.

(** [Array.prototype.sort] with that comparator: a stable sort, largest
    size first. *)
Definition sortBySizeDesc (l : list Player) : list Player := foldr insertBySize [] l.

(** [snapshot.players.filter(...).sort(...)] *)
Definition leaderboardPlayers (s : Snapshot) : list Player :=
  sortBySizeDesc (filter (λ p, lbActive p = true) (players s)).

Definition lbTotalPages (ps : list Player) : Z :=
  Z.max 1 (JsVal.ceilDiv (Z.of_nat (length ps)) LB_PAGE_SIZE).

Definition lbCurrentPage (ps : list Player) (page : Z) : Z :=
  let totalPages := lbTotalPages ps in
  let currentPage := page in
  let currentPage := if currentPage <? 0 then 0 else currentPage in
  let currentPage := if totalPages - 1 <? currentPage then totalPages - 1 else currentPage in
  currentPage.

(** [players.slice(start, start + LB_PAGE_SIZE)] for a start that is not
    negative. *)
Definition lbPagePlayers (ps : list Player) (page : Z) : list Player :=
  let start := lbCurrentPage ps page * LB_PAGE_SIZE in
  take (Z.to_nat LB_PAGE_SIZE) (drop (Z.to_nat start) ps).

(** [p.name || p.privyId || p.id || 'Unknown'] *)
Definition displayName (p : Player) : string :=
  default "Unknown"
    (JsVal.orElse (JsVal.orElse (JsVal.orElse (name p) (privyId p)) (id p)) (Some "Unknown")).

Section Leaderboard.
Context {text : JsText}.

Definition lbField (start : Z) (index : nat) (p : Player) : Field :=
  let rank := start + Z.of_nat index + 1 in
  let roundedSize :=
    match size p with
    | Some q => pretty (JsVal.round q)
    | None => "NaN"
    end in
  let usdDisplay :=
    match usdFromSol p with
    | Some u => "$" +:+ toFixed 2 u
    | None => "(price unavailable)"
    end in
  {| fieldName := "#" +:+ pretty rank +:+ " " +:+ displayName p;
     fieldValue := "Size: " +:+ roundedSize +:+ JsVal.nl +:+ "USD: " +:+ usdDisplay;
     inline := false |}.

Definition lbButtons (lobbyDef : LobbyDef) (currentPage totalPages : Z) : list (list Button) :=
  if 1 <? totalPages then
    let suffix := "|" +:+ region lobbyDef +:+ "|" +:+ pretty (lobby lobbyDef)
                  +:+ "|" +:+ pretty currentPage in
    let row :=
      ((if 0 <? currentPage
        then [{| customId := "lb_prev" +:+ suffix; buttonLabel := "◀" |}] else [])
       ++
       (if currentPage <? totalPages - 1
        then [{| customId := "lb_next" +:+ suffix; buttonLabel := "▶" |}] else []))%list in
    if (0 <? Z.of_nat (length row)) then [row] else []
  else [].

Definition buildLbEmbed (lobbyDef : LobbyDef) (snapshot : Snapshot)
    (ps : list Player) (page : Z) : Js LbView :=
  let totalPages := lbTotalPages ps in
  let currentPage := lbCurrentPage ps page in
  let start := currentPage * LB_PAGE_SIZE in
  let pagePlayers := lbPagePlayers ps page in
  let! status := solPriceStatusLine in
  let headerLines := [
    "Lobby: $" +:+ pretty (lobby lobbyDef) +:+ "   Region: " +:+ toUpperCase (region lobbyDef);
    "Players in lobby: " +:+ pretty (playerCount snapshot);
    status;
    "Data pulled: " +:+ toISOString (lastFetched snapshot);
    "Page " +:+ pretty (currentPage + 1) +:+ "/" +:+ pretty totalPages ] in
  let e :=
    if (length pagePlayers =? 0)%nat then
      {| title := label lobbyDef +:+ " Lobby Leaderboard";
         description := JsVal.joinLines headerLines +:+ JsVal.nl +:+ JsVal.nl
                        +:+ "No active players with size > 3.";
         color := ORANGE; fields := []; footer := None |}
    else
      {| title := label lobbyDef +:+ " Lobby Leaderboard";
         description := JsVal.joinLines headerLines;
         color := ORANGE;
         fields := imap (lbField start) pagePlayers;
         footer := Some "Players with size = 0 or <= 3 are hidden" |} in
  ret {| lbEmbed := e; lbComponents := lbButtons lobbyDef currentPage totalPages |}.

End Leaderboard.

(** ** Tenant configuration (src/index.js, lines 165-191) *)

(** [Map.get]: the entry of a key. *)
Fixpoint assocGet {V} (k : string) (l : list (string * V)) : option V :=
  match l with
  | [] => None
  | (k', v) :: rest => if String.eqb k' k then Some v else assocGet k rest
  end.

(** Mutation of the object stored under a key. *)
Fixpoint assocAlter {V} (f : V → V) (k : string) (l : list (string * V)) : list (string * V) :=
  match l with
  | [] => []
  | (k', v) :: rest =>
      if String.eqb k' k then (k', f v) :: rest else (k', v) :: assocAlter f k rest
  end.

(** The same for the watches of a tenant, keyed by their number. *)
Fixpoint watchAlter (f : Watch → Watch) (n : Z) (l : list (Z * Watch)) : list (Z * Watch) :=
  match l with
  | [] => []
  | (n', v) :: rest =>
      if n' =? n then (n', f v) :: rest else (n', v) :: watchAlter f n rest
  end.

Definition withLastSeen (k : string) (ids : list string) (c : GuildConfig) : GuildConfig :=
  {| alertChannelId := alertChannelId c; alertEnabled := alertEnabled c;
     lastSeenPlayers := <[k := ids]> (lastSeenPlayers c);
     watches := watches c; nextWatchId := nextWatchId c; pingRoleId := pingRoleId c;
     defaultRegion := defaultRegion c; refreshChannelId := refreshChannelId c;
     lastRefreshMessageId := lastRefreshMessageId c |}.

Definition withWatches (ws : list (Z * Watch)) (c : GuildConfig) : GuildConfig :=
  {| alertChannelId := alertChannelId c; alertEnabled := alertEnabled c;
     lastSeenPlayers := lastSeenPlayers c;
     watches := ws; nextWatchId := nextWatchId c; pingRoleId := pingRoleId c;
     defaultRegion := defaultRegion c; refreshChannelId := refreshChannelId c;
     lastRefreshMessageId := lastRefreshMessageId c |}.

Definition withLastAlertAt (t : option Z) (x : Watch) : Watch :=
  {| watchId := watchId x; lobbyKey := lobbyKey x; threshold := threshold x;
     intervalMinutes := intervalMinutes x; lastAlertAt := t |}.

Definition emptyGuildConfig : GuildConfig :=
  {| alertChannelId := None; alertEnabled := ∅; lastSeenPlayers := ∅; watches := [];
     nextWatchId := 1; pingRoleId := None; defaultRegion := None;
     refreshChannelId := None; lastRefreshMessageId := None |}.

Definition getCfg (guildId : string) : Js (option GuildConfig) :=
  gets (λ w, assocGet guildId (guildConfigs w)).

Definition modifyCfg (guildId : string) (f : GuildConfig → GuildConfig) : Js unit :=
  modify (λ w, setGuildConfigs (assocAlter f guildId (guildConfigs w)) w).

Definition getGuildConfig (guildId : string) : Js GuildConfig :=
  let! found := getCfg guildId in
  match found with
  | Some cfg => ret cfg
  | None =>
      run modify (λ w, setGuildConfigs (guildConfigs w ++ [(guildId, emptyGuildConfig)])%list w) in
      ret emptyGuildConfig
  end.

Definition withAlertEnabled (k : string) (b : bool) (c : GuildConfig) : GuildConfig :=
  {| alertChannelId := alertChannelId c; alertEnabled := <[k := b]> (alertEnabled c);
     lastSeenPlayers := lastSeenPlayers c;
     watches := watches c; nextWatchId := nextWatchId c; pingRoleId := pingRoleId c;
     defaultRegion := defaultRegion c; refreshChannelId := refreshChannelId c;
     lastRefreshMessageId := lastRefreshMessageId c |}.

(** What [,alert on <lobby> <region>] and [,alert off <lobby> <region>]
    do to the tenant (handleAlertCommand, src/index.js lines 519-600).
    The replies are left out: each follows the state change it reports. *)
Definition alertSwitch (on : bool) (guildId r : string) (lobbyNum : Z) : Js unit :=
  let! cfg := getGuildConfig guildId in
  if negb (bool_decide (lobbyNum ∈ [1; 5; 20]) && bool_decide (r ∈ ["us"; "eu"]))
  then ret tt else
  match findLobby r lobbyNum with
  | None => ret tt
  | Some lobbyDef =>
      if negb (JsVal.truthy (url lobbyDef)) then ret tt else
      let k := getLobbyKey r lobbyNum in
      if on then
        if negb (JsVal.truthy (alertChannelId cfg)) then ret tt else
        run modifyCfg guildId (withAlertEnabled k true) in
        match lastSeenPlayers cfg !! k with
        | Some _ => ret tt
        | None => modifyCfg guildId (withLastSeen k [])
        end
      else
        if negb (default false (alertEnabled cfg !! k)) then ret tt else
        run modifyCfg guildId (withAlertEnabled k false) in
        modifyCfg guildId (withLastSeen k [])
  end.

(** ** Join diff (src/index.js, lines 975-1058) *)

(** The filter written in [processJoinAlerts]:
    [p => typeof p.size === 'number' && p.size > 3]. *)
Definition joinActive (p : Player) : bool :=
  match size p with
  | Some q => JsVal.gtb q 3
  | None => false
  end.

(** [p.privyId || p.id] *)
Definition playerKey (p : Player) : option string := JsVal.orElse (privyId p) (id p).

(** [Set.prototype.has] and [Set.prototype.add] on an insertion-ordered set. *)
Definition setHas (s : list string) (x : string) : bool := bool_decide (x ∈ s).
Definition setAdd (s : list string) (x : string) : list string :=
  if setHas s x then s else (s ++ [x])%list.

(** [new Set(iterable)] *)
Definition newSet (l : list string) : list string := foldl setAdd [] l.

(** [.filter(Boolean)] on identifiers *)
Definition keepTruthy (l : list (option string)) : list string :=
  omap (λ v, if JsVal.truthy v then v else None) l.

(** [new Set(activePlayers.map(p => p.privyId || p.id).filter(Boolean))] *)
Definition currentIdsOf (activePlayers : list Player) : list string :=
  newSet (keepTruthy (map playerKey activePlayers)).

(** The loop that fills [newJoins]: for each current identifier the last
    set does not have, the first active player carrying it. *)
Definition newJoinsOf (activePlayers : list Player) (currentIds lastSet : list string)
    : list Player :=
  omap (λ i, if setHas lastSet i then None
             else find (λ p, bool_decide (playerKey p = Some i)) activePlayers)
       currentIds.

Section Alerts.
Context {text : JsText} (out : Outside).

Definition pingContentOf (cfg : GuildConfig) : string :=
  match pingRoleId cfg with
  | Some r => if JsVal.truthy (Some r) then "<@&" +:+ r +:+ ">" else "No ping role given"
  | None => "No ping role given"
  end.

Definition joinEmbed (l : LobbyDef) (newJoins : list Player) (activeCount : nat) : Embed :=
  match newJoins with
  | [p] =>
      {| title := "Lobby Join";
         description := displayName p +:+ " joined " +:+ toUpperCase (region l) +:+ " $"
                        +:+ pretty (lobby l) +:+ " lobby." +:+ JsVal.nl
                        +:+ "Lobby players: " +:+ pretty activeCount +:+ ".";
         color := ORANGE; fields := []; footer := None |}
  | _ =>
      let names := JsVal.joinLines (map (λ n, "• " +:+ n) (map displayName newJoins)) in
      {| title := "Lobby Joins";
         description := JsVal.joinLines [
           "New joins in " +:+ toUpperCase (region l) +:+ " $" +:+ pretty (lobby l) +:+ " lobby:";
           names;
           "Lobby players: " +:+ pretty activeCount +:+ "." ];
         color := ORANGE; fields := []; footer := None |}
  end.

(** Body of the inner loop of [processJoinAlerts], for one tenant and
    one lobby. The guard [Array.isArray(snapshot.players)] holds for every
    cache entry. A missing last-seen set reads as the empty set: the
    source first stores [new Set()] for it and overwrites that a few
    lines later, before anything can throw. *)
Definition joinAlertsForLobby (guildId channelId pingContent : string) (l : LobbyDef)
    : Js unit :=
  let k := key l in
  let! found := getCfg guildId in
  match found with
  | None => ret tt
  | Some cfg =>
      if negb (default false (alertEnabled cfg !! k)) then ret tt else
      let! cache := gets lobbyCache in
      match cache !! k with
      | None => ret tt
      | Some snapshot =>
          if noApi snapshot then ret tt else
          (* Only consider "real" players with size > 3 *)
          let activePlayers := filter (λ p, joinActive p = true) (players snapshot) in
          let activeCount := length activePlayers in
          if (activeCount =? 0)%nat then
            (* no active players, reset last seen and skip *)
            modifyCfg guildId (withLastSeen k [])
          else
            let currentIds := currentIdsOf activePlayers in
            let lastSet := default [] (lastSeenPlayers cfg !! k) in
            let newJoins := newJoinsOf activePlayers currentIds lastSet in
            run modifyCfg guildId (withLastSeen k currentIds) in
            if (length newJoins =? 0)%nat then ret tt
            else channelSend out guildId channelId pingContent
                   (Some (joinEmbed l newJoins activeCount))
      end
  end.

(** Body of the outer loop, shared by both passes: the tenant needs an
    alert channel that Discord resolves to a text channel. *)
Definition forAlertChannel (guildId : string)
    (body : GuildConfig → string → Js unit) : Js unit :=
  let! found := getCfg guildId in
  match found with
  | None => ret tt
  | Some cfg =>
      if negb (JsVal.truthy (alertChannelId cfg)) then ret tt else
      let channelId := default "" (alertChannelId cfg) in
      if negb (textChannel out guildId channelId) then ret tt else
      body cfg channelId
  end.

Definition processJoinAlerts : Js unit :=
  let! guilds := gets guildConfigs in
  forEach (map fst guilds) (λ guildId,
    forAlertChannel guildId (λ cfg channelId,
      forEach LOBBIES (joinAlertsForLobby guildId channelId (pingContentOf cfg)))).

(** ** Watches (src/index.js, lines 1061-1107) *)

(** The filter written in [processWatches]:
    [p => typeof p.size === 'number' && p.size > 3]. *)
Definition watchActive (p : Player) : bool :=
  match size p with
  | Some q => JsVal.gtb q 3
  | None => false
  end.

(** [!watch.lastAlertAt || now - lastMs >= intervalMs] *)
Definition watchDue (now : Z) (x : Watch) : bool :=
  let intervalMs := intervalMinutes x * 60 * 1000 in
  let lastMs := match lastAlertAt x with Some t => t | None => 0 end in
  negb (bool_decide (is_Some (lastAlertAt x))) || (intervalMs <=? now - lastMs).

Definition watchEmbed (l : LobbyDef) (x : Watch) (activeCount : nat) : Embed :=
  {| title := "Lobby Watch Alert";
     description := JsVal.joinLines [
       toUpperCase (region l) +:+ " $" +:+ pretty (lobby l) +:+ " lobby has "
         +:+ pretty activeCount +:+ " players.";
       "Threshold: " +:+ pretty (threshold x) +:+ ". Interval: "
         +:+ pretty (intervalMinutes x) +:+ " minute(s)." ];
     color := ORANGE; fields := []; footer := None |}.

(** Body of the inner loop of [processWatches]. The source mutates the
    watch object in place after the send; here the iteration returns the
    watch as it leaves it, and the loop puts it back into the map. *)
Definition evalWatch (now : Z) (guildId channelId pingContent : string) (x : Watch)
    : Js Watch :=
  match lobbyOfKey (lobbyKey x) with
  | None => ret x
  | Some lobbyDef =>
      let! cache := gets lobbyCache in
      match cache !! lobbyKey x with
      | None => ret x
      | Some snapshot =>
          if noApi snapshot then ret x else
          (* Only count players with size > 3 *)
          let activeCount := length (filter (λ p, watchActive p = true) (players snapshot)) in
          if Z.of_nat activeCount <? threshold x then ret x else
          if watchDue now x then
            run channelSend out guildId channelId pingContent
                  (Some (watchEmbed lobbyDef x activeCount)) in
            let! fired := dateNow in
            ret (withLastAlertAt (Some fired) x)
          else ret x
      end
  end.

(** One turn of the inner loop on the entry [n] of the watches of the
    tenant: [watch] is the object the map holds, so what the iteration
    leaves is what the map holds afterwards. *)
Definition watchIteration (now : Z) (guildId channelId pingContent : string)
    (n : Z) (x : Watch) : Js unit :=
  let! x' := evalWatch now guildId channelId pingContent x in
  modifyCfg guildId (λ c, withWatches (watchAlter (λ _, x') n (watches c)) c).

Definition processWatches : Js unit :=
  let! now := dateNow in
  let! guilds := gets guildConfigs in
  forEach (map fst guilds) (λ guildId,
    forAlertChannel guildId (λ cfg channelId,
      forEach (watches cfg) (λ '(n, x),
        watchIteration now guildId channelId (pingContentOf cfg) n x))).

(** ** The poll cycle (src/index.js, lines 959-973)

    [Promise.all] waits for one fetch per lobby; none of them rejects and
    each writes the entry of its own lobby, so they are taken here in
    registry order. *)

Definition pollLobbiesAndProcessAlerts : Js unit :=
  tryCatch
    (run forEach LOBBIES (λ l, run fetchLobbyPlayers out l in ret tt) in
     run processJoinAlerts in
     processWatches)
    (λ err, ret tt).

End Alerts.

(** ** The earliest variant (src/unnamed/part_000)

    It has no size filter in the alert passes: the join diff looks at
    every player of the snapshot and a watch compares the player count
    the snapshot reports. Its messages are plain text. *)

Module Early.
Section Alerts.
Context {text : JsText} (out : Outside).

(** [new Set(snapshot.players.map(p => p.privyId || p.id).filter(Boolean))] *)
Definition currentIdsOf (ps : list Player) : list string :=
  newSet (keepTruthy (map playerKey ps)).

Definition joinText (l : LobbyDef) (newJoins : list Player) (count : Z) : string :=
  match newJoins with
  | [p] =>
      displayName p +:+ " joined " +:+ toUpperCase (region l) +:+ " $" +:+ pretty (lobby l)
        +:+ " lobby. Lobby players: " +:+ pretty count +:+ "."
  | _ =>
      JsVal.joinLines [
        "New joins in " +:+ toUpperCase (region l) +:+ " $" +:+ pretty (lobby l) +:+ " lobby:";
        JsVal.joinLines (map (λ n, "• " +:+ n) (map displayName newJoins));
        "Lobby players: " +:+ pretty count +:+ "." ]
  end.

(** Inner loop body of [processJoinAlerts], part_000 lines 720-770. *)
Definition joinAlertsForLobby (guildId channelId : string) (l : LobbyDef) : Js unit :=
  let k := key l in
  let! found := getCfg guildId in
  match found with
  | None => ret tt
  | Some cfg =>
      if negb (default false (alertEnabled cfg !! k)) then ret tt else
      let! cache := gets lobbyCache in
      match cache !! k with
      | None => ret tt
      | Some snapshot =>
          let currentIds := currentIdsOf (players snapshot) in
          let lastSet := default [] (lastSeenPlayers cfg !! k) in
          let newJoins := newJoinsOf (players snapshot) currentIds lastSet in
          run modifyCfg guildId (withLastSeen k currentIds) in
          if (length newJoins =? 0)%nat then ret tt
          else channelSend out guildId channelId
                 (joinText l newJoins (playerCount snapshot)) None
      end
  end.

(** [snapshot.playerCount || 0] *)
Definition watchCount (snapshot : Snapshot) : Z :=
  if playerCount snapshot =? 0 then 0 else playerCount snapshot.

Definition watchText (l : LobbyDef) (n : Z) (x : Watch) (count : Z) : string :=
  JsVal.joinLines [
    toUpperCase (region l) +:+ " $" +:+ pretty (lobby l) +:+ " lobby has "
      +:+ pretty count +:+ " players.";
    "Threshold: " +:+ pretty (threshold x) +:+ ". Interval: "
      +:+ pretty (intervalMinutes x) +:+ " minute(s).";
    "(Watch ID " +:+ pretty n +:+ ")" ].

(** Inner loop body of [processWatches], part_000 lines 784-808. *)
Definition evalWatch (now : Z) (guildId channelId : string) (n : Z) (x : Watch)
    : Js Watch :=
  match lobbyOfKey (lobbyKey x) with
  | None => ret x
  | Some lobbyDef =>
      let! cache := gets lobbyCache in
      match cache !! lobbyKey x with
      | None => ret x
      | Some snapshot =>
          let count := watchCount snapshot in
          if count <? threshold x then ret x else
          if watchDue now x then
            run channelSend out guildId channelId (watchText lobbyDef n x count) None in
            let! fired := dateNow in
            ret (withLastAlertAt (Some fired) x)
          else ret x
      end
  end.

End Alerts.
End Early.

(** ** Saving and restoring the tenants (src/unnamed/part_001, lines 239-316)

    The file holds the object [saveGuildConfigsToDisk] wrote. A stored
    field of another JSON type than the one that function writes is read
    as missing; an entry or a watch that is [null] has no fields to read,
    and reading one throws. The file of the world is the list of entries
    of the parsed object: no list stands for a file that is missing,
    empty or no JSON (the restore returns before it clears the tenants),
    and the empty list also for a parsed [null], whose entries cannot be
    listed (the restore clears the tenants and ends in its catch). *)

(** [Map.prototype.set]: replace the entry of the key, or append. *)
Fixpoint assocSet {V} (k : string) (v : V) (l : list (string * V)) : list (string * V) :=
  match l with
  | [] => [(k, v)]
  | (k', v') :: rest =>
      if String.eqb k' k then (k', v) :: rest else (k', v') :: assocSet k v rest
  end.

Fixpoint watchSet (n : Z) (x : Watch) (l : list (Z * Watch)) : list (Z * Watch) :=
  match l with
  | [] => [(n, x)]
  | (n', x') :: rest =>
      if n' =? n then (n', x) :: rest else (n', x') :: watchSet n x rest
  end.

Module Persist.
Section Persist.
Context {text : JsText}.

Definition field (k : string) (j : Json) : option Json :=
  match j with
  | JObj l => assocGet k l
  | _ => None
  end.

Definition asText (v : option Json) : option string :=
  match v with
  | Some (JStr s) => Some s
  | _ => None
  end.

Definition asNum (v : option Json) : option Z :=
  match v with
  | Some (JNum n) => Some n
  | _ => None
  end.

Definition asFlags (v : option Json) : gmap string bool :=
  match v with
  | Some (JObj l) =>
      list_to_map (omap (λ '(k, b), match b with JBool b => Some (k, b) | _ => None end) l)
  | _ => ∅
  end.

(** [v || null] and [n || 1] *)
Definition orNull (v : option string) : option string := JsVal.orElse v None.
Definition orOne (n : Z) : Z := if n =? 0 then 1 else n.

Definition textToJson (v : option string) : Json :=
  match orNull v with
  | Some s => JStr s
  | None => JNull
  end.

Definition watchToJson (x : Watch) : Json :=
  JObj [
    ("id", JNum (watchId x));
    ("lobbyKey", JStr (lobbyKey x));
    ("threshold", JNum (threshold x));
    ("intervalMinutes", JNum (intervalMinutes x));
    ("lastAlertAt", match lastAlertAt x with
                    | Some t => JStr (toISOString t)
                    | None => JNull
                    end) ].

(** The object literal assigned to [obj[guildId]]. *)
Definition guildToJson (cfg : GuildConfig) : Json :=
  JObj [
    ("alertChannelId", textToJson (alertChannelId cfg));
    ("alertEnabled", JObj (map (λ '(k, b), (k, JBool b)) (map_to_list (alertEnabled cfg))));
    ("watches", JArr (map (λ '(_, x), watchToJson x) (watches cfg)));
    ("nextWatchId", JNum (orOne (nextWatchId cfg)));
    ("pingRoleId", textToJson (pingRoleId cfg));
    ("defaultRegion", textToJson (defaultRegion cfg));
    ("refreshChannelId", textToJson (refreshChannelId cfg)) ].

Definition saveGuildConfigsToDisk : Js unit :=
  tryCatch
    (let! guilds := gets guildConfigs in
     let obj := map (λ '(guildId, cfg), (guildId, guildToJson cfg)) guilds in
     modify (setConfigFile (Some obj)))
    (λ err, ret tt).

Definition watchOfJson (w : Json) : Watch :=
  {| watchId := default 0 (asNum (field "id" w));
     lobbyKey := default "" (asText (field "lobbyKey" w));
     threshold := default 0 (asNum (field "threshold" w));
     intervalMinutes := default 0 (asNum (field "intervalMinutes" w));
     lastAlertAt :=
       match asText (field "lastAlertAt" w) with
       | Some s => if JsVal.truthy (Some s) then Some (dateParse s) else None
       | None => None
       end |}.

Definition isNull (j : Json) : bool :=
  match j with
  | JNull => true
  | _ => false
  end.

(** The loop over [stored.watches] that fills the map of the tenant;
    [w.id] on a [null] element is a TypeError. *)
Definition watchesOfJson (stored : Json) : option (list (Z * Watch)) :=
  match field "watches" stored with
  | Some (JArr ws) =>
      if existsb isNull ws then None
      else Some (foldl (λ m w, let x := watchOfJson w in watchSet (watchId x) x m) [] ws)
  | _ => Some []
  end.

(** The object literal [cfg] of the restore loop, with its watches;
    nothing when building it throws: [stored.alertChannelId] on an entry
    that is [null] is a TypeError, and so is a [null] watch. *)
Definition guildOfJson (stored : Json) : option GuildConfig :=
  if isNull stored then None else
  match watchesOfJson stored with
  | None => None
  | Some ws =>
      Some {| alertChannelId := orNull (asText (field "alertChannelId" stored));
              alertEnabled := asFlags (field "alertEnabled" stored);
              lastSeenPlayers := ∅;   (* rebuilt at runtime *)
              watches := ws;
              nextWatchId := orOne (default 0 (asNum (field "nextWatchId" stored)));
              pingRoleId := orNull (asText (field "pingRoleId" stored));
              defaultRegion := orNull (asText (field "defaultRegion" stored));
              refreshChannelId := orNull (asText (field "refreshChannelId" stored));
              lastRefreshMessageId := None   (* will be set at runtime *) |}
  end.

Definition loadGuildConfigsFromDisk : Js unit :=
  tryCatch
    (let! file := gets configFile in
     match file with
     | None => ret tt
     | Some parsed =>
         run modify (setGuildConfigs []) in
         forEach parsed (λ '(guildId, stored),
           match guildOfJson stored with
           | Some cfg =>
               modify (λ w, setGuildConfigs (assocSet guildId cfg (guildConfigs w)) w)
           | None => throw "Cannot read properties of null"
           end)
     end)
    (λ err, ret tt).

End Persist.
End Persist.

(** ** A runtime to evaluate the definitions with

    Numbers print with a decimal point and [d] digits; an instant prints
    as its decimal count of milliseconds, which parses back. *)

Module SampleRuntime.

Definition upperChar (c : ascii) : ascii :=
  let n := nat_of_ascii c in
  if ((97 <=? n) && (n <=? 122))%nat then ascii_of_nat (n - 32) else c.

Fixpoint upper (s : string) : string :=
  match s with
  | EmptyString => EmptyString
  | String c rest => String (upperChar c) (upper rest)
  end.

Fixpoint zeroPad (d : nat) (s : string) : string :=
  match d with
  | O => s
  | S d' => if (String.length s <? d)%nat then zeroPad d' ("0" +:+ s) else s
  end.

Definition fixed (d : nat) (q : Q) : string :=
  let scale := 10 ^ Z.of_nat d in
  let m := JsVal.round (q * inject_Z scale) in
  let body := pretty (Z.abs m / scale) +:+
              (if (d =? 0)%nat then "" else "." +:+ zeroPad d (pretty (Z.abs m mod scale))) in
  if m <? 0 then "-" +:+ body else body.

Definition printInstant (t : Z) : string := NilZero.string_of_int (Z.to_int t).

Definition parseInstant (s : string) : Z :=
  match NilZero.int_of_string s with
  | Some d => Z.of_int d
  | None => 0
  end.

#[export] Instance text : JsText.
Proof.
  assert (proper : ∀ t, Z.to_int t ≠ Decimal.Pos Decimal.Nil
                        ∧ Z.to_int t ≠ Decimal.Neg Decimal.Nil).
  { intros [|p|p]; simpl; split; try discriminate;
      intros H; injection H; apply DecimalPos.Unsigned.to_uint_nonnil. }
  assert (back : ∀ t, parseInstant (printInstant t) = t).
  { intros t. unfold parseInstant, printInstant.
    rewrite NilZero.isi by apply proper. apply DecimalZ.of_to. }
  refine {| times := Qmult; toFixed := fixed; toISOString := printInstant;
            dateParse := parseInstant; toUpperCase := upper;
            dateParse_toISOString := back |}.
  intros t H. specialize (back t). rewrite H in back. subst t. discriminate H.
Defined.

(** An outside where every request fails at once. *)
Definition offline : Outside :=
  {| httpGet := λ _ _, HttpFail "timeout of 5000ms exceeded";
     delay := λ _, 0%N;
     sendOk := λ _, true;
     textChannel := λ _ _, true;
     embedOk := λ _, true |}.

End SampleRuntime.

(** ** Vocabulary of the statements *)

(** The final world of a handler, and the requests it sent to the
    upstream. *)
Definition finalWorld {A} (m : Js A) (w : World) : World := snd (m w).

Definition networkCalls {A} (m : Js A) (w : World) : nat :=
  (length (netLog (finalWorld m w)) - length (netLog w))%nat.

(** Every run of the handler relates the world it starts in to the one
    it leaves, whether it returns or throws. *)
Definition preserves {A} (R : World → World → Prop) (m : Js A) : Prop :=
  ∀ w r w', m w = (r, w') → R w w'.

(** The handler leaves a component of the world as it is. *)
Definition agreeOn {B} (f : World → B) : World → World → Prop :=
  λ w w', f w' = f w.

(** The handler keeps an invariant of the world. *)
Definition keepsInv (I : World → Prop) : World → World → Prop :=
  λ w w', I w → I w'.

(** Is the cached entry of the lobby younger than the freshness window? *)
Definition cacheFresh (l : LobbyDef) (w : World) : bool :=
  match lobbyCache w !! key l with
  | Some existing => clock w - lastFetched existing <? 5000
  | None => false
  end.

(** The snapshot of a lobby without endpoint. *)
Definition isPlaceholder (s : Snapshot) : Prop :=
  playerCount s = 0 ∧ players s = [] ∧ noApi s = true.

(** Entries of lobbies without endpoint are placeholders. *)
Definition placeholdersOnly (c : gmap string Snapshot) : Prop :=
  ∀ l s, l ∈ LOBBIES → JsVal.truthy (url l) = false → c !! key l = Some s →
         isPlaceholder s.

(** Every identifier a tenant remembers is truthy. *)
Definition cfgTruthy (cfg : GuildConfig) : Prop :=
  ∀ k ids i, lastSeenPlayers cfg !! k = Some ids → i ∈ ids → i ≠ "".

Definition allTruthy (guilds : list (string * GuildConfig)) : Prop :=
  ∀ g cfg, (g, cfg) ∈ guilds → cfgTruthy cfg.

Definition lastSeenTruthy (w : World) : Prop := allTruthy (guildConfigs w).

(** A player record with neither identifier field usable. *)
Definition lacksIdentifier (q : Player) : Prop :=
  JsVal.truthy (privyId q) = false ∧ JsVal.truthy (id q) = false.

(** The handler hands a message to Discord. *)
Definition sends {A} (m : Js A) (w : World) : Prop :=
  sendLog (finalWorld m w) ≠ sendLog w.

(** A player whose size is a number above the constant [c]. *)
Definition sizeAbove (c : Q) (q : Player) : bool :=
  match size q with
  | Some s => JsVal.gtb s c
  | None => false
  end.

(** A reference that survives a restart: the text, or null when it is
    missing or empty. *)
Definition keptText (v : option string) : option string :=
  match v with
  | Some EmptyString => None
  | Some s => Some s
  | None => None
  end.

(** What of a tenant survives a restart: the last-seen sets and the
    identifier of the refresh message are dropped, an empty reference
    reads as null and a zero counter as one. *)
Definition persisted (cfg : GuildConfig) : GuildConfig :=
  {| alertChannelId := keptText (alertChannelId cfg);
     alertEnabled := alertEnabled cfg;
     lastSeenPlayers := ∅;
     watches := watches cfg;
     nextWatchId := if decide (nextWatchId cfg = 0) then 1 else nextWatchId cfg;
     pingRoleId := keptText (pingRoleId cfg);
     defaultRegion := keptText (defaultRegion cfg);
     refreshChannelId := keptText (refreshChannelId cfg);
     lastRefreshMessageId := None |}.

(** An entry of the file that the restore cannot read: [null], or with
    a [null] among its watches. *)
Definition nullEntry (stored : Json) : Prop :=
  stored = JNull
  ∨ ∃ entries ws, stored = JObj entries ∧ assocGet "watches" entries = Some (JArr ws)
                  ∧ JNull ∈ ws.

(** The entries of a file up to the first one that cannot be read. *)
Fixpoint readableEntries {text : JsText} (file : list (string * Json))
    : list (string * GuildConfig) :=
  match file with
  | [] => []
  | (g, stored) :: rest =>
      match Persist.guildOfJson stored with
      | Some cfg => (g, cfg) :: readableEntries rest
      | None => []
      end
  end.

(** The tenants after [guildConfigs.set] for each of a list of entries. *)
Definition restoreInto (acc entries : list (string * GuildConfig))
    : list (string * GuildConfig) :=
  foldl (λ acc '(g, cfg), assocSet g cfg acc) acc entries.

(** A map of watches has one entry per key, and [handleWatchCommand]
    files each watch under its own number. *)
Definition watchesKeyed (cfg : GuildConfig) : Prop :=
  NoDup (map fst (watches cfg)) ∧ ∀ n x, (n, x) ∈ watches cfg → watchId x = n.

Definition tenantsKeyed (guilds : list (string * GuildConfig)) : Prop :=
  NoDup (map fst guilds) ∧ ∀ g cfg, (g, cfg) ∈ guilds → watchesKeyed cfg.

(** The keys of the object stored for a tenant. *)
Definition storedKeys : list string :=
  [ "alertChannelId"; "alertEnabled"; "watches"; "nextWatchId"; "pingRoleId";
    "defaultRegion"; "refreshChannelId" ].

(** The process started again on the file that a world left. *)
Definition restarted (t : Z) (w : World) : World :=
  setConfigFile (configFile w) (startWorld t).

(** Two calls of [getLobbySnapshot] for one lobby, [d] milliseconds
    apart. *)
Definition twoSnapshots {text : JsText} (out : Outside) (l : LobbyDef) (d : N)
    : Js (option Snapshot * option Snapshot) :=
  let! first := getLobbySnapshot out l in
  run modify (elapse d) in
  let! second := getLobbySnapshot out l in
  ret (first, second).

(** What happens to a running process, as far as the cache can tell: a
    poll cycle, a command or button that asks for the snapshot of a
    lobby, a command that edits the tenants, a refresh of the price, time
    passing. *)
Inductive Step :=
| Poll
| Ask (r : string) (n : Z)
| Configure (guilds : list (string * GuildConfig))
| Reprice (price : option Q) (at_ : option Z)
| Wait (d : N).

Section History.
Context {text : JsText} (out : Outside).

Definition step (s : Step) : Js unit :=
  match s with
  | Poll => pollLobbiesAndProcessAlerts out
  | Ask r n =>
      match findLobby r n with
      | Some l => run getLobbySnapshot out l in ret tt
      | None => ret tt
      end
  | Configure guilds => modify (setGuildConfigs guilds)
  | Reprice price at_ => modify (setSolPrice price at_)
  | Wait d => modify (elapse d)
  end.

Definition history (steps : list Step) : Js unit :=
  forEach steps (λ s, tryCatch (step s) (λ _, ret tt)).

End History.

(** ** Sample inputs *)

Module Sample.

Definition us1 : LobbyDef :=
  {| key := "us-1"; region := "us"; lobby := 1; label := "US $1";
     url := Some "https://damnbruh-game-server-instance-1-us.onrender.com/players" |}.

Definition eu5 : LobbyDef :=
  {| key := "eu-5"; region := "eu"; lobby := 5; label := "EU $5"; url := None |}.

Definition player (ident : string) (sz : Q) : Player :=
  {| privyId := None; id := Some ident; name := Some ident; size := Some sz;
     monetaryValue := None; usdFromSol := None |}.

Definition snapshotOf (l : LobbyDef) (ps : list Player) (fetched : Z) : Snapshot :=
  {| serverId := key l; playerCount := Z.of_nat (length ps); players := ps;
     timestamp := fetched; lastFetched := fetched; noApi := false |}.

(** One second after a poll cached two players of US $1. *)
Definition warm : World :=
  setLobbyCache {[ "us-1" := snapshotOf us1 [player "a" 10; player "b" 20] 0 ]}
    (startWorld 1000).

End Sample.

Module SampleLobby.
Import Sample.

(** Twelve players, largest first. *)
Definition twelve : list Player :=
  [ player "p01" 120; player "p02" 110; player "p03" 100; player "p04" 90;
    player "p05" 80; player "p06" 70; player "p07" 60; player "p08" 50;
    player "p09" 40; player "p10" 30; player "p11" 20; player "p12" 10 ].

(** The same crowd as the upstream lists it, with two players too small
    to count. *)
Definition crowd : list Player :=
  [ player "p07" 60; player "spawn" 3; player "p01" 120; player "p12" 10;
    player "p05" 80; player "p03" 100; player "p09" 40; player "p11" 20;
    player "dead" 0; player "p02" 110; player "p04" 90; player "p06" 70;
    player "p08" 50; player "p10" 30 ].

Definition five : list Player :=
  [ player "a" 10; player "b" 20; player "c" 30; player "d" 40; player "e" 50 ].

Definition six : list Player := (five ++ [player "f" 60])%list.

(** Discord accepts every message at once; the upstream is not asked. *)
Definition prompt : Outside :=
  {| httpGet := λ _ _, HttpFail "not asked";
     delay := λ _, 0%N;
     sendOk := λ _, true;
     textChannel := λ _ _, true;
     embedOk := λ _, true |}.

Definition cachedAt (now : Z) (ps : list Player) : World :=
  setLobbyCache {[ "us-1" := snapshotOf us1 ps now ]} (startWorld now).

(** Watch 1 of the specification's scenario: US $1, five players, every
    two minutes. *)
Definition watch1 (last : option Z) : Watch :=
  {| watchId := 1; lobbyKey := "us-1"; threshold := 5; intervalMinutes := 2;
     lastAlertAt := last |}.

End SampleLobby.

Module SampleTenant.
Import Sample SampleLobby.

(** A tenant that watches US $1 and has its join alerts on. *)
Definition tenant (last : list string) : GuildConfig :=
  {| alertChannelId := Some "channel"; alertEnabled := {[ "us-1" := true ]};
     lastSeenPlayers := {[ "us-1" := last ]}; watches := [(1, watch1 None)];
     nextWatchId := 2; pingRoleId := Some "role"; defaultRegion := Some "us";
     refreshChannelId := None; lastRefreshMessageId := None |}.

Definition world (now : Z) (ps : list Player) (last : list string) : World :=
  setGuildConfigs [("guild", tenant last)] (cachedAt now ps).

(** Two players as the upstream may list them, one without a size and
    one just spawned, with the count it reports. *)
Definition arrivals : Snapshot :=
  {| serverId := "us-1"; playerCount := 2;
     players := [ {| privyId := Some "x"; id := None; name := Some "x"; size := None;
                     monetaryValue := None; usdFromSol := None |};
                  player "y" 2 ];
     timestamp := 0; lastFetched := 0; noApi := false |}.

Definition arrivalsWorld : World :=
  setGuildConfigs [("guild", tenant [])]
    (setLobbyCache {[ "us-1" := arrivals ]} (startWorld 0)).

Definition watch2 : Watch :=
  {| watchId := 1; lobbyKey := "us-1"; threshold := 2; intervalMinutes := 1;
     lastAlertAt := None |}.

(** A player record without any identifier. *)
Definition nobody : Player :=
  {| privyId := None; id := None; name := Some "ghost"; size := Some 50%Q;
     monetaryValue := None; usdFromSol := None |}.

End SampleTenant.

(** ** Vocabulary of the further properties *)

(** The endpoints of the lobbies that have one, in order. *)
Definition endpointsOf (ls : list LobbyDef) : list string :=
  omap (λ l, if JsVal.truthy (url l) then url l else None) ls.

(** Is the cached rate usable for a conversion? *)
Definition rateUsable (price : option Q) : Prop :=
  ∃ r, price = Some r ∧ (0 < r)%Q.

(** A tenant with what the join pass may change blanked out, and with
    what the watch pass may change blanked out. *)
Definition withoutLastSeen (c : GuildConfig) : GuildConfig :=
  {| alertChannelId := alertChannelId c; alertEnabled := alertEnabled c;
     lastSeenPlayers := ∅;
     watches := watches c; nextWatchId := nextWatchId c; pingRoleId := pingRoleId c;
     defaultRegion := defaultRegion c; refreshChannelId := refreshChannelId c;
     lastRefreshMessageId := lastRefreshMessageId c |}.

Definition withoutLastAlerts (c : GuildConfig) : GuildConfig :=
  withWatches (map (λ '(n, x), (n, withLastAlertAt None x)) (watches c)) c.

Definition tenantsWithoutLastSeen (w : World) : list (string * GuildConfig) :=
  map (λ '(g, c), (g, withoutLastSeen c)) (guildConfigs w).

Definition tenantsWithoutLastAlerts (w : World) : list (string * GuildConfig) :=
  map (λ '(g, c), (g, withoutLastAlerts c)) (guildConfigs w).

(** No tenant has an alert channel that Discord resolves to a text
    channel. *)
Definition noAlertChannel (out : Outside) (w : World) : Prop :=
  ∀ g cfg, (g, cfg) ∈ guildConfigs w →
    JsVal.truthy (alertChannelId cfg) = false
    ∨ textChannel out g (default "" (alertChannelId cfg)) = false.

(** Largest size first. *)
Definition sizeDescending (l : list Player) : Prop :=
  StronglySorted (λ a b, (sizeOrZero b <= sizeOrZero a)%Q) l.

#[local] Instance Qeq_decision (x y : Q) : Decision (x == y)%Q := Qeq_dec x y.

(** The players of one size, in the order of the list. *)
Definition ofSize (c : Q) (l : list Player) : list Player :=
  filter (λ p, (sizeOrZero p == c)%Q) l.

(** A handler that keeps a view of the world, as long as the view it
    starts from is good. *)
Definition keepsView {B} (view : World → B) (good : B → Prop) : World → World → Prop :=
  λ w w', good (view w) → view w' = view w.

(** Every map of watches has one entry per key. *)
Definition watchKeysUnique (guilds : list (string * GuildConfig)) : Prop :=
  ∀ g c, (g, c) ∈ guilds → NoDup (map fst (watches c)).

Module SampleUpstream.
Import Sample.

Definition paying (ident : string) (sz money : Q) : Player :=
  {| privyId := Some ident; id := None; name := Some ident; size := Some sz;
     monetaryValue := Some money; usdFromSol := None |}.

(** A reply that lists two players and leaves out count, server and
    time. *)
Definition body : ApiBody :=
  {| success := true; bodyServerId := None; bodyPlayerCount := None;
     bodyPlayers := Some [Some (paying "a" 10 (1 # 2)); Some (paying "b" 2 1)];
     bodyTimestamp := None |}.

(** Every endpoint answers with that reply after 40 ms; Discord accepts
    every message. *)
Definition serving : Outside :=
  {| httpGet := λ _ _, HttpOk (Some body);
     delay := λ _, 40%N;
     sendOk := λ _, true;
     textChannel := λ _ _, true;
     embedOk := λ _, true |}.

(** A fresh process that knows a rate. *)
Definition priced (rate : Q) : World := setSolPrice (Some rate) (Some 0) (startWorld 0).

(** US $1 was cached seven seconds ago. *)
Definition stale : World := setClock 7000 warm.

(** One tenant that never set an alert channel. *)
Definition unset : World :=
  setGuildConfigs [("guild", withWatches [(1, SampleLobby.watch1 None)] emptyGuildConfig)]
    (SampleLobby.cachedAt 0 SampleLobby.five).

End SampleUpstream.

(** ** The price refresher (src/index.js, lines 75-92) *)

(** Body of a reply of the price endpoint: [price] when it is a number,
    and the instant [lastUpdated] denotes when it is truthy (a timestamp
    that [new Date] reads). *)
Record PriceBody := {
  priceSuccess : bool;
  bodyPrice : option Q;
  bodyLastUpdated : option Z;
}.

Inductive PriceResult :=
| PriceFail (message : string)
| PriceOk (data : option PriceBody).

Definition SOL_PRICE_URL : string := "https://www.damnbruh.com/api/price/sol".

Section Refresher.
Context (out : Outside) (priceGet : nat → PriceResult).

Definition refreshSolPrice : Js unit :=
  tryCatch
    (run modify (λ w, setNetLog (netLog w ++ [SOL_PRICE_URL])%list w) in
     let! n := request out in
     match priceGet n with
     | PriceFail e => throw e
     | PriceOk None => (* console.warn *) ret tt
     | PriceOk (Some data) =>
         match bodyPrice data with
         | Some p =>
             if priceSuccess data then
               let! now := dateNow in
               modify (setSolPrice (Some p) (Some (default now (bodyLastUpdated data))))
             else ret tt
         | None => ret tt
         end
     end)
    (λ err, (* console.error *) ret tt).

End Refresher.

(** ** Commands (src/index.js, lines 351-447 and 670-956)

    Every branch of a command handler ends in [await message.reply(...)];
    a handler is modelled up to that call and returns what it hands to
    it. The limits the library puts on the size of an embed are not
    modelled. *)

(** Result of [parseInt(s, 10)]: a whole number, or one of [NaN],
    [Infinity] and [-Infinity], kept as a template prints it. *)
Inductive Parsed :=
| Whole (n : Z)
| NotWhole (shown : string).

Definition parsedText (p : Parsed) : string :=
  match p with
  | Whole n => pretty n
  | NotWhole shown => shown
  end.

(** [Number.isInteger(p)], [l.includes(p)] and the value of a whole
    number. *)
Definition isInteger (p : Parsed) : bool :=
  match p with
  | Whole _ => true
  | NotWhole _ => false
  end.

Definition includesParsed (l : list Z) (p : Parsed) : bool :=
  match p with
  | Whole n => bool_decide (n ∈ l)
  | NotWhole _ => false
  end.

Definition numberOf (p : Parsed) : Z :=
  match p with
  | Whole n => n
  | NotWhole _ => 0
  end.

(** [message.mentions.roles.first()]: its id, and the role as a template
    prints it. *)
Record Role := { roleId : string; roleText : string }.

(** [message.mentions.channels.first()]: its id, whether it is text
    based, and the channel as a template prints it. *)
Record Channel := { channelId : string; isTextBased : bool; channelText : string }.

Record Message := {
  messageGuildId : string;         (* message.guild.id *)
  mentionedRole : option Role;
  mentionedChannel : option Channel;
}.

Definition doubleQuote : string := String (ascii_of_nat 34) EmptyString.

(** [new EmbedBuilder().setTitle(t).setDescription(d).setColor(ORANGE)] *)
Definition simpleEmbed (t d : string) : Embed :=
  {| title := t; description := d; color := ORANGE; fields := []; footer := None |}.

(** [Map.get], [Map.has] and [Map.delete] on the watches. *)
Fixpoint watchGet (n : Z) (l : list (Z * Watch)) : option Watch :=
  match l with
  | [] => None
  | (n', x) :: rest => if n' =? n then Some x else watchGet n rest
  end.

Definition watchHas (n : Z) (l : list (Z * Watch)) : bool :=
  bool_decide (is_Some (watchGet n l)).

Fixpoint watchDelete (n : Z) (l : list (Z * Watch)) : list (Z * Watch) :=
  match l with
  | [] => []
  | (n', x) :: rest => if n' =? n then rest else (n', x) :: watchDelete n rest
  end.

Definition withNextWatchId (n : Z) (c : GuildConfig) : GuildConfig :=
  {| alertChannelId := alertChannelId c; alertEnabled := alertEnabled c;
     lastSeenPlayers := lastSeenPlayers c;
     watches := watches c; nextWatchId := n; pingRoleId := pingRoleId c;
     defaultRegion := defaultRegion c; refreshChannelId := refreshChannelId c;
     lastRefreshMessageId := lastRefreshMessageId c |}.

Definition withPingRoleId (r : option string) (c : GuildConfig) : GuildConfig :=
  {| alertChannelId := alertChannelId c; alertEnabled := alertEnabled c;
     lastSeenPlayers := lastSeenPlayers c;
     watches := watches c; nextWatchId := nextWatchId c; pingRoleId := r;
     defaultRegion := defaultRegion c; refreshChannelId := refreshChannelId c;
     lastRefreshMessageId := lastRefreshMessageId c |}.

Definition withAlertChannelId (ch : option string) (c : GuildConfig) : GuildConfig :=
  {| alertChannelId := ch; alertEnabled := alertEnabled c;
     lastSeenPlayers := lastSeenPlayers c;
     watches := watches c; nextWatchId := nextWatchId c; pingRoleId := pingRoleId c;
     defaultRegion := defaultRegion c; refreshChannelId := refreshChannelId c;
     lastRefreshMessageId := lastRefreshMessageId c |}.

Definition withDefaultRegion (r : option string) (c : GuildConfig) : GuildConfig :=
  {| alertChannelId := alertChannelId c; alertEnabled := alertEnabled c;
     lastSeenPlayers := lastSeenPlayers c;
     watches := watches c; nextWatchId := nextWatchId c; pingRoleId := pingRoleId c;
     defaultRegion := r; refreshChannelId := refreshChannelId c;
     lastRefreshMessageId := lastRefreshMessageId c |}.

(** [cfg.alertChannelId ? `<#${cfg.alertChannelId}>` : 'not set'] *)
Definition channelTextOf (cfg : GuildConfig) : string :=
  if JsVal.truthy (alertChannelId cfg)
  then "<#" +:+ default "" (alertChannelId cfg) +:+ ">"
  else "not set".

Section Commands.
Context {text : JsText} (out : Outside).
Context (toLowerCase : string → string) (parseInt : string → Parsed).

(** [(args[i] || '').toLowerCase()] and [parseInt(args[i], 10)] *)
Definition lowerArg (args : list string) (i : nat) : string :=
  toLowerCase (default "" (args !! i)).

Definition parseArg (args : list string) (i : nat) : Parsed :=
  match args !! i with
  | Some s => parseInt s
  | None => NotWhole "NaN"
  end.

(** *** [,watch] (lines 670-875) *)

Definition watchField (n : Z) (watch : Watch) : Field :=
  let lobbyLabel :=
    match lobbyOfKey (lobbyKey watch) with
    | Some lobbyDef => label lobbyDef
    | None => lobbyKey watch
    end in
  let last :=
    match lastAlertAt watch with
    | Some t => toISOString t
    | None => "never"
    end in
  {| fieldName := lobbyLabel +:+ " (ID " +:+ pretty n +:+ ")";
     fieldValue := "Threshold: " +:+ pretty (threshold watch) +:+ " players" +:+ JsVal.nl
                   +:+ "Interval: " +:+ pretty (intervalMinutes watch) +:+ " minute(s)"
                   +:+ JsVal.nl +:+ "Last alert: " +:+ last;
     inline := false |}.

Definition handleWatchCommand (message : Message) (args : list string) : Js Embed :=
  let guildId := messageGuildId message in
  let! cfg := getGuildConfig guildId in
  let sub := lowerArg args 0 in
  if String.eqb sub "" then
    ret (simpleEmbed "Lobby Watchers" (JsVal.joinLines [
      "Watch set (minutes)";
      "";
      "Usage:";
      "  `,watch add <lobby> <region> <threshold> <minutes>`";
      "  `,watch list`";
      "  `,watch remove <id>`";
      "  `,watch clear`";
      "";
      "Examples:";
      "  ,watch add 5 us 6 2";
      "  ,watch list" ]))
  else if String.eqb sub "add" then
    if (length args <? 5)%nat then
      ret (simpleEmbed "Invalid arguments"
             ("Usage: `,watch add <lobby> <region> <threshold> <minutes>`" +:+ JsVal.nl
              +:+ "Example: `,watch add 5 us 6 2`"))
    else
    let lobbyNum := parseArg args 1 in
    let region := lowerArg args 2 in
    let threshold := parseArg args 3 in
    let minutes := parseArg args 4 in
    if negb (includesParsed [1; 5; 20] lobbyNum) || negb (bool_decide (region ∈ ["us"; "eu"]))
    then
      ret (simpleEmbed "Invalid arguments"
             ("Lobby must be 1, 5, or 20." +:+ JsVal.nl
              +:+ "Region must be " +:+ doubleQuote +:+ "us" +:+ doubleQuote +:+ " or "
              +:+ doubleQuote +:+ "eu" +:+ doubleQuote +:+ "." +:+ JsVal.nl +:+ JsVal.nl
              +:+ "Example: `,watch add 5 us 6 2`"))
    else if negb (isInteger threshold) || (numberOf threshold <? 1) then
      ret (simpleEmbed "Invalid threshold"
             ("Threshold must be a whole number of players and at least 1." +:+ JsVal.nl
              +:+ "Example: `,watch add 5 us 6 2`"))
    else if negb (isInteger minutes) || (numberOf minutes <? 1) then
      ret (simpleEmbed "Invalid minutes"
             ("Minutes must be a whole number and at least 1." +:+ JsVal.nl
              +:+ "Example: `,watch add 5 us 6 2`"))
    else
    match findLobby region (numberOf lobbyNum) with
    | None => ret (simpleEmbed "Error" "Could not find that lobby definition.")
    | Some lobbyDef =>
        if negb (JsVal.truthy (url lobbyDef)) then
          ret (simpleEmbed (label lobbyDef) "No API for this server.")
        else
        (* const id = cfg.nextWatchId++ *)
        let n := nextWatchId cfg in
        run modifyCfg guildId (withNextWatchId (n + 1)) in
        run modifyCfg guildId (λ c, withWatches
              (watchSet n {| watchId := n; lobbyKey := key lobbyDef;
                             threshold := numberOf threshold;
                             intervalMinutes := numberOf minutes;
                             lastAlertAt := None |} (watches c)) c) in
        ret (simpleEmbed "Watch created" (JsVal.joinLines [
          "Lobby: " +:+ label lobbyDef;
          "Threshold: " +:+ parsedText threshold +:+ " players";
          "Interval: " +:+ parsedText minutes +:+ " minute(s)" ]))
    end
  else if String.eqb sub "list" then
    if (length (watches cfg) =? 0)%nat then
      ret (simpleEmbed "No active watches"
             ("There are no active watches in this server." +:+ JsVal.nl
              +:+ "Use `,watch add <lobby> <region> <threshold> <minutes>` to create one."))
    else
      ret {| title := "Active Lobby Watches";
             description := "Alert channel: " +:+ channelTextOf cfg;
             color := ORANGE;
             fields := map (λ '(n, watch), watchField n watch) (watches cfg);
             footer := None |}
  else if String.eqb sub "remove" then
    if (length args <? 2)%nat then
      ret (simpleEmbed "Usage" "` ,watch remove <id> `")
    else
    let n := parseArg args 1 in
    if negb (isInteger n && watchHas (numberOf n) (watches cfg)) then
      ret (simpleEmbed "Watch not found"
             ("No watch found with ID " +:+ parsedText n +:+ "." +:+ JsVal.nl
              +:+ "Use `,watch list` to see all active watches."))
    else
      run modifyCfg guildId (λ c, withWatches (watchDelete (numberOf n) (watches c)) c) in
      ret (simpleEmbed "Watch removed" ("Watch " +:+ parsedText n +:+ " removed."))
  else if String.eqb sub "clear" then
    if (length (watches cfg) =? 0)%nat then
      ret (simpleEmbed "No watches to clear" "There are no watches to clear.")
    else
      run modifyCfg guildId (withWatches []) in
      ret (simpleEmbed "Watches cleared" "All watches have been cleared for this server.")
  else
    ret (simpleEmbed "Unknown subcommand"
           "Usage: `,watch add`, `,watch list`, `,watch remove`, `,watch clear`").

(** *** [,config] (lines 878-956) *)

Definition handleConfigCommand (message : Message) (args : list string) : Js Embed :=
  let guildId := messageGuildId message in
  let! cfg := getGuildConfig guildId in
  let sub := lowerArg args 0 in
  if String.eqb sub "" then
    let defaultRegionText := default "not set" (JsVal.orElse (defaultRegion cfg) (Some "not set")) in
    let pingRoleText :=
      if JsVal.truthy (pingRoleId cfg)
      then "<@&" +:+ default "" (pingRoleId cfg) +:+ ">"
      else "No ping role given" in
    ret (simpleEmbed "Bot Configuration" (JsVal.joinLines [
      "Default region: " +:+ defaultRegionText;
      "Alert channel: " +:+ channelTextOf cfg;
      "Ping role: " +:+ pingRoleText;
      "";
      "Commands:";
      "  ,config default-region <us|eu>";
      "  ,config setrole @role";
      "  ,alert channel #channel" ]))
  else if String.eqb sub "default-region" then
    let region := lowerArg args 1 in
    if negb (bool_decide (region ∈ ["us"; "eu"])) then
      ret (simpleEmbed "Invalid region"
             ("Region must be " +:+ doubleQuote +:+ "us" +:+ doubleQuote +:+ " or "
              +:+ doubleQuote +:+ "eu" +:+ doubleQuote +:+ "." +:+ JsVal.nl
              +:+ "Example: `,config default-region us`"))
    else
      run modifyCfg guildId (withDefaultRegion (Some region)) in
      ret (simpleEmbed "Default region set"
             ("Default region set to " +:+ toUpperCase region +:+ "."))
  else if String.eqb sub "setrole" then
    match mentionedRole message with
    | None =>
        run modifyCfg guildId (withPingRoleId None) in
        ret (simpleEmbed "Ping role cleared" "Ping role cleared. No ping role given.")
    | Some role =>
        run modifyCfg guildId (withPingRoleId (Some (roleId role))) in
        ret (simpleEmbed "Ping role set" ("Ping role set to " +:+ roleText role +:+ "."))
    end
  else
    ret (simpleEmbed "Unknown subcommand"
           "Usage: `,config default-region <us|eu>`, `,config setrole @role`").

(** *** [,alert] (lines 450-667) *)

(** [lines.join('\n') || 'None'] *)
Definition linesOrNone (lines : list string) : string :=
  default "None" (JsVal.orElse (Some (JsVal.joinLines lines)) (Some "None")).

Definition alertListLine (cfg : GuildConfig) (l : LobbyDef) : string :=
  let state :=
    if negb (JsVal.truthy (url l)) then "NO API"
    else if default false (alertEnabled cfg !! key l) then "ON" else "OFF" in
  "$" +:+ pretty (lobby l) +:+ "  - " +:+ state.

Definition handleAlertCommand (message : Message) (args : list string) : Js Embed :=
  let guildId := messageGuildId message in
  let! cfg := getGuildConfig guildId in
  let sub := lowerArg args 0 in
  if String.eqb sub "" then
    ret {| title := "Join Alert Commands";
           description := JsVal.joinLines [
             "Usage:";
             "  `,alert on <lobby> <region>`";
             "  `,alert off <lobby> <region>`";
             "  `,alert channel #channel`";
             "  `,alert list`";
             "  `,alert status`";
             "";
             "Lobby:";
             "  1  - $1 lobby";
             "  5  - $5 lobby";
             "  20 - $20 lobby";
             "";
             "Region:";
             "  us - US servers";
             "  eu - EU servers";
             "";
             "Examples:";
             "  ,alert on 20 us";
             "  ,alert off 5 eu";
             "  ,alert channel #damnbruh-alerts";
             "  ,alert list";
             "" ];
           color := ORANGE; fields := [];
           footer := Some "Alerts ping when someone joins that lobby" |}
  else if String.eqb sub "channel" then
    match mentionedChannel message with
    | Some channel =>
        if negb (isTextBased channel) then
          ret (simpleEmbed "Invalid channel"
                 "Please mention a text channel. Example: `,alert channel #damnbruh-alerts`")
        else
          run modifyCfg guildId (withAlertChannelId (Some (channelId channel))) in
          ret (simpleEmbed "Alert channel set"
                 ("Alert channel set to " +:+ channelText channel +:+ "." +:+ JsVal.nl
                  +:+ "Join and watch alerts will be sent here."))
    | None =>
        ret (simpleEmbed "Invalid channel"
               "Please mention a text channel. Example: `,alert channel #damnbruh-alerts`")
    end
  else if String.eqb sub "on" || String.eqb sub "off" then
    if (length args <? 3)%nat then
      ret (simpleEmbed "Invalid arguments"
             ("Usage: `,alert on <lobby> <region>`" +:+ JsVal.nl
              +:+ "Example: `,alert on 20 us`"))
    else
    let lobbyNum := parseArg args 1 in
    let region := lowerArg args 2 in
    if negb (includesParsed [1; 5; 20] lobbyNum) || negb (bool_decide (region ∈ ["us"; "eu"]))
    then
      ret (simpleEmbed "Invalid arguments"
             ("Lobby must be 1, 5, or 20." +:+ JsVal.nl
              +:+ "Region must be " +:+ doubleQuote +:+ "us" +:+ doubleQuote +:+ " or "
              +:+ doubleQuote +:+ "eu" +:+ doubleQuote +:+ "." +:+ JsVal.nl +:+ JsVal.nl
              +:+ "Example: `,alert on 20 us`"))
    else
    match findLobby region (numberOf lobbyNum) with
    | None => ret (simpleEmbed "Error" "Could not find that lobby definition.")
    | Some lobbyDef =>
        if negb (JsVal.truthy (url lobbyDef)) then
          ret (simpleEmbed (label lobbyDef) "No API for this server.")
        else if String.eqb sub "on" then
          if negb (JsVal.truthy (alertChannelId cfg)) then
            ret (simpleEmbed "Alert channel not set" "Use `,alert channel #channel` first.")
          else
          let k := getLobbyKey region (numberOf lobbyNum) in
          run modifyCfg guildId (withAlertEnabled k true) in
          run (match lastSeenPlayers cfg !! k with
               | Some _ => ret tt
               | None => modifyCfg guildId (withLastSeen k [])
               end) in
          ret (simpleEmbed "Join alerts enabled"
                 ("Join alerts enabled for " +:+ toUpperCase region +:+ " $"
                  +:+ parsedText lobbyNum +:+ " lobby in <#"
                  +:+ default "" (alertChannelId cfg) +:+ ">."))
        else
          let k := getLobbyKey region (numberOf lobbyNum) in
          if negb (default false (alertEnabled cfg !! k)) then
            ret (simpleEmbed "Join alerts already disabled"
                   ("Join alerts are already disabled for " +:+ toUpperCase region +:+ " $"
                    +:+ parsedText lobbyNum +:+ " lobby."))
          else
          run modifyCfg guildId (withAlertEnabled k false) in
          run modifyCfg guildId (withLastSeen k []) in
          ret (simpleEmbed "Join alerts disabled"
                 ("Join alerts disabled for " +:+ toUpperCase region +:+ " $"
                  +:+ parsedText lobbyNum +:+ " lobby."))
    end
  else if String.eqb sub "list" then
    let usLines := map (alertListLine cfg)
                     (filter (λ l, String.eqb (region l) "us" = true) LOBBIES) in
    let euLines := map (alertListLine cfg)
                     (filter (λ l, String.eqb (region l) "us" = false) LOBBIES) in
    ret {| title := "Join Alert Status";
           description := "Alert channel: " +:+ channelTextOf cfg;
           color := ORANGE;
           fields := [ {| fieldName := "US lobbies"; fieldValue := linesOrNone usLines;
                          inline := true |};
                       {| fieldName := "EU lobbies"; fieldValue := linesOrNone euLines;
                          inline := true |} ];
           footer := Some "Use ,alert on <lobby> <region> or ,alert off <lobby> <region> to change" |}
  else if String.eqb sub "status" then
    let enabled :=
      map (λ l, "$" +:+ pretty (lobby l) +:+ " " +:+ toUpperCase (region l))
          (filter (λ l, JsVal.truthy (url l) && default false (alertEnabled cfg !! key l) = true)
                  LOBBIES) in
    let enabledText :=
      if (length enabled =? 0)%nat then "none" else String.concat ", " enabled in
    ret (simpleEmbed "Alert Status" (JsVal.joinLines [
      "Alert channel: " +:+ channelTextOf cfg;
      "Join alerts enabled on:";
      "  " +:+ enabledText ]))
  else
    ret (simpleEmbed "Unknown subcommand"
           "Usage: `,alert on|off <lobby> <region>`, `,alert channel #channel`, `,alert list`, `,alert status`").

(** *** [,lb] (lines 351-447) *)

Definition plainReply (e : Embed) : LbView := {| lbEmbed := e; lbComponents := [] |}.

Definition handleLbCommand (message : Message) (args : list string) : Js LbView :=
  if (length args <? 2)%nat then
    let! status := solPriceStatusLine in
    ret (plainReply (simpleEmbed "Leaderboard Command" (JsVal.joinLines [
      "Usage: `,lb <lobby> <region>`";
      "";
      "Lobby:";
      "  1  - $1 lobby";
      "  5  - $5 lobby";
      "  20 - $20 lobby";
      "";
      "Region:";
      "  us - US servers";
      "  eu - EU servers";
      "";
      "Examples:";
      "  ,lb 1 us";
      "  ,lb 5 eu";
      "  ,lb 20 us";
      "";
      "Notes:";
      "  • Players with size ≤ 3 are ignored";
      "  • Shows USD value converted from SOL";
      "";
      status ])))
  else
  let lobbyNum := parseArg args 0 in
  let region := lowerArg args 1 in
  if negb (includesParsed [1; 5; 20] lobbyNum) then
    ret (plainReply (simpleEmbed "Invalid lobby"
           ("Lobby must be 1, 5, or 20." +:+ JsVal.nl +:+ "Usage: `,lb <lobby> <region>`"
            +:+ JsVal.nl +:+ "Example: `,lb 5 us`")))
  else if negb (bool_decide (region ∈ ["us"; "eu"])) then
    ret (plainReply (simpleEmbed "Invalid region"
           ("Region must be " +:+ doubleQuote +:+ "us" +:+ doubleQuote +:+ " or "
            +:+ doubleQuote +:+ "eu" +:+ doubleQuote +:+ "." +:+ JsVal.nl
            +:+ "Usage: `,lb <lobby> <region>`" +:+ JsVal.nl +:+ "Example: `,lb 5 us`")))
  else
  match findLobby region (numberOf lobbyNum) with
  | None => ret (plainReply (simpleEmbed "Error" "Could not find that lobby definition."))
  | Some lobbyDef =>
      (* EU $5 has no API *)
      if negb (JsVal.truthy (url lobbyDef)) then
        ret (plainReply (simpleEmbed (label lobbyDef) "No API for this server."))
      else
      let! snapshot := getLobbySnapshot out lobbyDef in
      match snapshot with
      | None =>
          ret (plainReply (simpleEmbed "Error"
            "Could not load lobby data right now. The game server might be offline or unreachable. Please try again in a moment."))
      | Some s =>
          if noApi s then
            ret (plainReply (simpleEmbed "Error"
              "Could not load lobby data right now. The game server might be offline or unreachable. Please try again in a moment."))
          else
            let! view := buildLbEmbed lobbyDef s (leaderboardPlayers s) 0 in
            (* [embed.addFields] validates the field and throws on a name
               over 256 characters *)
            if embedOk out (lbEmbed view) then ret view
            else throw "CombinedPropertyError"
      end
  end.

End Commands.

(** ** Vocabulary of the refresher and the commands *)

(** What [refreshSolPrice] takes from a reply: the price and, when the
    reply says so, the instant of its last update. *)
Definition acceptedPrice (r : PriceResult) : option (Q * option Z) :=
  match r with
  | PriceOk (Some data) =>
      if priceSuccess data then (λ p, (p, bodyLastUpdated data)) <$> bodyPrice data else None
  | _ => None
  end.

(** A cached price comes with the instant it was cached at. *)
Definition priceStamped (w : World) : Prop :=
  is_Some (solPriceUsd w) → is_Some (solPriceUpdatedAt w).

Definition UNAVAILABLE : string := "SOL price: unavailable (will retry every 60s)".

(** The configuration [getGuildConfig] returns for a guild. *)
Definition tenantOf (g : string) (w : World) : GuildConfig :=
  default emptyGuildConfig (assocGet g (guildConfigs w)).

(** The numbers of the watches of a tenant were handed out by its
    counter. *)
Definition watchesFresh (cfg : GuildConfig) : Prop :=
  ∀ n x, (n, x) ∈ watches cfg → n < nextWatchId cfg.

(** A watch as [,watch add] accepts it: on a lobby of the registry that
    has an endpoint, with a threshold and an interval of at least one. *)
Definition watchSound (x : Watch) : Prop :=
  (∃ l, l ∈ LOBBIES ∧ key l = lobbyKey x ∧ JsVal.truthy (url l) = true)
  ∧ 1 ≤ threshold x ∧ 1 ≤ intervalMinutes x.

Definition tenantOrderly (cfg : GuildConfig) : Prop :=
  watchesKeyed cfg ∧ watchesFresh cfg ∧ ∀ n x, (n, x) ∈ watches cfg → watchSound x.

Definition tenantsOrderly (guilds : list (string * GuildConfig)) : Prop :=
  NoDup (map fst guilds) ∧ ∀ g cfg, (g, cfg) ∈ guilds → tenantOrderly cfg.

(** The default region of a tenant is unset or one of the two regions. *)
Definition regionKnown (cfg : GuildConfig) : Prop :=
  defaultRegion cfg = None ∨ defaultRegion cfg = Some "us" ∨ defaultRegion cfg = Some "eu".

(** Are the arguments of [,watch add] accepted? *)
Definition addAccepted (toLowerCase : string → string) (parseInt : string → Parsed)
    (args : list string) : option (LobbyDef * Z * Z) :=
  let lobbyNum := parseArg parseInt args 1 in
  let region := lowerArg toLowerCase args 2 in
  match parseArg parseInt args 3, parseArg parseInt args 4 with
  | Whole t, Whole m =>
      if negb (length args <? 5)%nat && includesParsed [1; 5; 20] lobbyNum
         && bool_decide (region ∈ ["us"; "eu"]) && negb (t <? 1) && negb (m <? 1)
      then match findLobby region (numberOf lobbyNum) with
           | Some l => if JsVal.truthy (url l) then Some (l, t, m) else None
           | None => None
           end
      else None
  | _, _ => None
  end.

Module SampleCommands.

Definition lowerChar (c : ascii) : ascii :=
  let n := nat_of_ascii c in
  if ((65 <=? n) && (n <=? 90))%nat then ascii_of_nat (n + 32) else c.

Fixpoint lower (s : string) : string :=
  match s with
  | EmptyString => EmptyString
  | String c rest => String (lowerChar c) (lower rest)
  end.

(** A parser for plain decimal numerals. *)
Definition readInt (s : string) : Parsed :=
  match NilZero.int_of_string s with
  | Some d => Whole (Z.of_int d)
  | None => NotWhole "NaN"
  end.

Definition asker : Message :=
  {| messageGuildId := "guild"; mentionedRole := None; mentionedChannel := None |}.

Definition mentioning : Message :=
  {| messageGuildId := "guild";
     mentionedRole := Some {| roleId := "42"; roleText := "<@&42>" |};
     mentionedChannel :=
       Some {| channelId := "7"; isTextBased := true; channelText := "<#7>" |} |}.

(** A builder that takes an embed when no field name is over 256
    characters, the limit [addFields] checks; Discord accepts every
    message and the upstream is not asked. *)
Definition strict : Outside :=
  {| httpGet := λ _ _, HttpFail "not asked";
     delay := λ _, 0%N;
     sendOk := λ _, true;
     textChannel := λ _ _, true;
     embedOk := λ e, forallb (λ f, (String.length (fieldName f) <=? 256)%nat) (fields e) |}.

(** A display name of 300 characters. *)
Definition longName : string := String.concat "" (replicate 30 "0123456789").

(** The price endpoint answers 150 dollars, without a date. *)
Definition quoted : nat → PriceResult :=
  λ _, PriceOk (Some {| priceSuccess := true; bodyPrice := Some 150%Q;
                        bodyLastUpdated := None |}).

End SampleCommands.

(** The tenants once [getGuildConfig] has been called for a guild. *)
Definition ensureTenant (g : string) (guilds : list (string * GuildConfig))
    : list (string * GuildConfig) :=
  match assocGet g guilds with
  | Some _ => guilds
  | None => (guilds ++ [(g, emptyGuildConfig)])%list
  end.

(** What a [,watch] command does to the watches of its tenant. *)
Inductive WatchEdit :=
| KeepWatches
| AddWatch (l : LobbyDef) (t m : Z)
| RemoveWatch (n : Z)
| ClearWatches.

Definition newWatch (n : Z) (l : LobbyDef) (t m : Z) : Watch :=
  {| watchId := n; lobbyKey := key l; threshold := t; intervalMinutes := m;
     lastAlertAt := None |}.

Definition applyEdit (e : WatchEdit) (cfg : GuildConfig) : GuildConfig :=
  match e with
  | KeepWatches => cfg
  | AddWatch l t m =>
      let n := nextWatchId cfg in
      withWatches (watches cfg ++ [(n, newWatch n l t m)])%list (withNextWatchId (n + 1) cfg)
  | RemoveWatch n => withWatches (filter (λ e, e.1 ≠ n) (watches cfg)) cfg
  | ClearWatches => withWatches [] cfg
  end.

Definition watchEditOf (toLowerCase : string → string) (parseInt : string → Parsed)
    (args : list string) (cfg : GuildConfig) : WatchEdit :=
  let sub := lowerArg toLowerCase args 0 in
  if String.eqb sub "add" then
    match addAccepted toLowerCase parseInt args with
    | Some (l, t, m) => AddWatch l t m
    | None => KeepWatches
    end
  else if String.eqb sub "remove" then
    match parseArg parseInt args 1 with
    | Whole n =>
        if negb (length args <? 2)%nat && watchHas n (watches cfg)
        then RemoveWatch n else KeepWatches
    | NotWhole _ => KeepWatches
    end
  else if String.eqb sub "clear" then ClearWatches
  else KeepWatches.

(** The tenants after an edit of the tenant of a guild. *)
Definition withTenant (g : string) (cfg : GuildConfig) (w : World) : World :=
  setGuildConfigs (assocAlter (λ _, cfg) g (ensureTenant g (guildConfigs w))) w.

(** ** The region summary (src/unnamed/part_001, lines 635-693) *)

Module Summary.

(** [typeof p.usdFromSol === 'number' ? p.usdFromSol : 0] *)
Definition usdOrZero (p : Player) : Q := default 0%Q (usdFromSol p).

(** [.sort((a, b) => usdB - usdA)], a stable sort: an element is put
    behind the elements that are not smaller. *)
Definition staysBefore (a b : Player) : bool := Qle_bool (usdOrZero b) (usdOrZero a).

Fixpoint insertByUsd (p : Player) (sorted : list Player) : list Player :=
  match sorted with
  | [] => [p]
  | q :: rest => if staysBefore p q then p :: q :: rest else q :: insertByUsd p rest
  end.

Definition sortByUsdDesc (l : list Player) : list Player := foldr insertByUsd [] l.

Definition activePlayersOf (s : Snapshot) : list Player :=
  sortByUsdDesc (filter (λ p, lbActive p = true) (players s)).

Definition lobbyNumbersOf (region : string) : list Z :=
  if String.eqb region "us" then [1; 5; 20] else [1; 20].

Section Summary.
Context {text : JsText} (out : Outside).

Definition summaryLine (idx : nat) (p : Player) : string :=
  let rank := Z.of_nat idx + 1 in
  let usd :=
    match usdFromSol p with
    | Some u => "$" +:+ toFixed 2 u
    | None => "(price unavailable)"
    end in
  "#" +:+ pretty rank +:+ " " +:+ displayName p +:+ " - " +:+ usd.

Definition summaryEmbed (lobbyDef : LobbyDef) (region : string)
    (activePlayers : list Player) : Embed :=
  let top5 := take 5 activePlayers in
  let lines := imap summaryLine top5 in
  {| title := label lobbyDef +:+ " Lobby Leaderboard";
     description := JsVal.joinLines [
       "Lobby: $" +:+ pretty (lobby lobbyDef) +:+ "   Region: " +:+ toUpperCase region;
       "Players in lobby: " +:+ pretty (length activePlayers);
       "";
       if (length lines =? 0)%nat then "No active players with size > 3."
       else JsVal.joinLines lines ];
     color := ORANGE; fields := []; footer := None |}.

(** The loop over the lobby numbers; [embeds] is the array it pushes
    to. The guard [Array.isArray(snapshot.players)] holds for every
    cache entry. *)
Fixpoint summaryLoop (region : string) (lobbyNumbers : list Z) (embeds : list Embed)
    : Js (list Embed) :=
  match lobbyNumbers with
  | [] => ret embeds
  | lobbyNum :: rest =>
      match findLobby region lobbyNum with
      | None => summaryLoop region rest embeds
      | Some lobbyDef =>
          if negb (JsVal.truthy (url lobbyDef)) then summaryLoop region rest embeds
          else
            let! snapshot := getLobbySnapshot out lobbyDef in
            match snapshot with
            | None => summaryLoop region rest embeds
            | Some s =>
                if noApi s then summaryLoop region rest embeds
                else
                  let embed := summaryEmbed lobbyDef region (activePlayersOf s) in
                  (* [setDescription] validates the text and throws on one
                     over 4096 characters *)
                  if embedOk out embed then summaryLoop region rest (embeds ++ [embed])%list
                  else throw "CombinedPropertyError"
            end
      end
  end.

(** The embeds handed to [message.reply]. *)
Definition handleRegionSummaryCommand (region : string) : Js (list Embed) :=
  let! embeds := summaryLoop region (lobbyNumbersOf region) [] in
  if (length embeds =? 0)%nat then
    ret [ {| title := if String.eqb region "us" then "US Lobby Summary" else "EU Lobby Summary";
             description := "No lobby data available right now.";
             color := ORANGE; fields := []; footer := None |} ]
  else ret embeds.

End Summary.
End Summary.

(** The lobbies of a region that have an endpoint, in registry order. *)
Definition regionLobbies (r : string) : list LobbyDef :=
  filter (λ l, JsVal.truthy (url l) = true)
         (filter (λ l, String.eqb (region l) r = true) LOBBIES).

(** [getLobbySnapshot] for each of a list of lobbies, one after the
    other: the lobbies that answer with a snapshot not marked [noApi],
    and their snapshots. *)
Fixpoint lookups {text : JsText} (out : Outside) (ls : list LobbyDef)
    : Js (list (LobbyDef * Snapshot)) :=
  match ls with
  | [] => ret []
  | l :: rest =>
      let! snapshot := getLobbySnapshot out l in
      let! more := lookups out rest in
      ret (match snapshot with
           | Some s => if noApi s then more else (l, s) :: more
           | None => more
           end)
  end.

(** Largest USD value first. *)
Definition usdDescending (l : list Player) : Prop :=
  StronglySorted (λ a b, (Summary.usdOrZero b <= Summary.usdOrZero a)%Q) l.

(** * Properties *)

(** ** JavaScript values *)

Module JsFacts.
Import JsVal.

Lemma truthy_Some v : truthy v = true → ∃ s, v = Some s ∧ s ≠ "".
Proof.
  destruct v as [s|]; simpl; [|discriminate].
  intros H. exists s. split; [reflexivity|].
  intros ->. discriminate.
Qed.

Lemma truthy_nonempty s : s ≠ "" → truthy (Some s) = true.
Proof.
  intros H. simpl. destruct (String.eqb_spec s ""); [contradiction|reflexivity].
Qed.

Lemma gtb_lt x y : gtb x y = true ↔ (y < x)%Q.
Proof.
  unfold gtb. destruct (Qlt_le_dec y x) as [H|H]; split; intros H'; try done.
  exfalso. eapply Qlt_not_le; eassumption.
Qed.

Lemma ceilDiv_5 n : 0 ≤ n → ceilDiv n 5 = (n + 4) / 5.
Proof.
  intros Hn. unfold ceilDiv, Qceiling, Qfloor, Qdiv, Qmult, Qopp, Qinv, inject_Z.
  simpl. rewrite Z.mul_1_r.
  replace (Z.pos (1 * 5)) with 5 by reflexivity.
  assert (H1 : n + 4 = 5 * ((n + 4) / 5) + (n + 4) mod 5) by (apply Z_div_mod_eq_full).
  assert (H2 : 0 ≤ (n + 4) mod 5 < 5) by (apply Z.mod_pos_bound; lia).
  assert (H3 : - n = 5 * ((- n) / 5) + (- n) mod 5) by (apply Z_div_mod_eq_full).
  assert (H4 : 0 ≤ (- n) mod 5 < 5) by (apply Z.mod_pos_bound; lia).
  lia.
Qed.

End JsFacts.

(** ** Fetcher and cache *)

Section FetcherFacts.
Context {text : JsText} (out : Outside).

Ltac js_unfold :=
  unfold fetchLobbyPlayers, getLobbySnapshot, axiosGet, request, cacheSet, dateNow,
    tryCatch, bind, ret, throw, gets, modify in *.

(** The placeholder branch touches neither the network nor the clock. *)
Lemma fetch_unsupported l w :
  JsVal.truthy (url l) = false →
  ∃ s, fetchLobbyPlayers out l w
         = (Returned (Some s), setLobbyCache (<[key l := s]> (lobbyCache w)) w)
       ∧ playerCount s = 0 ∧ players s = [] ∧ noApi s = true
       ∧ lastFetched s = clock w ∧ serverId s = key l.
Proof.
  intros Hu. js_unfold. rewrite Hu. simpl.
  eexists. split; [reflexivity|]. simpl. auto.
Qed.

(** The world once the request has come back. *)
Lemma fetch_supported_run l w u :
  url l = Some u → u ≠ "" →
  let w1 := setCalls (S (calls w))
              (setClock (clock w + Z.of_N (delay out (calls w)))
                 (setNetLog (netLog w ++ [u])%list w)) in
  fetchLobbyPlayers out l w =
    match httpGet out (calls w) u with
    | HttpOk (Some d) =>
        if success d then
          match mapM (fmap (attachUsd (solPriceUsd w))) (default [] (bodyPlayers d)) with
          | Some mapped =>
              let s := {| serverId := default (key l)
                                        (JsVal.orElse (bodyServerId d) (Some (key l)));
                          playerCount := default (Z.of_nat (length (default [] (bodyPlayers d))))
                                           (bodyPlayerCount d);
                          players := mapped;
                          timestamp := match bodyTimestamp d with
                                       | Some t => if t =? 0 then clock w1 else t
                                       | None => clock w1
                                       end;
                          lastFetched := clock w1;
                          noApi := false |} in
              (Returned (Some s), setLobbyCache (<[key l := s]> (lobbyCache w)) w1)
          | None => (Returned None, w1)
          end
        else (Returned None, w1)
    | _ => (Returned None, w1)
    end.
Proof.
  intros Hu Hne w1. unfold w1. js_unfold.
  rewrite Hu. rewrite (JsFacts.truthy_nonempty u Hne). simpl.
  destruct (httpGet out (calls w) u) as [e|[d|]]; simpl; [reflexivity| |reflexivity].
  destruct (success d); simpl; [|reflexivity].
  destruct (mapM (fmap (attachUsd (solPriceUsd w))) (default [] (bodyPlayers d)));
    simpl; [|reflexivity].
  destruct (bodyTimestamp d) as [t|]; [destruct (t =? 0)|]; reflexivity.
Qed.

(** A supported lobby costs exactly one request, whatever the reply. *)
Lemma fetch_supported_log l w u :
  url l = Some u → u ≠ "" →
  ∀ r w', fetchLobbyPlayers out l w = (r, w') →
    netLog w' = (netLog w ++ [u])%list ∧ calls w' = S (calls w)
    ∧ clock w' = clock w + Z.of_N (delay out (calls w))
    ∧ guildConfigs w' = guildConfigs w ∧ sendLog w' = sendLog w.
Proof.
  intros Hu Hne r w' H. rewrite (fetch_supported_run l w u Hu Hne) in H. cbv zeta in H.
  destruct (httpGet out (calls w) u) as [e|[d|]];
    [ | destruct (success d);
        [ destruct (mapM _ _) | ] | ];
    inversion H; subst; simpl; auto.
Qed.

(** What a successful fetch stores is what it returns, stamped with the
    time of arrival. *)
Lemma fetch_supported_stores l w u s w' :
  url l = Some u → u ≠ "" →
  fetchLobbyPlayers out l w = (Returned (Some s), w') →
  lobbyCache w' = <[key l := s]> (lobbyCache w)
  ∧ lastFetched s = clock w' ∧ noApi s = false.
Proof.
  intros Hu Hne H. rewrite (fetch_supported_run l w u Hu Hne) in H. cbv zeta in H.
  destruct (httpGet out (calls w) u) as [e|[d|]];
    [ | destruct (success d);
        [ destruct (mapM _ _) | ] | ];
    inversion H; subst; simpl; auto.
Qed.

Lemma fetch_total l w : ∃ r w', fetchLobbyPlayers out l w = (Returned r, w').
Proof.
  destruct (JsVal.truthy (url l)) eqn:U.
  - destruct (JsFacts.truthy_Some _ U) as (u & Hu & Hne).
    rewrite (fetch_supported_run l w u Hu Hne). cbv zeta.
    destruct (httpGet out (calls w) u) as [e|[d|]]; eauto.
    destruct (success d); eauto. destruct (mapM _ _); eauto.
  - js_unfold. rewrite U. simpl. eauto.
Qed.

(** C4. When the request of a supported lobby fails, or its reply has
    no body or no true success flag, [fetchLobbyPlayers] returns null and
    the cache is the one it found: the entry of the lobby is neither
    rewritten nor cleared. Whatever the reply, the operation returns; it
    never throws. *)
Theorem fetch_failure_keeps_cache (l : LobbyDef) (w : World) (u : string) :
  url l = Some u → u ≠ "" →
  (∃ r w', fetchLobbyPlayers out l w = (Returned r, w'))
  ∧ (match httpGet out (calls w) u with
     | HttpFail _ => True
     | HttpOk None => True
     | HttpOk (Some d) => success d = false
     end →
     ∃ w', fetchLobbyPlayers out l w = (Returned None, w')
           ∧ lobbyCache w' = lobbyCache w).
Proof.
  intros Hu Hne. split; [apply fetch_total|].
  intros Hbad. js_unfold. rewrite Hu. rewrite (JsFacts.truthy_nonempty u Hne).
  simpl.
  destruct (httpGet out (calls w) u) as [e|[d|]]; simpl.
  - eexists. split; reflexivity.
  - rewrite Hbad. simpl. eexists. split; reflexivity.
  - eexists. split; reflexivity.
Qed.

End FetcherFacts.

(** ** Frame rules of the handler monad *)

Section Frames.
Context (R : World → World → Prop) `{!Reflexive R} `{!Transitive R}.

Lemma preserves_ret {A} (a : A) : preserves R (ret a).
Proof. intros w r w' H. inversion H. reflexivity. Qed.

Lemma preserves_throw {A} e : preserves R (@throw A e).
Proof. intros w r w' H. inversion H. reflexivity. Qed.

Lemma preserves_gets {A} (f : World → A) : preserves R (gets f).
Proof. intros w r w' H. inversion H. reflexivity. Qed.

Lemma preserves_modify f : (∀ w, R w (f w)) → preserves R (modify f).
Proof. intros Hf w r w' H. inversion H. apply Hf. Qed.

Lemma preserves_bind {A B} (m : Js A) (k : A → Js B) :
  preserves R m → (∀ a, preserves R (k a)) → preserves R (bind m k).
Proof.
  intros Hm Hk w r w' H. unfold bind in H.
  destruct (m w) as [[a|e] w1] eqn:E.
  - etrans; [eapply Hm; eassumption | eapply Hk; eassumption].
  - inversion H; subst. eapply Hm; eassumption.
Qed.

Lemma preserves_tryCatch {A} (m : Js A) (h : string → Js A) :
  preserves R m → (∀ e, preserves R (h e)) → preserves R (tryCatch m h).
Proof.
  intros Hm Hh w r w' H. unfold tryCatch in H.
  destruct (m w) as [[a|e] w1] eqn:E.
  - inversion H; subst. eapply Hm; eassumption.
  - etrans; [eapply Hm; eassumption | eapply Hh; eassumption].
Qed.

Lemma preserves_forEach {A} (l : list A) (body : A → Js unit) :
  (∀ x, x ∈ l → preserves R (body x)) → preserves R (forEach l body).
Proof.
  induction l as [|x l IH]; intros Hb; simpl.
  - apply preserves_ret.
  - apply preserves_bind.
    + apply Hb. left.
    + intros _. apply IH. intros y Hy. apply Hb. right. exact Hy.
Qed.

End Frames.

#[local] Instance agreeOn_refl {B} (f : World → B) : Reflexive (agreeOn f).
Proof. intros w. reflexivity. Qed.

#[local] Instance agreeOn_trans {B} (f : World → B) : Transitive (agreeOn f).
Proof. intros w1 w2 w3 H1 H2. unfold agreeOn in *. congruence. Qed.

#[local] Instance keepsInv_refl I : Reflexive (keepsInv I).
Proof. intros w H. exact H. Qed.

#[local] Instance keepsInv_trans I : Transitive (keepsInv I).
Proof. intros w1 w2 w3 H1 H2 H. apply H2, H1, H. Qed.

Lemma agreeOn_keepsInv {A B} (f : World → B) (P : B → Prop) (m : Js A) :
  preserves (agreeOn f) m → preserves (keepsInv (λ w, P (f w))) m.
Proof.
  intros Hm w r w' H HP. unfold keepsInv. rewrite (Hm w r w' H). exact HP.
Qed.

(** Decomposes a handler along its syntax. *)
Ltac frame :=
  repeat match goal with
    | |- preserves _ (ret _) => apply preserves_ret; tc_solve
    | |- preserves _ (throw _) => apply preserves_throw; tc_solve
    | |- preserves _ (gets _) => apply preserves_gets; tc_solve
    | |- preserves _ (dateNow) => apply preserves_gets; tc_solve
    | |- preserves _ (getCfg _) => apply preserves_gets; tc_solve
    | |- preserves _ (bind _ _) =>
        apply preserves_bind; [tc_solve | | intros ?]
    | |- preserves _ (tryCatch _ _) =>
        apply preserves_tryCatch; [tc_solve | | intros ?]
    | |- preserves _ (match ?x with _ => _ end) => destruct x
    end.

Section SendFrames.
Context (out : Outside).

Lemma request_frame {B} (f : World → B) :
  (∀ t w, f (setClock t w) = f w) → (∀ n w, f (setCalls n w) = f w) →
  preserves (agreeOn f) (request out).
Proof.
  intros H1 H2 w r w' H. unfold request in H. inversion H; subst.
  unfold agreeOn. rewrite H2, H1. reflexivity.
Qed.

Lemma channelSend_frame {B} (f : World → B) g c t e :
  (∀ t w, f (setClock t w) = f w) → (∀ n w, f (setCalls n w) = f w) →
  (∀ l w, f (setSendLog l w) = f w) →
  preserves (agreeOn f) (channelSend out g c t e).
Proof.
  intros H1 H2 H3. unfold channelSend. frame.
  - apply request_frame; assumption.
  - apply preserves_modify. intros w. apply H3.
Qed.

Lemma modifyCfg_frame {B} (f : World → B) g h :
  (∀ l w, f (setGuildConfigs l w) = f w) →
  preserves (agreeOn f) (modifyCfg g h).
Proof. intros H. apply preserves_modify. intros w. apply H. Qed.

End SendFrames.

(** ** What the alert passes leave alone *)

Section AlertFrames.
Context {text : JsText} (out : Outside).
Context {B : Type} (f : World → B).
Hypothesis f_clock : ∀ t w, f (setClock t w) = f w.
Hypothesis f_calls : ∀ n w, f (setCalls n w) = f w.
Hypothesis f_sendLog : ∀ l w, f (setSendLog l w) = f w.
Hypothesis f_guilds : ∀ g w, f (setGuildConfigs g w) = f w.

Lemma joinAlertsForLobby_frame g c p l :
  preserves (agreeOn f) (joinAlertsForLobby out g c p l).
Proof.
  unfold joinAlertsForLobby. frame;
    try (apply modifyCfg_frame; assumption);
    try (apply channelSend_frame; assumption).
Qed.

Lemma forAlertChannel_frame g body :
  (∀ cfg c, preserves (agreeOn f) (body cfg c)) →
  preserves (agreeOn f) (forAlertChannel out g body).
Proof. intros Hb. unfold forAlertChannel. frame. apply Hb. Qed.

Lemma processJoinAlerts_frame : preserves (agreeOn f) (processJoinAlerts out).
Proof.
  unfold processJoinAlerts. frame.
  apply preserves_forEach; [tc_solve..|]. intros g _.
  apply forAlertChannel_frame. intros cfg c.
  apply preserves_forEach; [tc_solve..|]. intros l _.
  apply joinAlertsForLobby_frame.
Qed.

Lemma evalWatch_frame now g c p x :
  preserves (agreeOn f) (evalWatch out now g c p x).
Proof.
  unfold evalWatch. frame; try (apply channelSend_frame; assumption).
Qed.

Lemma processWatches_frame : preserves (agreeOn f) (processWatches out).
Proof.
  unfold processWatches. frame.
  apply preserves_forEach; [tc_solve..|]. intros g _.
  apply forAlertChannel_frame. intros cfg c.
  apply preserves_forEach; [tc_solve..|]. intros [n x] _.
  unfold watchIteration. frame.
  - apply evalWatch_frame.
  - apply modifyCfg_frame; assumption.
Qed.

End AlertFrames.

(** ** Lobbies without endpoint *)

Lemma LOBBIES_key_inj l l' :
  l ∈ LOBBIES → l' ∈ LOBBIES → key l = key l' → l = l'.
Proof.
  unfold LOBBIES. rewrite !elem_of_cons, !elem_of_nil.
  intros H H' E.
  repeat (destruct H as [H|H]; [subst l|]); try contradiction;
    repeat (destruct H' as [H'|H']; [subst l'|]); try contradiction;
    first [reflexivity | discriminate E].
Qed.

Section Unsupported.
Context {text : JsText} (out : Outside).

Lemma fetch_cache l w r w' :
  fetchLobbyPlayers out l w = (r, w') →
  lobbyCache w' = lobbyCache w
  ∨ ∃ s, lobbyCache w' = <[key l := s]> (lobbyCache w)
         ∧ r = Returned (Some s)
         ∧ (JsVal.truthy (url l) = false → isPlaceholder s).
Proof.
  intros H. destruct (JsVal.truthy (url l)) eqn:Hu.
  - destruct (JsFacts.truthy_Some _ Hu) as (u & Eu & Hne).
    destruct r as [[s|]|e].
    + right. exists s.
      destruct (fetch_supported_stores out l w u s w' Eu Hne H) as (Hc & _ & _).
      split; [exact Hc|]. split; [reflexivity|]. discriminate.
    + left. rewrite (fetch_supported_run out l w u Eu Hne) in H. cbv zeta in H.
      destruct (httpGet out (calls w) u) as [e|[d|]];
        [ | destruct (success d); [ destruct (mapM _ _) | ] | ];
        inversion H; subst; reflexivity.
    + destruct (fetch_total out l w) as (r0 & w0 & E). congruence.
  - destruct (fetch_unsupported out l w Hu) as (s & E & Hs).
    rewrite E in H. inversion H; subst. right. exists s.
    split; [reflexivity|]. split; [reflexivity|].
    intros _. unfold isPlaceholder. tauto.
Qed.

Lemma fetch_keeps_placeholders l :
  l ∈ LOBBIES →
  preserves (keepsInv (λ w, placeholdersOnly (lobbyCache w))) (fetchLobbyPlayers out l).
Proof.
  intros Hl w r w' H Inv.
  destruct (fetch_cache l w r w' H) as [E|(s & E & _ & Hs)]; rewrite E; [exact Inv|].
  intros l2 s2 Hl2 Hu2 Hlook.
  destruct (decide (key l = key l2)) as [Ek|Nk].
  - rewrite Ek, lookup_insert_eq in Hlook. inversion Hlook; subst s2.
    apply Hs. rewrite (LOBBIES_key_inj l l2 Hl Hl2 Ek). exact Hu2.
  - rewrite lookup_insert_ne in Hlook by exact Nk. eapply Inv; eassumption.
Qed.

Lemma getLobbySnapshot_keeps_placeholders l :
  l ∈ LOBBIES →
  preserves (keepsInv (λ w, placeholdersOnly (lobbyCache w))) (getLobbySnapshot out l).
Proof.
  intros Hl. unfold getLobbySnapshot. frame;
    try apply fetch_keeps_placeholders; assumption.
Qed.

(** Under the invariant, the snapshot of a lobby without endpoint is a
    placeholder and asking for it costs no request. *)
Lemma snapshot_unsupported l w :
  l ∈ LOBBIES → JsVal.truthy (url l) = false → placeholdersOnly (lobbyCache w) →
  ∃ s w', getLobbySnapshot out l w = (Returned (Some s), w')
          ∧ isPlaceholder s ∧ netLog w' = netLog w ∧ calls w' = calls w.
Proof.
  intros Hl Hu Inv.
  unfold getLobbySnapshot, bind, gets, dateNow. simpl.
  destruct (lobbyCache w !! key l) as [existing|] eqn:Hc.
  - destruct (clock w - lastFetched existing <? 5000).
    + exists existing, w. split; [reflexivity|].
      split; [eapply Inv; eassumption|]. split; reflexivity.
    + destruct (fetch_unsupported out l w Hu) as (s & E & Hs).
      rewrite E. eexists _, _. split; [reflexivity|].
      unfold isPlaceholder. simpl. tauto.
  - destruct (fetch_unsupported out l w Hu) as (s & E & Hs).
    rewrite E. eexists _, _. split; [reflexivity|].
    unfold isPlaceholder. simpl. tauto.
Qed.

End Unsupported.

Section HistoryFacts.
Context {text : JsText} (out : Outside).

Lemma findLobby_elem r n l : findLobby r n = Some l → l ∈ LOBBIES.
Proof.
  unfold findLobby. intros H. apply find_some in H. apply list_elem_of_In, H.
Qed.

Lemma poll_keeps_placeholders :
  preserves (keepsInv (λ w, placeholdersOnly (lobbyCache w)))
    (pollLobbiesAndProcessAlerts out).
Proof.
  unfold pollLobbiesAndProcessAlerts. frame.
  - apply preserves_forEach; [tc_solve..|]. intros l Hl. frame.
    apply fetch_keeps_placeholders, Hl.
  - apply (agreeOn_keepsInv lobbyCache placeholdersOnly).
    apply processJoinAlerts_frame; reflexivity.
  - apply (agreeOn_keepsInv lobbyCache placeholdersOnly).
    apply processWatches_frame; reflexivity.
Qed.

Lemma history_keeps_placeholders steps :
  preserves (keepsInv (λ w, placeholdersOnly (lobbyCache w))) (history out steps).
Proof.
  unfold history. apply preserves_forEach; [tc_solve..|]. intros s _.
  frame. destruct s as [|r n|guilds|price at_|d]; simpl.
  - apply poll_keeps_placeholders.
  - destruct (findLobby r n) as [l|] eqn:E; frame.
    apply getLobbySnapshot_keeps_placeholders. eapply findLobby_elem, E.
  - apply preserves_modify. intros w H. exact H.
  - apply preserves_modify. intros w H. exact H.
  - apply preserves_modify. intros w H. exact H.
Qed.

(** C5. After any history of the process (poll cycles, snapshot requests,
    tenant edits, price refreshes and waits, in any number and order, from
    the empty cache),
    [getLobbySnapshot] of a registry lobby without endpoint returns a
    snapshot with player count zero, no player and the [noApi] marker,
    and it sends nothing to the network. *)
Theorem unsupported_lobby_snapshot (w0 : World) (steps : list Step) (l : LobbyDef) :
  lobbyCache w0 = ∅ → l ∈ LOBBIES → JsVal.truthy (url l) = false →
  let w := finalWorld (history out steps) w0 in
  ∃ s w', getLobbySnapshot out l w = (Returned (Some s), w')
          ∧ playerCount s = 0 ∧ players s = [] ∧ noApi s = true
          ∧ netLog w' = netLog w ∧ calls w' = calls w.
Proof.
  intros H0 Hl Hu w.
  assert (Inv : placeholdersOnly (lobbyCache w)).
  { unfold w, finalWorld.
    destruct (history out steps w0) as [r w1] eqn:E. simpl.
    apply (history_keeps_placeholders steps w0 r w1 E).
    rewrite H0. intros l2 s2 _ _ Hlook. rewrite lookup_empty in Hlook. discriminate. }
  destruct (snapshot_unsupported out l w Hl Hu Inv) as (s & w' & E & (H1 & H2 & H3) & H4 & H5).
  exists s, w'. tauto.
Qed.

End HistoryFacts.

(** The upstream times out while US $1 is cached: null comes back and
    the entry stays. *)
Lemma fetch_failure_keeps_cache_witness :
  ∃ w', fetchLobbyPlayers (text := SampleRuntime.text) SampleRuntime.offline Sample.us1 Sample.warm = (Returned None, w')
        ∧ lobbyCache w' = lobbyCache Sample.warm.
Proof.
  apply (fetch_failure_keeps_cache (text := SampleRuntime.text) SampleRuntime.offline Sample.us1 Sample.warm
           "https://damnbruh-game-server-instance-1-us.onrender.com/players").
  - reflexivity.
  - discriminate.
  - exact I.
Defined.

(** EU $5 after a poll, a wait, a request for it and a longer wait. *)
Lemma unsupported_lobby_snapshot_witness :
  let w := finalWorld (history (text := SampleRuntime.text) SampleRuntime.offline
                         [Poll; Wait 1000; Ask "eu" 5; Wait 7000]) (startWorld 0) in
  ∃ s w', getLobbySnapshot (text := SampleRuntime.text) SampleRuntime.offline Sample.eu5 w = (Returned (Some s), w')
          ∧ playerCount s = 0 ∧ players s = [] ∧ noApi s = true
          ∧ netLog w' = netLog w ∧ calls w' = calls w.
Proof.
  apply (unsupported_lobby_snapshot (text := SampleRuntime.text)
           SampleRuntime.offline (startWorld 0)
           [Poll; Wait 1000; Ask "eu" 5; Wait 7000] Sample.eu5).
  - reflexivity.
  - unfold LOBBIES, Sample.eu5. repeat constructor.
  - reflexivity.
Defined.

(** ** The freshness window *)

Section Freshness.
Context {text : JsText} (out : Outside).

Lemma getLobbySnapshot_unfold l w :
  getLobbySnapshot out l w =
    if cacheFresh l w then (Returned (lobbyCache w !! key l), w)
    else fetchLobbyPlayers out l w.
Proof.
  unfold getLobbySnapshot, cacheFresh, bind, gets, dateNow, ret. simpl.
  destruct (lobbyCache w !! key l) as [existing|]; [|reflexivity].
  destruct (clock w - lastFetched existing <? 5000); reflexivity.
Qed.

Lemma cacheFresh_elapse l w s (d : N) :
  lobbyCache w !! key l = Some s →
  clock w + Z.of_N d - lastFetched s < 5000 →
  cacheFresh l (elapse d w) = true.
Proof.
  intros Hc Ht. unfold cacheFresh, elapse. simpl. rewrite Hc.
  apply Z.ltb_lt. exact Ht.
Qed.

(** The first of two calls leaves its result in the cache. *)
Lemma getLobbySnapshot_cached l w s1 w1 :
  getLobbySnapshot out l w = (Returned (Some s1), w1) →
  lobbyCache w1 !! key l = Some s1
  ∧ length (netLog w1)
    = (length (netLog w)
       + (if JsVal.truthy (url l) && negb (cacheFresh l w) then 1 else 0))%nat.
Proof.
  rewrite getLobbySnapshot_unfold. destruct (cacheFresh l w) eqn:Hf; intros H.
  - inversion H; subst. rewrite andb_false_r. split; [congruence|lia].
  - rewrite andb_true_r. destruct (JsVal.truthy (url l)) eqn:Hu.
    + destruct (JsFacts.truthy_Some _ Hu) as (u & Eu & Hne).
      destruct (fetch_supported_stores out l w u s1 w1 Eu Hne H) as (Hc & _ & _).
      destruct (fetch_supported_log out l w u Eu Hne _ _ H) as (Hn & _).
      rewrite Hc, lookup_insert_eq, Hn, length_app. simpl. split; [reflexivity|lia].
    + destruct (fetch_unsupported out l w Hu) as (s & E & _).
      rewrite E in H. inversion H; subst. simpl.
      rewrite lookup_insert_eq. split; [reflexivity|lia].
Qed.

(** C3, as the code has it. A cached snapshot whose fetch time is less
    than 5000 ms old is returned as it is, the world is untouched and so
    nothing is sent to the network. Hence, when a first call returned a
    snapshot and a second call comes less than 5000 ms after the fetch
    time of that snapshot, the second call returns the same snapshot
    without a request. The two calls together make one request exactly
    when the lobby has an endpoint and the first call found no fresh
    entry; otherwise they make none. *)
Theorem snapshot_within_freshness_window (l : LobbyDef) (w : World) :
  (∀ s, lobbyCache w !! key l = Some s → clock w - lastFetched s < 5000 →
        getLobbySnapshot out l w = (Returned (Some s), w))
  ∧ (∀ s1 w1 (d : N),
       getLobbySnapshot out l w = (Returned (Some s1), w1) →
       clock w1 + Z.of_N d - lastFetched s1 < 5000 →
       getLobbySnapshot out l (elapse d w1) = (Returned (Some s1), elapse d w1)
       ∧ networkCalls (twoSnapshots out l d) w
         = (if JsVal.truthy (url l) && negb (cacheFresh l w) then 1 else 0)%nat).
Proof.
  split.
  - intros s Hc Ht. rewrite getLobbySnapshot_unfold. unfold cacheFresh.
    rewrite Hc. apply Z.ltb_lt in Ht. rewrite Ht. reflexivity.
  - intros s1 w1 d H1 Ht.
    destruct (getLobbySnapshot_cached l w s1 w1 H1) as (Hc & Hn).
    assert (H2 : getLobbySnapshot out l (elapse d w1) = (Returned (Some s1), elapse d w1)).
    { rewrite getLobbySnapshot_unfold.
      rewrite (cacheFresh_elapse l w1 s1 d Hc Ht). simpl. rewrite Hc. reflexivity. }
    split; [exact H2|].
    unfold networkCalls, finalWorld, twoSnapshots, bind, modify, ret.
    rewrite H1. simpl. rewrite H2. simpl. rewrite Hn. lia.
Qed.

End Freshness.

(** US $1 is cached and one second old; the second call comes a second
    later. *)
Lemma snapshot_within_freshness_window_witness :
  let s := Sample.snapshotOf Sample.us1 [Sample.player "a" 10; Sample.player "b" 20] 0 in
  getLobbySnapshot (text := SampleRuntime.text) SampleRuntime.offline Sample.us1 Sample.warm = (Returned (Some s), Sample.warm)
  ∧ getLobbySnapshot (text := SampleRuntime.text) SampleRuntime.offline Sample.us1 (elapse 1000 Sample.warm)
    = (Returned (Some s), elapse 1000 Sample.warm)
  ∧ networkCalls (twoSnapshots (text := SampleRuntime.text) SampleRuntime.offline Sample.us1 1000) Sample.warm = 0%nat.
Proof.
  intros s.
  destruct (snapshot_within_freshness_window (text := SampleRuntime.text) SampleRuntime.offline Sample.us1 Sample.warm)
    as [hit again].
  assert (first : getLobbySnapshot (text := SampleRuntime.text) SampleRuntime.offline Sample.us1 Sample.warm
                  = (Returned (Some s), Sample.warm)).
  { apply hit; [reflexivity | vm_compute; reflexivity]. }
  split; [exact first|].
  apply (again s Sample.warm 1000%N first). vm_compute. reflexivity.
Defined.

(** C3, as it is stated, fails on three runs of two calls one second
    apart: the lobby without endpoint (no request), a lobby whose entry
    is fresh before the first call (no request), and a lobby whose
    upstream times out, so that nothing is stored (two requests). *)
Lemma two_snapshots_not_one_request :
  networkCalls (twoSnapshots (text := SampleRuntime.text) SampleRuntime.offline Sample.eu5 1000) (startWorld 0) ≠ 1%nat
  ∧ networkCalls (twoSnapshots (text := SampleRuntime.text) SampleRuntime.offline Sample.us1 1000) Sample.warm ≠ 1%nat
  ∧ networkCalls (twoSnapshots (text := SampleRuntime.text) SampleRuntime.offline Sample.us1 1000) (startWorld 0) ≠ 1%nat.
Proof.
  assert (E1 : networkCalls (twoSnapshots (text := SampleRuntime.text) SampleRuntime.offline Sample.eu5 1000)
                 (startWorld 0) = 0%nat) by (vm_compute; reflexivity).
  assert (E2 : networkCalls (twoSnapshots (text := SampleRuntime.text) SampleRuntime.offline Sample.us1 1000)
                 Sample.warm = 0%nat) by (vm_compute; reflexivity).
  assert (E3 : networkCalls (twoSnapshots (text := SampleRuntime.text) SampleRuntime.offline Sample.us1 1000)
                 (startWorld 0) = 2%nat) by (vm_compute; reflexivity).
  rewrite E1, E2, E3. repeat split; discriminate.
Qed.

(** ** Leaderboard *)

Section LeaderboardFacts.
Context {text : JsText}.

Lemma lbTotalPages_eq ps :
  lbTotalPages ps = Z.max 1 ((Z.of_nat (length ps) + 4) / 5).
Proof.
  unfold lbTotalPages, LB_PAGE_SIZE. rewrite JsFacts.ceilDiv_5 by lia. reflexivity.
Qed.

(** The page count is the least number of pages of five that hold all
    players, and one for an empty list. *)
Lemma lbTotalPages_ceiling ps :
  let n := Z.of_nat (length ps) in
  1 ≤ lbTotalPages ps
  ∧ 5 * (lbTotalPages ps - 1) < Z.max n 1 ≤ 5 * lbTotalPages ps.
Proof.
  intros n. rewrite lbTotalPages_eq. fold n.
  assert (Hn : 0 ≤ n) by (unfold n; lia).
  assert (H1 : n + 4 = 5 * ((n + 4) / 5) + (n + 4) mod 5) by (apply Z_div_mod_eq_full).
  assert (H2 : 0 ≤ (n + 4) mod 5 < 5) by (apply Z.mod_pos_bound; lia).
  lia.
Qed.

Lemma lbCurrentPage_clamped ps page :
  0 ≤ lbCurrentPage ps page ≤ lbTotalPages ps - 1
  ∧ (0 ≤ page ≤ lbTotalPages ps - 1 → lbCurrentPage ps page = page)
  ∧ (page < 0 → lbCurrentPage ps page = 0)
  ∧ (lbTotalPages ps - 1 < page → lbCurrentPage ps page = lbTotalPages ps - 1).
Proof.
  pose proof (lbTotalPages_ceiling ps) as [H1 _].
  unfold lbCurrentPage.
  destruct (Z.ltb_spec page 0);
    destruct (Z.ltb_spec (lbTotalPages ps - 1) 0);
    destruct (Z.ltb_spec (lbTotalPages ps - 1) page); lia.
Qed.

Lemma buildLbEmbed_fields lobbyDef snapshot ps page w :
  ∃ view, buildLbEmbed lobbyDef snapshot ps page w = (Returned view, w)
          ∧ fields (lbEmbed view)
            = imap (lbField (lbCurrentPage ps page * LB_PAGE_SIZE)) (lbPagePlayers ps page).
Proof.
  unfold buildLbEmbed, solPriceStatusLine, bind, gets, ret. simpl.
  destruct (solPriceUsd w) as [p|]; [destruct (solPriceUpdatedAt w) as [t|];
    [destruct (negb (Qeq_bool p 0))|]|];
    (eexists; split; [reflexivity|]);
    destruct (lbPagePlayers ps page); reflexivity.
Qed.

Lemma lbPagePlayers_lookup ps page i p :
  lbPagePlayers ps page !! i = Some p →
  (i < 5)%nat ∧ ps !! (Z.to_nat (lbCurrentPage ps page * 5) + i)%nat = Some p.
Proof.
  unfold lbPagePlayers, LB_PAGE_SIZE. intros H.
  change (Z.to_nat 5) with 5%nat in H.
  assert (Hi : (i < 5)%nat).
  { apply lookup_lt_Some in H. rewrite length_take in H. lia. }
  split; [exact Hi|].
  rewrite lookup_take_lt in H by exact Hi. rewrite lookup_drop in H. exact H.
Qed.

(** C6. [buildLbEmbed] shows page [currentPage], which is the requested
    page clamped into [0, totalPages - 1], where [totalPages] is the
    larger of 1 and the ceiling of the number of players over 5. It
    returns without touching the world, and the i-th field of its embed
    is built from the player at position [currentPage * 5 + i] of the
    list and is headed by the rank [currentPage * 5 + i + 1]. With 12
    players and requested page 3 it shows page 2 of 3, with exactly two
    fields, for the 11th and 12th player, headed #11 and #12. *)
Theorem leaderboard_page_and_ranks (lobbyDef : LobbyDef) (snapshot : Snapshot)
    (ps : list Player) (page : Z) (w : World) :
  let n := Z.of_nat (length ps) in
  let totalPages := lbTotalPages ps in
  let currentPage := lbCurrentPage ps page in
  totalPages = Z.max 1 ((n + 4) / 5)
  ∧ 5 * (totalPages - 1) < Z.max n 1 ≤ 5 * totalPages
  ∧ 0 ≤ currentPage ≤ totalPages - 1
  ∧ (0 ≤ page ≤ totalPages - 1 → currentPage = page)
  ∧ (page < 0 → currentPage = 0)
  ∧ (totalPages - 1 < page → currentPage = totalPages - 1)
  ∧ (∃ view, buildLbEmbed lobbyDef snapshot ps page w = (Returned view, w)
       ∧ length (fields (lbEmbed view))
         = Z.to_nat (Z.min 5 (n - currentPage * 5))
       ∧ ∀ i f, fields (lbEmbed view) !! i = Some f →
           ∃ p, ps !! (Z.to_nat (currentPage * 5) + i)%nat = Some p
                ∧ f = lbField (currentPage * 5) i p
                ∧ fieldName f
                  = "#" +:+ pretty (currentPage * 5 + Z.of_nat i + 1) +:+ " " +:+ displayName p)
  ∧ (length ps = 12%nat → page = 3 →
       totalPages = 3 ∧ currentPage = 2
       ∧ ∃ view p11 p12,
           buildLbEmbed lobbyDef snapshot ps page w = (Returned view, w)
           ∧ ps !! 10%nat = Some p11 ∧ ps !! 11%nat = Some p12
           ∧ map fieldName (fields (lbEmbed view))
             = ["#11 " +:+ displayName p11; "#12 " +:+ displayName p12]).
Proof.
  intros n totalPages currentPage.
  pose proof (lbTotalPages_eq ps) as Ht.
  pose proof (lbTotalPages_ceiling ps) as [Hge Hceil].
  pose proof (lbCurrentPage_clamped ps page) as (Hc & Hin & Hlo & Hhi).
  fold n totalPages currentPage in Ht, Hge, Hceil, Hc, Hin, Hlo, Hhi.
  destruct (buildLbEmbed_fields lobbyDef snapshot ps page w) as (view & Ev & Ef).
  fold currentPage in Ef. unfold LB_PAGE_SIZE in Ef.
  repeat (split; [assumption || tauto|]).
  split.
  - exists view. split; [exact Ev|]. rewrite Ef. split.
    + rewrite length_imap. unfold lbPagePlayers, LB_PAGE_SIZE.
      rewrite length_take, length_drop. fold currentPage. unfold n. lia.
    + intros i f Hf. rewrite list_lookup_imap in Hf.
      destruct (lbPagePlayers ps page !! i) as [p|] eqn:Hp; [|discriminate].
      simpl in Hf. inversion Hf; subst f.
      apply lbPagePlayers_lookup in Hp as [_ Hp]. fold currentPage in Hp.
      exists p. split; [exact Hp|]. split; reflexivity.
  - intros Hlen Hpage.
    assert (Hn : n = 12) by (unfold n; rewrite Hlen; reflexivity).
    assert (Htp : totalPages = 3) by (rewrite Ht, Hn; reflexivity).
    assert (Hcp : currentPage = 2) by (rewrite Hhi; lia).
    split; [exact Htp|]. split; [exact Hcp|].
    do 12 (destruct ps as [|? ps]; [discriminate Hlen|]).
    destruct ps; [|discriminate Hlen].
    eexists view, _, _. split; [exact Ev|].
    split; [reflexivity|]. split; [reflexivity|].
    rewrite Ef. unfold lbPagePlayers, LB_PAGE_SIZE. fold currentPage.
    rewrite Hcp. reflexivity.
Qed.

(** C9. [buildLbEmbed] returns and leaves the world as it found it; its
    result is the same in any two worlds that agree on the cached price
    and its time, whatever else differs (clock, cache, tenants, logs).
    So rendering twice in a row with the same arguments gives the same
    view twice. *)
Theorem leaderboard_render_pure (lobbyDef : LobbyDef) (snapshot : Snapshot)
    (ps : list Player) (page : Z) (w1 w2 : World) :
  solPriceUsd w1 = solPriceUsd w2 →
  solPriceUpdatedAt w1 = solPriceUpdatedAt w2 →
  ∃ view,
    buildLbEmbed lobbyDef snapshot ps page w1 = (Returned view, w1)
    ∧ buildLbEmbed lobbyDef snapshot ps page w2 = (Returned view, w2)
    ∧ (let! first := buildLbEmbed lobbyDef snapshot ps page in
       let! second := buildLbEmbed lobbyDef snapshot ps page in
       ret (first, second)) w1 = (Returned (view, view), w1).
Proof.
  intros Hp Ht.
  assert (E : ∀ w, solPriceUsd w = solPriceUsd w1 →
                   solPriceUpdatedAt w = solPriceUpdatedAt w1 →
                   buildLbEmbed lobbyDef snapshot ps page w
                   = (Returned (match buildLbEmbed lobbyDef snapshot ps page w1 with
                                | (Returned v, _) => v
                                | (Thrown _, _) => {| lbEmbed := {| title := ""; description := "";
                                     color := 0; fields := []; footer := None |};
                                     lbComponents := [] |}
                                end), w)).
  { intros w H1 H2.
    unfold buildLbEmbed, solPriceStatusLine, bind, gets, ret. simpl.
    rewrite H1, H2.
    destruct (solPriceUsd w1) as [p|]; [destruct (solPriceUpdatedAt w1) as [t|];
      [destruct (negb (Qeq_bool p 0))|]|]; reflexivity. }
  eexists. split; [apply E; reflexivity|].
  split; [apply E; symmetry; assumption|].
  unfold bind, ret. rewrite (E w1 eq_refl eq_refl). rewrite (E w1 eq_refl eq_refl).
  reflexivity.
Qed.

End LeaderboardFacts.

(** The filter and the sort of the command handler, on fourteen players
    of which two are too small. *)
Example leaderboardPlayers_crowd :
  leaderboardPlayers (Sample.snapshotOf Sample.us1 SampleLobby.crowd 0) = SampleLobby.twelve.
Proof. vm_compute. reflexivity. Qed.

Lemma leaderboard_page_and_ranks_witness :
  lbTotalPages SampleLobby.twelve = 3 ∧ lbCurrentPage SampleLobby.twelve 3 = 2
  ∧ ∃ view p11 p12,
      buildLbEmbed (text := SampleRuntime.text) Sample.us1
        (Sample.snapshotOf Sample.us1 SampleLobby.crowd 0) SampleLobby.twelve 3 (startWorld 0)
      = (Returned view, startWorld 0)
      ∧ SampleLobby.twelve !! 10%nat = Some p11 ∧ SampleLobby.twelve !! 11%nat = Some p12
      ∧ map fieldName (fields (lbEmbed view))
        = ["#11 " +:+ displayName p11; "#12 " +:+ displayName p12].
Proof.
  destruct (leaderboard_page_and_ranks (text := SampleRuntime.text) Sample.us1
              (Sample.snapshotOf Sample.us1 SampleLobby.crowd 0) SampleLobby.twelve 3
              (startWorld 0)) as (_ & _ & _ & _ & _ & _ & _ & H).
  apply H; reflexivity.
Defined.

(** The text of that page. *)
Example leaderboard_page_three :
  ∃ view,
    buildLbEmbed (text := SampleRuntime.text) Sample.us1
      (Sample.snapshotOf Sample.us1 SampleLobby.crowd 0) SampleLobby.twelve 3 (startWorld 0)
    = (Returned view, startWorld 0)
    ∧ map fieldName (fields (lbEmbed view)) = ["#11 p11"; "#12 p12"]
    ∧ map customId (concat (lbComponents view)) = ["lb_prev|us|1|2"].
Proof. eexists. vm_compute. repeat split. Qed.

Lemma leaderboard_render_pure_witness :
  ∃ view,
    buildLbEmbed (text := SampleRuntime.text) Sample.us1
      (Sample.snapshotOf Sample.us1 SampleLobby.crowd 0) SampleLobby.twelve 1 (startWorld 0)
    = (Returned view, startWorld 0)
    ∧ buildLbEmbed (text := SampleRuntime.text) Sample.us1
        (Sample.snapshotOf Sample.us1 SampleLobby.crowd 0) SampleLobby.twelve 1 Sample.warm
      = (Returned view, Sample.warm)
    ∧ (let! first := buildLbEmbed (text := SampleRuntime.text) Sample.us1
                       (Sample.snapshotOf Sample.us1 SampleLobby.crowd 0) SampleLobby.twelve 1 in
       let! second := buildLbEmbed (text := SampleRuntime.text) Sample.us1
                        (Sample.snapshotOf Sample.us1 SampleLobby.crowd 0) SampleLobby.twelve 1 in
       ret (first, second)) (startWorld 0) = (Returned (view, view), startWorld 0).
Proof.
  apply (leaderboard_render_pure (text := SampleRuntime.text) Sample.us1
           (Sample.snapshotOf Sample.us1 SampleLobby.crowd 0) SampleLobby.twelve 1
           (startWorld 0) Sample.warm); reflexivity.
Defined.

(** ** The maps of tenants and of watches *)

Lemma setGuildConfigs_same w : setGuildConfigs (guildConfigs w) w = w.
Proof. destruct w; reflexivity. Qed.

Lemma assocGet_alter_eq {V} (f : V → V) k (l : list (string * V)) v :
  assocGet k l = Some v → assocGet k (assocAlter f k l) = Some (f v).
Proof.
  induction l as [|[k' v'] l IH]; simpl; [discriminate|].
  destruct (String.eqb k' k) eqn:E; simpl; rewrite E.
  - intros H. inversion H. reflexivity.
  - exact IH.
Qed.

Lemma assocGet_alter_ne {V} (f : V → V) k k' (l : list (string * V)) :
  k ≠ k' → assocGet k' (assocAlter f k l) = assocGet k' l.
Proof.
  intros Hne. induction l as [|[k0 v0] l IH]; simpl; [reflexivity|].
  destruct (String.eqb_spec k0 k) as [->|N]; simpl.
  - destruct (String.eqb_spec k k'); [contradiction|reflexivity].
  - rewrite IH. reflexivity.
Qed.

Lemma fst_assocAlter {V} (f : V → V) k (l : list (string * V)) :
  map fst (assocAlter f k l) = map fst l.
Proof.
  induction l as [|[k' v'] l IH]; simpl; [reflexivity|].
  destruct (String.eqb k' k); simpl; [reflexivity|]. rewrite IH. reflexivity.
Qed.

Lemma assocAlter_fix {V} (f : V → V) k (l : list (string * V)) v :
  assocGet k l = Some v → f v = v → assocAlter f k l = l.
Proof.
  induction l as [|[k' v'] l IH]; simpl; intros E Hf; [reflexivity|].
  destruct (String.eqb k' k).
  - injection E as ->. rewrite Hf. reflexivity.
  - rewrite (IH E Hf). reflexivity.
Qed.

Lemma watchGet_alter_eq (f : Watch → Watch) n (l : list (Z * Watch)) x :
  watchGet n l = Some x → watchGet n (watchAlter f n l) = Some (f x).
Proof.
  induction l as [|[n' x'] l IH]; simpl; [discriminate|].
  destruct (n' =? n) eqn:E; simpl; rewrite E.
  - intros H. inversion H. reflexivity.
  - exact IH.
Qed.

Lemma watchGet_alter_ne (f : Watch → Watch) n m (l : list (Z * Watch)) :
  m ≠ n → watchGet m (watchAlter f n l) = watchGet m l.
Proof.
  intros Hne. induction l as [|[n0 x0] l IH]; simpl; [reflexivity|].
  destruct (Z.eqb_spec n0 n) as [->|N]; simpl.
  - destruct (Z.eqb_spec n m); [congruence|reflexivity].
  - rewrite IH. reflexivity.
Qed.

Lemma watchAlter_fix (f : Watch → Watch) n (l : list (Z * Watch)) x :
  watchGet n l = Some x → f x = x → watchAlter f n l = l.
Proof.
  induction l as [|[n' x'] l IH]; simpl; intros E Hf; [reflexivity|].
  destruct (n' =? n).
  - injection E as ->. rewrite Hf. reflexivity.
  - rewrite (IH E Hf). reflexivity.
Qed.

Lemma fst_watchAlter (f : Watch → Watch) n (l : list (Z * Watch)) :
  map fst (watchAlter f n l) = map fst l.
Proof.
  induction l as [|[n' x'] l IH]; simpl; [reflexivity|].
  destruct (n' =? n); simpl; [reflexivity|]. rewrite IH. reflexivity.
Qed.

Lemma withWatches_same cfg : withWatches (watches cfg) cfg = cfg.
Proof. destruct cfg; reflexivity. Qed.

(** ** Watches *)

Section WatchFacts.
Context {text : JsText} (out : Outside).

(** The cooldown test of the loop, spelled out. *)
Lemma watchDue_spec now x :
  watchDue now x = true
  ↔ lastAlertAt x = None
    ∨ ∃ t, lastAlertAt x = Some t ∧ intervalMinutes x * 60000 ≤ now - t.
Proof.
  unfold watchDue. destruct (lastAlertAt x) as [t|]; simpl.
  - rewrite Z.leb_le. split.
    + intros H. right. exists t. split; [reflexivity|lia].
    + intros [H|(t' & E & H)]; [discriminate|]. inversion E; subst. lia.
  - split; auto.
Qed.

(** An iteration of the watch loop on a cached, supported lobby, with
    its guards resolved. *)
Lemma evalWatch_unfold (now : Z) (g c p : string) (x : Watch) (w : World)
    (lobbyDef : LobbyDef) (snapshot : Snapshot) :
  lobbyOfKey (lobbyKey x) = Some lobbyDef →
  lobbyCache w !! lobbyKey x = Some snapshot →
  noApi snapshot = false →
  let count := length (filter (λ q, watchActive q = true) (players snapshot)) in
  evalWatch out now g c p x w =
    if Z.of_nat count <? threshold x then (Returned x, w)
    else if watchDue now x
         then (let! _ := channelSend out g c p (Some (watchEmbed lobbyDef x count)) in
               let! fired := dateNow in
               ret (withLastAlertAt (Some fired) x)) w
         else (Returned x, w).
Proof.
  intros Hl Hc Hn count.
  unfold evalWatch. rewrite Hl. unfold bind at 1. unfold gets at 1.
  rewrite Hc, Hn. fold count.
  destruct (Z.of_nat count <? threshold x); [reflexivity|].
  destruct (watchDue now x); reflexivity.
Qed.

(** A turn of the loop that sends nothing leaves the world as it was. *)
Lemma watchIteration_quiet (now : Z) (g c p : string) (n : Z) (x : Watch)
    (cfg : GuildConfig) (w : World) :
  assocGet g (guildConfigs w) = Some cfg →
  watchGet n (watches cfg) = Some x →
  evalWatch out now g c p x w = (Returned x, w) →
  watchIteration out now g c p n x w = (Returned tt, w).
Proof.
  intros Hg Hx E. unfold watchIteration. unfold bind at 1. rewrite E.
  unfold modifyCfg, modify. rewrite (assocAlter_fix _ g _ cfg Hg).
  - rewrite setGuildConfigs_same. reflexivity.
  - cbv beta. rewrite (watchAlter_fix (λ _, x) n _ x Hx eq_refl). apply withWatches_same.
Qed.

(** C1. Take a watch [x] that a tenant holds under the number [n], on
    a registry lobby whose cached snapshot is present and not marked
    [noApi]; [count] is the number of its players that pass the size
    filter. Below the threshold the turn of the loop changes nothing: no
    message, the same watch in the map, the same world. At or above the
    threshold a message is sent exactly when [lastAlertAt] is null or at
    least [intervalMinutes * 60000] ms before [now]; when it is not
    sent nothing changes. When it is sent and Discord accepts it, the
    watch the tenant holds under [n] afterwards has [lastAlertAt] equal
    to the clock at that moment and its other fields as they were, and
    nothing else of the tenants changes; so a later turn on that watch
    sends nothing while less than the interval has passed since. A
    rejected send throws and leaves the tenants as they were. *)
Theorem watch_cooldown_gate (now : Z) (g c p : string) (n : Z) (x : Watch)
    (cfg : GuildConfig) (w : World) (lobbyDef : LobbyDef) (snapshot : Snapshot) :
  assocGet g (guildConfigs w) = Some cfg →
  watchGet n (watches cfg) = Some x →
  lobbyOfKey (lobbyKey x) = Some lobbyDef →
  lobbyCache w !! lobbyKey x = Some snapshot →
  noApi snapshot = false →
  let count := length (filter (λ q, watchActive q = true) (players snapshot)) in
  let due := lastAlertAt x = None
             ∨ ∃ t, lastAlertAt x = Some t ∧ intervalMinutes x * 60000 ≤ now - t in
  let alert := {| toGuild := g; toChannel := c; content := p;
                  embed := Some (watchEmbed lobbyDef x count);
                  delivered := sendOk out (calls w) |} in
  (Z.of_nat count < threshold x → watchIteration out now g c p n x w = (Returned tt, w))
  ∧ (threshold x ≤ Z.of_nat count → ¬ due →
       watchIteration out now g c p n x w = (Returned tt, w))
  ∧ (threshold x ≤ Z.of_nat count → due →
       ∃ r w',
         watchIteration out now g c p n x w = (r, w')
         ∧ sendLog w' = (sendLog w ++ [alert])%list
         ∧ clock w' = clock w + Z.of_N (delay out (calls w))
         ∧ lobbyCache w' = lobbyCache w
         ∧ (sendOk out (calls w) = false →
              r = Thrown "send rejected" ∧ guildConfigs w' = guildConfigs w)
         ∧ (sendOk out (calls w) = true →
              r = Returned tt
              ∧ ∃ cfg' x',
                  assocGet g (guildConfigs w') = Some cfg'
                  ∧ watchGet n (watches cfg') = Some x'
                  ∧ lastAlertAt x' = Some (clock w')
                  ∧ watchId x' = watchId x ∧ lobbyKey x' = lobbyKey x
                  ∧ threshold x' = threshold x ∧ intervalMinutes x' = intervalMinutes x
                  ∧ map fst (watches cfg') = map fst (watches cfg)
                  ∧ (∀ m, m ≠ n → watchGet m (watches cfg') = watchGet m (watches cfg))
                  ∧ withWatches (watches cfg) cfg' = cfg
                  ∧ map fst (guildConfigs w') = map fst (guildConfigs w)
                  ∧ (∀ g', g' ≠ g →
                       assocGet g' (guildConfigs w') = assocGet g' (guildConfigs w))
                  ∧ ∀ now' c' p',
                      now' - clock w' < intervalMinutes x * 60000 →
                      watchIteration out now' g c' p' n x' w' = (Returned tt, w'))).
Proof.
  intros Hg Hx Hl Hc Hn count due alert.
  pose proof (evalWatch_unfold now g c p x w lobbyDef snapshot Hl Hc Hn) as E.
  cbv zeta in E. fold count in E. split; [|split].
  - intros H. apply Z.ltb_lt in H. rewrite H in E.
    exact (watchIteration_quiet now g c p n x cfg w Hg Hx E).
  - intros H Hd. apply Z.ltb_ge in H. rewrite H in E.
    destruct (watchDue now x) eqn:D.
    + exfalso. apply Hd, watchDue_spec, D.
    + exact (watchIteration_quiet now g c p n x cfg w Hg Hx E).
  - intros H Hd. apply Z.ltb_ge in H. rewrite H in E.
    apply watchDue_spec in Hd. rewrite Hd in E.
    set (w1 := setSendLog (sendLog w ++ [alert])%list
                 (setCalls (S (calls w))
                    (setClock (clock w + Z.of_N (delay out (calls w))) w))).
    set (x1 := withLastAlertAt (Some (clock w1)) x).
    set (stamp := λ c0 : GuildConfig,
                    withWatches (watchAlter (λ _, x1) n (watches c0)) c0).
    assert (Run : watchIteration out now g c p n x w
                  = if sendOk out (calls w)
                    then (Returned tt,
                          setGuildConfigs (assocAlter stamp g (guildConfigs w1)) w1)
                    else (Thrown "send rejected", w1)).
    { unfold watchIteration. unfold bind at 1. rewrite E.
      unfold channelSend, request, bind, modify, modifyCfg, dateNow, gets, ret, throw.
      simpl. destruct (sendOk out (calls w)); reflexivity. }
    rewrite Run. destruct (sendOk out (calls w)) eqn:Ok.
    + eexists _, _. split; [reflexivity|]. repeat (split; [reflexivity|]).
      split; [discriminate|]. intros _. split; [reflexivity|].
      assert (Hg1 : assocGet g (assocAlter stamp g (guildConfigs w)) = Some (stamp cfg))
        by exact (assocGet_alter_eq stamp g _ cfg Hg).
      assert (Hx1 : watchGet n (watches (stamp cfg)) = Some x1)
        by exact (watchGet_alter_eq (λ _, x1) n _ x Hx).
      exists (stamp cfg), x1. split; [exact Hg1|]. split; [exact Hx1|].
      repeat (split; [reflexivity|]).
      split; [apply fst_watchAlter|].
      split; [intros m N; apply watchGet_alter_ne, N|].
      split; [unfold stamp; destruct cfg; reflexivity|].
      split; [apply fst_assocAlter|].
      split; [intros g' N; apply assocGet_alter_ne; congruence|].
      intros now' c' p' Hlate.
      apply (watchIteration_quiet now' g c' p' n x1 (stamp cfg)); [exact Hg1|exact Hx1|].
      rewrite (evalWatch_unfold now' g c' p' x1
                 (setGuildConfigs (assocAlter stamp g (guildConfigs w1)) w1)
                 lobbyDef snapshot Hl Hc Hn).
      cbv zeta. destruct (_ <? _); [reflexivity|].
      assert (D : watchDue now' x1 = false).
      { unfold watchDue, x1. simpl. change (clock w1) with (clock w + Z.of_N (delay out (calls w))).
        simpl in Hlate. apply Z.leb_gt. lia. }
      rewrite D. reflexivity.
    + eexists _, _. split; [reflexivity|]. repeat (split; [reflexivity|]).
      split; [intros _; split; reflexivity|discriminate].
Qed.

End WatchFacts.

(** The scenario of the specification: five players meet the threshold
    and the watch fires; thirty seconds later six players do not fire it;
    two minutes and a second after the first alert five players fire it
    again. *)
Example watch_scenario :
  let t0 := 1000000 in
  let at_ now ps last :=
    evalWatch (text := SampleRuntime.text) SampleLobby.prompt now "guild" "channel" "ping"
      (SampleLobby.watch1 last) (SampleLobby.cachedAt now ps) in
  (fst (at_ t0 SampleLobby.five None) = Returned (SampleLobby.watch1 (Some t0))
   ∧ length (sendLog (snd (at_ t0 SampleLobby.five None))) = 1%nat)
  ∧ at_ (t0 + 30000) SampleLobby.six (Some t0)
    = (Returned (SampleLobby.watch1 (Some t0)), SampleLobby.cachedAt (t0 + 30000) SampleLobby.six)
  ∧ (fst (at_ (t0 + 120001) SampleLobby.five (Some t0))
     = Returned (SampleLobby.watch1 (Some (t0 + 120001)))
     ∧ length (sendLog (snd (at_ (t0 + 120001) SampleLobby.five (Some t0)))) = 1%nat).
Proof. vm_compute. repeat split. Qed.

Lemma watch_cooldown_gate_witness :
  let w := SampleTenant.world 1000000 SampleLobby.five [] in
  ∃ r w',
    watchIteration (text := SampleRuntime.text) SampleLobby.prompt 1000000
      "guild" "channel" "ping" 1 (SampleLobby.watch1 None) w = (r, w')
    ∧ length (sendLog w') = 1%nat
    ∧ r = Returned tt
    ∧ ∃ cfg' x', assocGet "guild" (guildConfigs w') = Some cfg'
                 ∧ watchGet 1 (watches cfg') = Some x'
                 ∧ lastAlertAt x' = Some 1000000
                 ∧ watchIteration (text := SampleRuntime.text) SampleLobby.prompt 1030000
                     "guild" "channel" "ping" 1 x' w' = (Returned tt, w').
Proof.
  intros w.
  destruct (watch_cooldown_gate (text := SampleRuntime.text) SampleLobby.prompt 1000000
              "guild" "channel" "ping" 1 (SampleLobby.watch1 None)
              (SampleTenant.tenant []) w Sample.us1
              (Sample.snapshotOf Sample.us1 SampleLobby.five 1000000)
              eq_refl eq_refl eq_refl eq_refl eq_refl) as (_ & _ & fire).
  destruct fire as (r & w' & Run & Hs & Hc & _ & _ & Ok).
  - vm_compute. discriminate.
  - left. reflexivity.
  - destruct (Ok eq_refl) as (Hr & cfg' & x' & Hg & Hx & Ht & _ & _ & _ & _ & _ & _ & _ & _ & _ & Next).
    exists r, w'. split; [exact Run|]. split; [rewrite Hs; reflexivity|]. split; [exact Hr|].
    exists cfg', x'. split; [exact Hg|]. split; [exact Hx|]. split.
    + rewrite Ht, Hc. reflexivity.
    + apply Next. rewrite Hc. vm_compute. reflexivity.
Defined.

(** ** Join diff: the sets *)

Lemma elem_of_foldl_setAdd (l acc : list string) x :
  x ∈ foldl setAdd acc l ↔ x ∈ acc ∨ x ∈ l.
Proof.
  revert acc. induction l as [|y l IH]; intros acc; simpl.
  - rewrite elem_of_nil. tauto.
  - rewrite IH, elem_of_cons. unfold setAdd, setHas.
    case_bool_decide as Hy.
    + split; [tauto|]. intros [H|[->|H]]; auto.
    + rewrite elem_of_app, list_elem_of_singleton. tauto.
Qed.

Lemma NoDup_foldl_setAdd (l acc : list string) :
  NoDup acc → NoDup (foldl setAdd acc l).
Proof.
  revert acc. induction l as [|y l IH]; intros acc Hacc; simpl; [exact Hacc|].
  apply IH. unfold setAdd, setHas. case_bool_decide as Hy; [exact Hacc|].
  apply NoDup_app. split; [exact Hacc|]. split.
  - intros x Hx Hx'. apply list_elem_of_singleton in Hx'. subst. contradiction.
  - apply NoDup_singleton.
Qed.

Lemma elem_of_newSet l x : x ∈ newSet l ↔ x ∈ l.
Proof.
  unfold newSet. rewrite elem_of_foldl_setAdd, elem_of_nil. tauto.
Qed.

Lemma NoDup_newSet l : NoDup (newSet l).
Proof. apply NoDup_foldl_setAdd, NoDup_nil_2. Qed.

Lemma elem_of_keepTruthy l x :
  x ∈ keepTruthy l ↔ x ≠ "" ∧ Some x ∈ l.
Proof.
  unfold keepTruthy. rewrite list_elem_of_omap. split.
  - intros (v & Hv & E). destruct (JsVal.truthy v) eqn:T; [|discriminate].
    subst v. destruct (JsFacts.truthy_Some _ T) as (s & Es & Hs).
    inversion Es; subst. auto.
  - intros (Hx & Hin). exists (Some x). split; [exact Hin|].
    rewrite (JsFacts.truthy_nonempty x Hx). reflexivity.
Qed.

(** The current identifiers are the truthy keys of the active players,
    each once. *)
Lemma elem_of_currentIdsOf act i :
  i ∈ currentIdsOf act ↔ i ≠ "" ∧ ∃ q, q ∈ act ∧ playerKey q = Some i.
Proof.
  unfold currentIdsOf. rewrite elem_of_newSet, elem_of_keepTruthy, list_elem_of_fmap.
  split; intros (Hi & q & H1 & H2); (split; [exact Hi|]); exists q; auto.
Qed.

Lemma find_playerKey act i :
  (∃ q, q ∈ act ∧ playerKey q = Some i) →
  ∃ q, find (λ q, bool_decide (playerKey q = Some i)) act = Some q
       ∧ q ∈ act ∧ playerKey q = Some i.
Proof.
  induction act as [|a act IH]; intros (q & Hq & Hk).
  - apply elem_of_nil in Hq. contradiction.
  - simpl. case_bool_decide as Ha.
    + exists a. split; [reflexivity|]. split; [left|exact Ha].
    + apply elem_of_cons in Hq as [->|Hq]; [contradiction|].
      destruct IH as (q' & E & Hin & Hk'); [eauto|].
      exists q'. split; [exact E|]. split; [right; exact Hin|exact Hk'].
Qed.

(** The players reported are, in order, one per current identifier that
    the last set lacks. *)
Lemma newJoinsOf_keys act cur last :
  (∀ i, i ∈ cur → ∃ q, q ∈ act ∧ playerKey q = Some i) →
  map playerKey (newJoinsOf act cur last) = map Some (filter (λ i, i ∉ last) cur)
  ∧ ∀ q, q ∈ newJoinsOf act cur last → q ∈ act.
Proof.
  unfold newJoinsOf, setHas. induction cur as [|i cur IH]; intros Hcur.
  - split; [reflexivity|]. intros q Hq. apply elem_of_nil in Hq. contradiction.
  - destruct IH as [IH1 IH2]; [intros j Hj; apply Hcur; right; exact Hj|].
    simpl. rewrite filter_cons.
    destruct (decide (i ∈ last)) as [Hi|Hi].
    + rewrite (bool_decide_eq_true_2 _ Hi).
      destruct (decide (i ∉ last)) as [N|_]; [contradiction|]. split; assumption.
    + rewrite (bool_decide_eq_false_2 _ Hi).
      destruct (decide (i ∉ last)) as [_|N]; [|contradiction].
      destruct (find_playerKey act i) as (q & E & Hin & Hk); [apply Hcur; left|].
      rewrite E. simpl. split.
      * rewrite Hk. f_equal. apply IH1.
      * intros q' Hq'. apply elem_of_cons in Hq' as [->|Hq']; [exact Hin|].
        apply IH2, Hq'.
Qed.

Lemma newJoinsOf_currentIds act last :
  map playerKey (newJoinsOf act (currentIdsOf act) last)
    = map Some (filter (λ i, i ∉ last) (currentIdsOf act))
  ∧ ∀ q, q ∈ newJoinsOf act (currentIdsOf act) last → q ∈ act.
Proof.
  apply newJoinsOf_keys. intros i Hi. apply elem_of_currentIdsOf in Hi. tauto.
Qed.

(** ** Join diff: the loop body *)

Lemma elem_of_assocAlter {V} (f : V → V) k (l : list (string * V)) k' v' :
  (k', v') ∈ assocAlter f k l →
  (k', v') ∈ l ∨ ∃ v, (k', v) ∈ l ∧ k' = k ∧ v' = f v.
Proof.
  induction l as [|[k0 v0] l IH]; simpl; [auto|].
  destruct (String.eqb_spec k0 k) as [->|N]; rewrite !elem_of_cons.
  - intros [E|H]; [|left; right; exact H].
    inversion E; subst. right. exists v0. split; [left|auto].
  - intros [E|H]; [left; left; exact E|].
    destruct (IH H) as [H'|(v & H1 & H2 & H3)]; [left; right; exact H'|].
    right. exists v. split; [right; exact H1|auto].
Qed.

Section JoinFacts.
Context {text : JsText} (out : Outside).

Lemma joinAlertsForLobby_run g c p l w cfg snapshot :
  assocGet g (guildConfigs w) = Some cfg →
  alertEnabled cfg !! key l = Some true →
  lobbyCache w !! key l = Some snapshot →
  noApi snapshot = false →
  let act := filter (λ q, joinActive q = true) (players snapshot) in
  let cur := currentIdsOf act in
  let last := default [] (lastSeenPlayers cfg !! key l) in
  let joins := newJoinsOf act cur last in
  let w1 := setGuildConfigs (assocAlter (withLastSeen (key l) cur) g (guildConfigs w)) w in
  joinAlertsForLobby out g c p l w =
    match joins with
    | [] => (Returned tt, w1)
    | _ => channelSend out g c p (Some (joinEmbed l joins (length act))) w1
    end.
Proof.
  intros Hcfg Hen Hc Hn act cur last joins w1.
  unfold joinAlertsForLobby, getCfg.
  unfold bind at 1. unfold gets at 1. rewrite Hcfg, Hen. simpl.
  unfold bind at 1. unfold gets at 1. rewrite Hc, Hn.
  fold act. fold cur. fold last. fold joins.
  destruct act as [|a act'] eqn:Ea.
  - reflexivity.
  - change ((length (a :: act') =? 0)%nat) with false. cbv iota.
    unfold bind, modifyCfg, modify. fold w1.
    destruct joins; reflexivity.
Qed.

(** What an iteration of the join loop does to the world. *)
Lemma joinAlertsForLobby_effect g c p l w cfg snapshot :
  assocGet g (guildConfigs w) = Some cfg →
  alertEnabled cfg !! key l = Some true →
  lobbyCache w !! key l = Some snapshot →
  noApi snapshot = false →
  let act := filter (λ q, joinActive q = true) (players snapshot) in
  let cur := currentIdsOf act in
  let last := default [] (lastSeenPlayers cfg !! key l) in
  let joins := newJoinsOf act cur last in
  let message := {| toGuild := g; toChannel := c; content := p;
                    embed := Some (joinEmbed l joins (length act));
                    delivered := sendOk out (calls w) |} in
  ∃ r w', joinAlertsForLobby out g c p l w = (r, w')
     ∧ assocGet g (guildConfigs w') = Some (withLastSeen (key l) cur cfg)
     ∧ sendLog w' = (sendLog w ++ match joins with [] => [] | _ => [message] end)%list.
Proof.
  intros Hcfg Hen Hc Hn act cur last joins message.
  pose proof (joinAlertsForLobby_run g c p l w cfg snapshot Hcfg Hen Hc Hn) as E.
  cbv zeta in E. fold act cur last joins in E. rewrite E.
  destruct joins as [|j joins'] eqn:Ej.
  - eexists _, _. split; [reflexivity|]. simpl.
    rewrite (assocGet_alter_eq _ _ _ _ Hcfg), app_nil_r. auto.
  - unfold channelSend, request, bind, modify, ret, throw. simpl.
    destruct (sendOk out (calls w)) eqn:Ok; (eexists _, _; split; [reflexivity|]);
      simpl; rewrite (assocGet_alter_eq _ _ _ _ Hcfg); split; try reflexivity;
      unfold message; rewrite Ok; reflexivity.
Qed.

(** The world an iteration of the join loop leaves. *)
Lemma joinAlertsForLobby_world g c p l w cfg snapshot :
  assocGet g (guildConfigs w) = Some cfg →
  alertEnabled cfg !! key l = Some true →
  lobbyCache w !! key l = Some snapshot →
  noApi snapshot = false →
  let act := filter (λ q, joinActive q = true) (players snapshot) in
  let cur := currentIdsOf act in
  let last := default [] (lastSeenPlayers cfg !! key l) in
  let joins := newJoinsOf act cur last in
  let message := {| toGuild := g; toChannel := c; content := p;
                    embed := Some (joinEmbed l joins (length act));
                    delivered := sendOk out (calls w) |} in
  ∃ r w', joinAlertsForLobby out g c p l w = (r, w')
     ∧ guildConfigs w' = assocAlter (withLastSeen (key l) cur) g (guildConfigs w)
     ∧ lobbyCache w' = lobbyCache w
     ∧ sendLog w' = (sendLog w ++ match joins with [] => [] | _ => [message] end)%list.
Proof.
  intros Hcfg Hen Hc Hn act cur last joins message.
  pose proof (joinAlertsForLobby_run g c p l w cfg snapshot Hcfg Hen Hc Hn) as E.
  cbv zeta in E. fold act cur last joins in E. rewrite E.
  destruct joins as [|j joins'] eqn:Ej.
  - eexists _, _. split; [reflexivity|]. simpl. rewrite app_nil_r. auto.
  - unfold channelSend, request, bind, modify, ret, throw. simpl.
    destruct (sendOk out (calls w)) eqn:Ok; (eexists _, _; split; [reflexivity|]);
      simpl; split; try reflexivity; split; try reflexivity;
      unfold message; rewrite Ok; reflexivity.
Qed.

(** C2. Where join alerts are on for the lobby and its cached snapshot
    is present and not marked [noApi], one iteration of the join pass
    leaves the tenant with the current identifiers (the truthy keys of
    the active players, each once; the empty set when nobody is active)
    as its last-seen set of the lobby, whether or not a join was found;
    nothing else of the tenants changes, nor the cache. It sends one
    message, built from the reported players, exactly when that list is
    not empty. The keys of the reported players are the current
    identifiers that the stored set lacked, once each and in order, and
    every reported player is an active player of the snapshot. The next
    iteration for the lobby, on whatever snapshot, then reports exactly
    the active players whose identifier is truthy and was not among
    those current identifiers: none that was present, and, after an
    iteration that saw nobody, every identifier it sees. *)
Theorem join_diff (g c p : string) (l : LobbyDef) (w : World)
    (cfg : GuildConfig) (snapshot : Snapshot) :
  assocGet g (guildConfigs w) = Some cfg →
  alertEnabled cfg !! key l = Some true →
  lobbyCache w !! key l = Some snapshot →
  noApi snapshot = false →
  let act := filter (λ q, joinActive q = true) (players snapshot) in
  let cur := currentIdsOf act in
  let last := default [] (lastSeenPlayers cfg !! key l) in
  let joins := newJoinsOf act cur last in
  let message := {| toGuild := g; toChannel := c; content := p;
                    embed := Some (joinEmbed l joins (length act));
                    delivered := sendOk out (calls w) |} in
  (∃ r w' cfg',
     joinAlertsForLobby out g c p l w = (r, w')
     ∧ sendLog w' = (sendLog w ++ match joins with [] => [] | _ => [message] end)%list
     ∧ lobbyCache w' = lobbyCache w
     ∧ assocGet g (guildConfigs w') = Some cfg'
     ∧ lastSeenPlayers cfg' !! key l = Some cur
     ∧ (∀ k, k ≠ key l → lastSeenPlayers cfg' !! k = lastSeenPlayers cfg !! k)
     ∧ withoutLastSeen cfg' = withoutLastSeen cfg
     ∧ map fst (guildConfigs w') = map fst (guildConfigs w)
     ∧ (∀ g', g' ≠ g → assocGet g' (guildConfigs w') = assocGet g' (guildConfigs w))
     ∧ ∀ c2 p2 w2 snapshot2,
         guildConfigs w2 = guildConfigs w' →
         lobbyCache w2 !! key l = Some snapshot2 →
         noApi snapshot2 = false →
         let act2 := filter (λ q, joinActive q = true) (players snapshot2) in
         ∃ r2 w3 joins2,
           joinAlertsForLobby out g c2 p2 l w2 = (r2, w3)
           ∧ sendLog w3
             = (sendLog w2 ++
                match joins2 with
                | [] => []
                | _ => [{| toGuild := g; toChannel := c2; content := p2;
                           embed := Some (joinEmbed l joins2 (length act2));
                           delivered := sendOk out (calls w2) |}]
                end)%list
           ∧ (∀ q, q ∈ joins2 → q ∈ act2)
           ∧ (∀ i, Some i ∈ map playerKey joins2
                   ↔ (i ∉ cur) ∧ i ≠ "" ∧ ∃ q, q ∈ act2 ∧ playerKey q = Some i)
           ∧ NoDup (map playerKey joins2))
  ∧ map playerKey joins = map Some (filter (λ i, i ∉ last) cur)
  ∧ (∀ q, q ∈ joins → q ∈ act)
  ∧ (∀ i, i ∈ cur ↔ i ≠ "" ∧ ∃ q, q ∈ act ∧ playerKey q = Some i)
  ∧ NoDup cur
  ∧ (act = [] → cur = [])
  ∧ (cur = [] → joins = [])
  ∧ (∀ act' i, i ∈ cur →
       Some i ∉ map playerKey (newJoinsOf act' (currentIdsOf act') cur))
  ∧ (∀ act', map playerKey (newJoinsOf act' (currentIdsOf act') [])
             = map Some (currentIdsOf act')).
Proof.
  intros Hcfg Hen Hc Hn act cur last joins message.
  pose proof (newJoinsOf_currentIds act last) as [Hkeys Hact].
  fold cur joins in Hkeys, Hact.
  split.
  { destruct (joinAlertsForLobby_world g c p l w cfg snapshot Hcfg Hen Hc Hn)
      as (r & w' & Run & Hg & Hcache & Hlog).
    fold act cur in Hg. fold act cur last joins message in Hlog.
    set (cfg' := withLastSeen (key l) cur cfg).
    assert (Hcfg' : assocGet g (guildConfigs w') = Some cfg').
    { rewrite Hg. exact (assocGet_alter_eq _ g _ cfg Hcfg). }
    exists r, w', cfg'. split; [exact Run|]. split; [exact Hlog|]. split; [exact Hcache|].
    split; [exact Hcfg'|].
    split; [apply lookup_insert_eq|].
    split; [intros k N; apply lookup_insert_ne; congruence|].
    split; [reflexivity|].
    split; [rewrite Hg; apply fst_assocAlter|].
    split; [intros g' N; rewrite Hg; apply assocGet_alter_ne; congruence|].
    intros c2 p2 w2 snapshot2 Hw2 Hc2 Hn2 act2.
    rewrite <- Hw2 in Hcfg'.
    destruct (joinAlertsForLobby_world g c2 p2 l w2 cfg' snapshot2 Hcfg' Hen Hc2 Hn2)
      as (r2 & w3 & Run2 & _ & _ & Hlog2).
    fold act2 in Hlog2.
    assert (Hlast : default [] (lastSeenPlayers cfg' !! key l) = cur).
    { unfold cfg'. simpl. rewrite lookup_insert_eq. reflexivity. }
    rewrite Hlast in Hlog2.
    pose proof (newJoinsOf_currentIds act2 cur) as [Hkeys2 Hact2].
    exists r2, w3, (newJoinsOf act2 (currentIdsOf act2) cur).
    split; [exact Run2|]. split; [exact Hlog2|]. split; [exact Hact2|].
    rewrite Hkeys2. split.
    - intros i. rewrite list_elem_of_fmap. split.
      + intros (j & Ej & Hj). injection Ej as <-.
        apply list_elem_of_filter in Hj as [Hj1 Hj2].
        apply elem_of_currentIdsOf in Hj2. tauto.
      + intros (Hi & Ht & Hq). exists i. split; [reflexivity|].
        apply list_elem_of_filter. split; [exact Hi|].
        apply elem_of_currentIdsOf. tauto.
    - apply NoDup_fmap_2; [intros i j E; injection E; auto|].
      apply NoDup_filter, NoDup_newSet. }
  split; [exact Hkeys|]. split; [exact Hact|].
  split; [intros i; apply elem_of_currentIdsOf|].
  split; [apply NoDup_newSet|].
  split; [intros E; unfold cur; rewrite E; reflexivity|].
  split; [intros E; unfold joins; rewrite E; reflexivity|].
  split.
  - intros act' i Hi Hin.
    destruct (newJoinsOf_currentIds act' cur) as [Hk _]. rewrite Hk in Hin.
    apply list_elem_of_fmap in Hin as (j & Ej & Hj). inversion Ej; subst j.
    apply list_elem_of_filter in Hj as [Hj _]. contradiction.
  - intros act'. destruct (newJoinsOf_currentIds act' []) as [Hk _]. rewrite Hk.
    f_equal. clear Hk. induction (currentIdsOf act') as [|i ids IH]; [reflexivity|].
    rewrite filter_cons_True by apply not_elem_of_nil. f_equal. exact IH.
Qed.

End JoinFacts.

(** The stored set {A, B} meets the active players B and C: C is
    reported and {B, C} stored. An empty lobby then stores the empty set
    and reports nobody, after which A alone is reported as new. *)
Example join_scenario :
  let iteration ps last :=
    joinAlertsForLobby (text := SampleRuntime.text) SampleLobby.prompt
      "guild" "channel" "ping" Sample.us1 (SampleTenant.world 0 ps last) in
  let stored w := (λ c, lastSeenPlayers c !! "us-1") <$> assocGet "guild" (guildConfigs w) in
  let told w := (λ m, (λ e, description e) <$> embed m) <$> sendLog w in
  (stored (snd (iteration [Sample.player "B" 10; Sample.player "C" 20] ["A"; "B"]))
     = Some (Some ["B"; "C"])
   ∧ told (snd (iteration [Sample.player "B" 10; Sample.player "C" 20] ["A"; "B"]))
     = [Some ("C joined US $1 lobby." +:+ JsVal.nl +:+ "Lobby players: 2.")])
  ∧ (stored (snd (iteration [] ["B"; "C"])) = Some (Some [])
     ∧ told (snd (iteration [] ["B"; "C"])) = [])
  ∧ (stored (snd (iteration [Sample.player "A" 10] [])) = Some (Some ["A"])
     ∧ told (snd (iteration [Sample.player "A" 10] []))
       = [Some ("A joined US $1 lobby." +:+ JsVal.nl +:+ "Lobby players: 1.")]).
Proof. vm_compute. repeat split. Qed.

Lemma join_diff_witness :
  let w := SampleTenant.world 0 [Sample.player "B" 10; Sample.player "C" 20] ["A"; "B"] in
  let act := [Sample.player "B" 10; Sample.player "C" 20] in
  (∃ r w' cfg', joinAlertsForLobby (text := SampleRuntime.text) SampleLobby.prompt
                  "guild" "channel" "ping" Sample.us1 w = (r, w')
                ∧ length (sendLog w') = 1%nat
                ∧ assocGet "guild" (guildConfigs w') = Some cfg'
                ∧ lastSeenPlayers cfg' !! "us-1" = Some ["B"; "C"])
  ∧ map playerKey (newJoinsOf act (currentIdsOf act) ["A"; "B"]) = [Some "C"].
Proof.
  intros w act.
  destruct (join_diff (text := SampleRuntime.text) SampleLobby.prompt
              "guild" "channel" "ping" Sample.us1 w (SampleTenant.tenant ["A"; "B"])
              (Sample.snapshotOf Sample.us1 act 0)
              eq_refl eq_refl eq_refl eq_refl)
    as ((r & w' & cfg' & E & Hlog & _ & Hg & Hs & _) & Hk & _).
  split.
  - exists r, w', cfg'. split; [exact E|]. split; [rewrite Hlog; reflexivity|].
    split; [exact Hg|exact Hs].
  - exact Hk.
Defined.

(** ** Identifiers are truthy *)

Lemma cfgTruthy_withLastSeen k ids cfg :
  (∀ i, i ∈ ids → i ≠ "") → cfgTruthy cfg → cfgTruthy (withLastSeen k ids cfg).
Proof.
  intros Hids Hcfg k' ids' i Hlook Hi. simpl in Hlook.
  destruct (decide (k = k')) as [->|N].
  - rewrite lookup_insert_eq in Hlook. inversion Hlook; subst. apply Hids, Hi.
  - rewrite lookup_insert_ne in Hlook by exact N. eapply Hcfg; eassumption.
Qed.

Lemma modifyCfg_keeps_truthy g h :
  (∀ cfg, cfgTruthy cfg → cfgTruthy (h cfg)) →
  preserves (keepsInv lastSeenTruthy) (modifyCfg g h).
Proof.
  intros Hh. apply preserves_modify. intros w Inv g' cfg' Hin. simpl in Hin.
  apply elem_of_assocAlter in Hin as [Hin|(cfg0 & Hin & _ & ->)].
  - eapply Inv, Hin.
  - apply Hh. eapply Inv, Hin.
Qed.

Lemma currentIdsOf_truthy act i : i ∈ currentIdsOf act → i ≠ "".
Proof. intros H. apply elem_of_currentIdsOf in H. tauto. Qed.

(** A record without identifier adds nothing to the current set and is
    never the record found for an identifier. *)
Lemma playerKey_lacking q : lacksIdentifier q → JsVal.truthy (playerKey q) = false.
Proof.
  intros [H1 H2]. unfold playerKey, JsVal.orElse. rewrite H1. exact H2.
Qed.

Lemma currentIdsOf_skip a1 a2 q :
  lacksIdentifier q → currentIdsOf (a1 ++ q :: a2) = currentIdsOf (a1 ++ a2).
Proof.
  intros Hq. unfold currentIdsOf, keepTruthy. f_equal.
  rewrite !map_app, !omap_app. simpl. rewrite (playerKey_lacking q Hq). reflexivity.
Qed.

Lemma find_skip a1 a2 q i :
  i ≠ "" → lacksIdentifier q →
  find (λ r, bool_decide (playerKey r = Some i)) (a1 ++ q :: a2)
  = find (λ r, bool_decide (playerKey r = Some i)) (a1 ++ a2).
Proof.
  intros Hi Hq. induction a1 as [|a a1 IH]; simpl.
  - rewrite bool_decide_eq_false_2; [reflexivity|].
    intros E. pose proof (playerKey_lacking q Hq) as T. rewrite E in T.
    rewrite (JsFacts.truthy_nonempty i Hi) in T. discriminate.
  - rewrite IH. reflexivity.
Qed.

Lemma omap_ext_in {A B} (f h : A → option B) (l : list A) :
  (∀ x, x ∈ l → f x = h x) → omap f l = omap h l.
Proof.
  induction l as [|a l IH]; intros H; [reflexivity|].
  cbn. rewrite (H a) by left.
  assert (E : omap f l = omap h l) by (apply IH; intros x Hx; apply H; right; exact Hx).
  destruct (h a); [f_equal|]; exact E.
Qed.

Lemma newJoinsOf_skip a1 a2 q cur last :
  (∀ i, i ∈ cur → i ≠ "") → lacksIdentifier q →
  newJoinsOf (a1 ++ q :: a2) cur last = newJoinsOf (a1 ++ a2) cur last.
Proof.
  intros Hcur Hq. unfold newJoinsOf. apply omap_ext_in. intros i Hi.
  rewrite (find_skip a1 a2 q i (Hcur i Hi) Hq). reflexivity.
Qed.

Section TruthyFacts.
Context {text : JsText} (out : Outside).

Lemma fetchLobbyPlayers_guilds l :
  preserves (agreeOn guildConfigs) (fetchLobbyPlayers out l).
Proof.
  intros w r w' H. unfold agreeOn.
  destruct (JsVal.truthy (url l)) eqn:Hu.
  - destruct (JsFacts.truthy_Some _ Hu) as (u & Eu & Hne).
    destruct (fetch_supported_log out l w u Eu Hne r w' H) as (_ & _ & _ & Hg & _).
    exact Hg.
  - destruct (fetch_unsupported out l w Hu) as (s & E & _).
    rewrite E in H. inversion H; subst. reflexivity.
Qed.

Lemma joinAlertsForLobby_keeps_truthy g c p l :
  preserves (keepsInv lastSeenTruthy) (joinAlertsForLobby out g c p l).
Proof.
  unfold joinAlertsForLobby. frame.
  - apply modifyCfg_keeps_truthy. intros cfg. apply cfgTruthy_withLastSeen.
    intros i Hi. apply elem_of_nil in Hi. contradiction.
  - apply modifyCfg_keeps_truthy. intros cfg. apply cfgTruthy_withLastSeen.
    intros i. apply currentIdsOf_truthy.
  - apply (agreeOn_keepsInv guildConfigs allTruthy).
    apply channelSend_frame; reflexivity.
Qed.

Lemma processJoinAlerts_keeps_truthy :
  preserves (keepsInv lastSeenTruthy) (processJoinAlerts out).
Proof.
  unfold processJoinAlerts. frame.
  apply preserves_forEach; [tc_solve..|]. intros g _.
  unfold forAlertChannel. frame.
  apply preserves_forEach; [tc_solve..|]. intros l _.
  apply joinAlertsForLobby_keeps_truthy.
Qed.

Lemma processWatches_keeps_truthy :
  preserves (keepsInv lastSeenTruthy) (processWatches out).
Proof.
  unfold processWatches. frame.
  apply preserves_forEach; [tc_solve..|]. intros g _.
  unfold forAlertChannel. frame.
  apply preserves_forEach; [tc_solve..|]. intros [n x] _.
  unfold watchIteration. frame.
  - apply (agreeOn_keepsInv guildConfigs allTruthy).
    apply evalWatch_frame; reflexivity.
  - apply modifyCfg_keeps_truthy. intros cfg H. exact H.
Qed.

Lemma getGuildConfig_keeps_truthy g :
  preserves (keepsInv lastSeenTruthy) (getGuildConfig g).
Proof.
  unfold getGuildConfig. frame.
  apply preserves_modify. intros w Inv g' cfg' Hin. simpl in Hin.
  apply elem_of_app in Hin as [Hin|Hin]; [eapply Inv, Hin|].
  apply list_elem_of_singleton in Hin. inversion Hin; subst.
  intros k ids i Hlook. simpl in Hlook. rewrite lookup_empty in Hlook. discriminate.
Qed.

Lemma alertSwitch_keeps_truthy on g r n :
  preserves (keepsInv lastSeenTruthy) (alertSwitch on g r n).
Proof.
  unfold alertSwitch. frame;
    try apply getGuildConfig_keeps_truthy;
    try (apply modifyCfg_keeps_truthy; intros cfg H; exact H);
    (apply modifyCfg_keeps_truthy; intros cfg; apply cfgTruthy_withLastSeen;
     intros i Hi; apply elem_of_nil in Hi; contradiction).
Qed.

(** C10. No identifier remembered for a tenant is falsy: that holds
    when the process starts, the commands that create a tenant or switch
    its join alerts keep it, and every poll cycle keeps it, however the
    cycle ends. Every player reported as a join carries a truthy
    identifier. A record whose two identifier fields are missing or
    empty is left out of the current set, is never among the reported
    players, and the reported players are those of the same snapshot
    without it. *)
Theorem identifiers_truthy :
  (∀ t, lastSeenTruthy (startWorld t))
  ∧ (∀ g w r w', getGuildConfig g w = (r, w') → lastSeenTruthy w → lastSeenTruthy w')
  ∧ (∀ on g r n w u w', alertSwitch on g r n w = (u, w') →
                        lastSeenTruthy w → lastSeenTruthy w')
  ∧ (∀ w r w', pollLobbiesAndProcessAlerts out w = (r, w') →
               lastSeenTruthy w → lastSeenTruthy w')
  ∧ (∀ act last q, q ∈ newJoinsOf act (currentIdsOf act) last →
                   JsVal.truthy (playerKey q) = true ∧ q ∈ act)
  ∧ (∀ a1 a2 q last, lacksIdentifier q →
       currentIdsOf (a1 ++ q :: a2) = currentIdsOf (a1 ++ a2)
       ∧ newJoinsOf (a1 ++ q :: a2) (currentIdsOf (a1 ++ q :: a2)) last
         = newJoinsOf (a1 ++ a2) (currentIdsOf (a1 ++ a2)) last
       ∧ q ∉ newJoinsOf (a1 ++ q :: a2) (currentIdsOf (a1 ++ q :: a2)) last).
Proof.
  assert (reported : ∀ act last q, q ∈ newJoinsOf act (currentIdsOf act) last →
                       JsVal.truthy (playerKey q) = true ∧ q ∈ act).
  { intros act last q Hq.
    destruct (newJoinsOf_currentIds act last) as [Hk Hact].
    split; [|apply Hact, Hq].
    assert (Hin : playerKey q ∈ map playerKey (newJoinsOf act (currentIdsOf act) last)).
    { apply list_elem_of_fmap. exists q. split; [reflexivity|exact Hq]. }
    rewrite Hk in Hin. apply list_elem_of_fmap in Hin as (i & E & Hi).
    apply list_elem_of_filter in Hi as [_ Hi]. rewrite E.
    apply JsFacts.truthy_nonempty, (currentIdsOf_truthy act), Hi. }
  split; [|split; [|split; [|split; [|split]]]].
  - intros t g cfg Hin. simpl in Hin. apply elem_of_nil in Hin. contradiction.
  - intros g. apply getGuildConfig_keeps_truthy.
  - intros on g r n. apply alertSwitch_keeps_truthy.
  - unfold pollLobbiesAndProcessAlerts.
    change (preserves (keepsInv lastSeenTruthy)
      (tryCatch
         (run forEach LOBBIES (λ l, run fetchLobbyPlayers out l in ret tt) in
          run processJoinAlerts out in processWatches out)
         (λ _, ret tt))).
    frame.
    + apply preserves_forEach; [tc_solve..|]. intros l _. frame.
      apply (agreeOn_keepsInv guildConfigs allTruthy), fetchLobbyPlayers_guilds.
    + apply processJoinAlerts_keeps_truthy.
    + apply processWatches_keeps_truthy.
  - exact reported.
  - intros a1 a2 q last Hq.
    rewrite (currentIdsOf_skip a1 a2 q Hq).
    split; [reflexivity|]. split.
    + apply newJoinsOf_skip; [|exact Hq]. intros i. apply currentIdsOf_truthy.
    + intros Hin.
      rewrite <- (currentIdsOf_skip a1 a2 q Hq) in Hin.
      destruct (reported _ _ _ Hin) as [T _].
      rewrite (playerKey_lacking q Hq) in T. discriminate.
Qed.

End TruthyFacts.

Lemma identifiers_truthy_witness :
  lastSeenTruthy
    (finalWorld (pollLobbiesAndProcessAlerts (text := SampleRuntime.text) SampleRuntime.offline)
       (startWorld 0))
  ∧ SampleTenant.nobody
    ∉ newJoinsOf ([Sample.player "B" 10] ++ SampleTenant.nobody :: [Sample.player "C" 20])
        (currentIdsOf ([Sample.player "B" 10] ++ SampleTenant.nobody :: [Sample.player "C" 20]))
        ["B"].
Proof.
  destruct (identifiers_truthy (text := SampleRuntime.text) SampleRuntime.offline)
    as (start & _ & _ & cycle & _ & skip).
  split.
  - apply (cycle (startWorld 0) _ _ (surjective_pairing _)), start.
  - apply (skip [Sample.player "B" 10] [Sample.player "C" 20] SampleTenant.nobody ["B"]).
    split; reflexivity.
Defined.

(** ** The size filter, variant by variant *)

Lemma snoc_ne {A} (l : list A) (a : A) : (l ++ [a])%list ≠ l.
Proof.
  intros E. apply (f_equal length) in E. rewrite length_app in E. simpl in E. lia.
Qed.

Section VariantFacts.
Context {text : JsText} (out : Outside).

Lemma evalWatch_sends now g c p x w lobbyDef snapshot :
  lobbyOfKey (lobbyKey x) = Some lobbyDef →
  lobbyCache w !! lobbyKey x = Some snapshot →
  noApi snapshot = false →
  sends (evalWatch out now g c p x) w
  ↔ threshold x ≤ Z.of_nat (length (filter (λ q, watchActive q = true) (players snapshot)))
    ∧ watchDue now x = true.
Proof.
  intros Hl Hc Hn. unfold sends, finalWorld.
  rewrite (evalWatch_unfold out now g c p x w lobbyDef snapshot Hl Hc Hn).
  cbv zeta.
  destruct (Z.ltb_spec
    (Z.of_nat (length (filter (λ q, watchActive q = true) (players snapshot))))
    (threshold x)) as [Hlt|Hge].
  - simpl. split; [contradiction|]. intros [H _]. lia.
  - destruct (watchDue now x); simpl.
    + split; [auto|]. intros _.
      unfold channelSend, request, bind, modify, dateNow, gets, ret, throw. simpl.
      destruct (sendOk out (calls w)); simpl; apply snoc_ne.
    + split; [contradiction|]. intros [_ H]. discriminate.
Qed.

Lemma early_evalWatch_sends now g c n x w lobbyDef snapshot :
  lobbyOfKey (lobbyKey x) = Some lobbyDef →
  lobbyCache w !! lobbyKey x = Some snapshot →
  sends (Early.evalWatch out now g c n x) w
  ↔ threshold x ≤ playerCount snapshot ∧ watchDue now x = true.
Proof.
  intros Hl Hc. unfold sends, finalWorld, Early.evalWatch.
  rewrite Hl. unfold bind at 1. unfold gets at 1. rewrite Hc.
  assert (Hcount : Early.watchCount snapshot = playerCount snapshot).
  { unfold Early.watchCount. destruct (Z.eqb_spec (playerCount snapshot) 0); congruence. }
  rewrite Hcount.
  destruct (Z.ltb_spec (playerCount snapshot) (threshold x)) as [Hlt|Hge].
  - simpl. split; [contradiction|]. intros [H _]. lia.
  - destruct (watchDue now x); simpl.
    + split; [auto|]. intros _.
      unfold channelSend, request, bind, modify, dateNow, gets, ret, throw. simpl.
      destruct (sendOk out (calls w)); simpl; apply snoc_ne.
    + split; [contradiction|]. intros [_ H]. discriminate.
Qed.

Lemma early_joinAlertsForLobby_run g c l w cfg snapshot :
  assocGet g (guildConfigs w) = Some cfg →
  alertEnabled cfg !! key l = Some true →
  lobbyCache w !! key l = Some snapshot →
  ∃ r w', Early.joinAlertsForLobby out g c l w = (r, w')
          ∧ assocGet g (guildConfigs w')
            = Some (withLastSeen (key l) (currentIdsOf (players snapshot)) cfg).
Proof.
  intros Hcfg Hen Hc. unfold Early.joinAlertsForLobby, getCfg.
  unfold bind at 1. unfold gets at 1. rewrite Hcfg, Hen. simpl.
  unfold bind at 1. unfold gets at 1. rewrite Hc.
  unfold bind, modifyCfg, modify, ret. unfold Early.currentIdsOf.
  destruct (length _ =? 0)%nat.
  - eexists _, _. split; [reflexivity|]. simpl. apply assocGet_alter_eq, Hcfg.
  - unfold channelSend, request, bind, modify, ret, throw. simpl.
    destruct (sendOk out (calls w)); eexists _, _; (split; [reflexivity|]);
      simpl; apply assocGet_alter_eq, Hcfg.
Qed.

(** C7, as the code has it. In src/index.js and part_001 the watch pass
    and the join pass use one filter, a size that is a number above 3
    (the leaderboard uses it too): a watch on a cached, supported lobby
    sends exactly when the number of players passing it reaches the
    threshold and the cooldown allows, and the join pass remembers the
    identifiers of the players passing it. In part_000 neither pass
    filters by size: a watch sends exactly when the player count that the
    snapshot reports reaches the threshold and the cooldown allows, and
    the join pass remembers the identifiers of all listed players. *)
Theorem size_filter_by_variant :
  (∀ q, watchActive q = sizeAbove 3 q ∧ joinActive q = sizeAbove 3 q
        ∧ lbActive q = sizeAbove 3 q)
  ∧ (∀ q, sizeAbove 3 q = true ↔ ∃ s, size q = Some s ∧ (3 < s)%Q)
  ∧ (∀ now g c p n x w lobbyDef snapshot,
       lobbyOfKey (lobbyKey x) = Some lobbyDef →
       lobbyCache w !! lobbyKey x = Some snapshot →
       noApi snapshot = false →
       (sends (evalWatch out now g c p x) w
        ↔ threshold x
            ≤ Z.of_nat (length (filter (λ q, sizeAbove 3 q = true) (players snapshot)))
          ∧ watchDue now x = true)
       ∧ (sends (Early.evalWatch out now g c n x) w
          ↔ threshold x ≤ playerCount snapshot ∧ watchDue now x = true))
  ∧ (∀ g c p l w cfg snapshot,
       assocGet g (guildConfigs w) = Some cfg →
       alertEnabled cfg !! key l = Some true →
       lobbyCache w !! key l = Some snapshot →
       noApi snapshot = false →
       (∃ r w', joinAlertsForLobby out g c p l w = (r, w')
                ∧ assocGet g (guildConfigs w')
                  = Some (withLastSeen (key l)
                            (currentIdsOf (filter (λ q, sizeAbove 3 q = true)
                                             (players snapshot))) cfg))
       ∧ (∃ r w', Early.joinAlertsForLobby out g c l w = (r, w')
                  ∧ assocGet g (guildConfigs w')
                    = Some (withLastSeen (key l) (currentIdsOf (players snapshot)) cfg))).
Proof.
  split; [intros q; repeat split; reflexivity|].
  split.
  { intros q. unfold sizeAbove. destruct (size q) as [s|].
    - rewrite JsFacts.gtb_lt. split; [eauto|]. intros (s' & E & H). congruence.
    - split; [discriminate|]. intros (s' & E & _). discriminate. }
  split.
  - intros now g c p n x w lobbyDef snapshot Hl Hc Hn. split.
    + apply (evalWatch_sends now g c p x w lobbyDef snapshot Hl Hc Hn).
    + apply (early_evalWatch_sends now g c n x w lobbyDef snapshot Hl Hc).
  - intros g c p l w cfg snapshot Hcfg Hen Hc Hn. split.
    + destruct (joinAlertsForLobby_effect out g c p l w cfg snapshot Hcfg Hen Hc Hn)
        as (r & w' & E & Hs & _).
      exists r, w'. split; [exact E|exact Hs].
    + apply early_joinAlertsForLobby_run; assumption.
Qed.

End VariantFacts.

(** On the two arrivals, the earliest variant counts the two records the
    snapshot reports, which no size constant yields, and alerts; the
    later variants count nobody and stay silent. *)
Lemma early_watch_counts_reported_players :
  (¬ ∃ c : Q,
       Early.watchCount SampleTenant.arrivals
       = Z.of_nat (length (filter (λ q, sizeAbove c q = true)
                             (players SampleTenant.arrivals))))
  ∧ sends (Early.evalWatch (text := SampleRuntime.text) SampleLobby.prompt 0
             "guild" "channel" 1 SampleTenant.watch2) SampleTenant.arrivalsWorld
  ∧ ¬ sends (evalWatch (text := SampleRuntime.text) SampleLobby.prompt 0
               "guild" "channel" "ping" SampleTenant.watch2) SampleTenant.arrivalsWorld.
Proof.
  split; [|split].
  - intros [c E]. unfold SampleTenant.arrivals, Early.watchCount in E. simpl in E.
    rewrite filter_cons_False in E by (simpl; discriminate).
    rewrite filter_cons in E. destruct (decide _) in E; simpl in E; discriminate.
  - unfold sends. vm_compute. discriminate.
  - unfold sends. intros H. apply H. vm_compute. reflexivity.
Qed.

Lemma size_filter_by_variant_witness :
  (sends (evalWatch (text := SampleRuntime.text) SampleLobby.prompt 0
            "guild" "channel" "ping" SampleTenant.watch2) SampleTenant.arrivalsWorld
   ↔ 2 ≤ Z.of_nat (length (filter (λ q, sizeAbove 3 q = true)
                             (players SampleTenant.arrivals)))
     ∧ watchDue 0 SampleTenant.watch2 = true)
  ∧ (sends (Early.evalWatch (text := SampleRuntime.text) SampleLobby.prompt 0
              "guild" "channel" 1 SampleTenant.watch2) SampleTenant.arrivalsWorld
     ↔ 2 ≤ playerCount SampleTenant.arrivals ∧ watchDue 0 SampleTenant.watch2 = true).
Proof.
  destruct (size_filter_by_variant (text := SampleRuntime.text) SampleLobby.prompt)
    as (_ & _ & watch & _).
  apply (watch 0 "guild" "channel" "ping" 1 SampleTenant.watch2 SampleTenant.arrivalsWorld
           Sample.us1 SampleTenant.arrivals); reflexivity.
Defined.

(** ** Saving and restoring *)

Lemma watchSet_fresh n x (l : list (Z * Watch)) :
  n ∉ map fst l → watchSet n x l = (l ++ [(n, x)])%list.
Proof.
  induction l as [|[n' x'] l IH]; simpl; intros H; [reflexivity|].
  apply not_elem_of_cons in H as [H1 H2].
  destruct (Z.eqb_spec n' n); [congruence|]. rewrite IH by exact H2. reflexivity.
Qed.

Lemma assocSet_fresh {V} k (v : V) (l : list (string * V)) :
  k ∉ map fst l → assocSet k v l = (l ++ [(k, v)])%list.
Proof.
  induction l as [|[k' v'] l IH]; simpl; intros H; [reflexivity|].
  apply not_elem_of_cons in H as [H1 H2].
  destruct (String.eqb_spec k' k); [congruence|]. rewrite IH by exact H2. reflexivity.
Qed.

Lemma elem_of_assocSet {V} k (v : V) (l : list (string * V)) k' v' :
  (k', v') ∈ assocSet k v l → (k', v') ∈ l ∨ v' = v.
Proof.
  induction l as [|[k0 v0] l IH]; simpl.
  - intros H. apply list_elem_of_singleton in H. inversion H. auto.
  - destruct (String.eqb_spec k0 k) as [->|N]; rewrite !elem_of_cons.
    + intros [E|H]; [inversion E; auto|auto].
    + intros [E|H]; [auto|]. destruct (IH H); auto.
Qed.

Lemma elem_of_assocSet_key {V} k (v : V) (l : list (string * V)) k' v' :
  (k', v') ∈ assocSet k v l → (k', v') ∈ l ∨ (k' = k ∧ v' = v).
Proof.
  induction l as [|[k0 v0] l IH]; simpl.
  - intros H. apply list_elem_of_singleton in H. inversion H. auto.
  - destruct (String.eqb_spec k0 k) as [->|N]; rewrite !elem_of_cons.
    + intros [E|H]; [inversion E; auto|auto].
    + intros [E|H]; [auto|]. destruct (IH H); auto.
Qed.

Lemma fst_map_second {K V W} (f : V → W) (l : list (K * V)) :
  map fst (map (λ '(k, v), (k, f v)) l) = map fst l.
Proof.
  induction l as [|[k v] l IH]; [reflexivity|]. simpl. rewrite IH. reflexivity.
Qed.

Section PersistFacts.
Context {text : JsText}.

Lemma watchOfJson_watchToJson x : Persist.watchOfJson (Persist.watchToJson x) = x.
Proof.
  destruct x as [n k th im last]. unfold Persist.watchOfJson, Persist.watchToJson.
  destruct last as [t|]; cbn -[JsVal.truthy]; [|reflexivity].
  rewrite (JsFacts.truthy_nonempty _ (toISOString_nonempty t)).
  rewrite dateParse_toISOString. reflexivity.
Qed.

Lemma restore_watches (ws acc : list (Z * Watch)) :
  NoDup (map fst acc ++ map fst ws) →
  (∀ n x, (n, x) ∈ ws → watchId x = n) →
  foldl (λ m j, let x := Persist.watchOfJson j in watchSet (watchId x) x m) acc
        (map (λ '(_, x), Persist.watchToJson x) ws)
  = (acc ++ ws)%list.
Proof.
  revert acc. induction ws as [|[n x] ws IH]; intros acc Hnd Hkey; simpl.
  - rewrite app_nil_r. reflexivity.
  - rewrite watchOfJson_watchToJson.
    assert (Hn : watchId x = n) by (apply Hkey; left).
    rewrite Hn. simpl in Hnd.
    apply NoDup_app in Hnd as (Hacc & Hdis & Hws).
    apply NoDup_cons in Hws as [Hn' Hws].
    rewrite watchSet_fresh.
    + rewrite IH.
      * rewrite <- app_assoc. reflexivity.
      * rewrite map_app. simpl. rewrite <- app_assoc. simpl.
        apply NoDup_app. split; [exact Hacc|]. split.
        -- intros m Hm. apply Hdis, Hm.
        -- apply NoDup_cons. split; assumption.
      * intros m y Hy. apply Hkey. right. exact Hy.
    + intros Hin. apply (Hdis n Hin). left.
Qed.

Lemma restore_flags (m : gmap string bool) :
  Persist.asFlags (Some (JObj (map (λ '(k, b), (k, JBool b)) (map_to_list m)))) = m.
Proof.
  unfold Persist.asFlags.
  assert (E : ∀ l : list (string * bool),
            omap (λ '(k, b), match b with JBool b => Some (k, b) | _ => None end)
                 (map (λ '(k, b), (k, JBool b)) l) = l).
  { induction l as [|[k b] l IH]; [reflexivity|]. cbn. f_equal. exact IH. }
  rewrite E. apply list_to_map_to_list.
Qed.

Lemma restore_text v : Persist.orNull (Persist.asText (Some (Persist.textToJson v)))
                       = Persist.orNull v.
Proof.
  unfold Persist.textToJson.
  destruct (Persist.orNull v) as [s|] eqn:E; simpl; [|reflexivity].
  unfold Persist.orNull, JsVal.orElse in *.
  destruct (JsVal.truthy v) eqn:T; [|discriminate]. subst v. rewrite T. reflexivity.
Qed.

Lemma orOne_idem n : Persist.orOne (Persist.orOne n) = Persist.orOne n.
Proof.
  unfold Persist.orOne. destruct (Z.eqb_spec n 0); [reflexivity|].
  destruct (Z.eqb_spec n 0); [contradiction|reflexivity].
Qed.

Lemma orOne_spec n : Persist.orOne n = if decide (n = 0) then 1 else n.
Proof.
  unfold Persist.orOne. destruct (Z.eqb_spec n 0); destruct (decide (n = 0));
    try reflexivity; contradiction.
Qed.

Lemma orNull_keptText v : Persist.orNull v = keptText v.
Proof.
  unfold Persist.orNull, JsVal.orElse, JsVal.truthy, keptText.
  destruct v as [[|c s]|]; reflexivity.
Qed.

Lemma watchesOfJson_guildToJson cfg :
  watchesKeyed cfg → Persist.watchesOfJson (Persist.guildToJson cfg) = Some (watches cfg).
Proof.
  intros [Hnd Hkey]. unfold Persist.watchesOfJson, Persist.guildToJson.
  cbn [Persist.field assocGet String.eqb Ascii.eqb Bool.eqb].
  assert (E : existsb Persist.isNull (map (λ '(_, x), Persist.watchToJson x) (watches cfg))
              = false).
  { clear Hnd Hkey. induction (watches cfg) as [|[n x] ws IH]; [reflexivity|].
    simpl. exact IH. }
  rewrite E.
  pose proof (restore_watches (watches cfg) [] Hnd Hkey) as R. cbv zeta in R.
  rewrite R. reflexivity.
Qed.

(** Reading back what was written for a tenant. *)
Lemma guildOfJson_guildToJson cfg :
  watchesKeyed cfg → Persist.guildOfJson (Persist.guildToJson cfg) = Some (persisted cfg).
Proof.
  intros Hk. unfold Persist.guildOfJson. rewrite (watchesOfJson_guildToJson cfg Hk).
  unfold Persist.guildToJson, persisted.
  cbn [Persist.isNull Persist.field assocGet String.eqb Ascii.eqb Bool.eqb].
  rewrite !restore_text, restore_flags, !orNull_keptText. simpl.
  rewrite orOne_idem, orOne_spec. reflexivity.
Qed.

Lemma guildToJson_keys cfg :
  ∃ entries, Persist.guildToJson cfg = JObj entries ∧ map fst entries = storedKeys
             ∧ Persist.field "lastSeenPlayers" (Persist.guildToJson cfg) = None.
Proof. eexists. split; [reflexivity|]. split; reflexivity. Qed.

(** The restore loop sets the entries it can read, up to the first one
    it cannot, where it throws. *)
Lemma restore_loop (file : list (string * Json)) w :
  ∃ r,
    forEach file (λ '(guildId, stored),
      match Persist.guildOfJson stored with
      | Some cfg => modify (λ w, setGuildConfigs (assocSet guildId cfg (guildConfigs w)) w)
      | None => throw "Cannot read properties of null"
      end) w
    = (r, setGuildConfigs (restoreInto (guildConfigs w) (readableEntries file)) w).
Proof.
  revert w. induction file as [|[g stored] file IH]; intros w; simpl.
  - exists (Returned tt). destruct w; reflexivity.
  - unfold bind. destruct (Persist.guildOfJson stored) as [cfg|]; simpl.
    + destruct (IH (setGuildConfigs (assocSet g cfg (guildConfigs w)) w)) as (r & E).
      exists r. rewrite E. reflexivity.
    + unfold throw. eexists. destruct w; reflexivity.
Qed.

Lemma load_run w file :
  configFile w = Some file →
  Persist.loadGuildConfigsFromDisk w
  = (Returned tt, setGuildConfigs (restoreInto [] (readableEntries file)) w).
Proof.
  intros Hf. unfold Persist.loadGuildConfigsFromDisk, tryCatch.
  unfold bind at 1. unfold gets at 1. rewrite Hf.
  unfold bind at 1. unfold modify at 1.
  destruct (restore_loop file (setGuildConfigs [] w)) as (r & E). rewrite E.
  destruct r as [[]|e]; destruct w; reflexivity.
Qed.

Lemma readable_saved (guilds : list (string * GuildConfig)) :
  (∀ g cfg, (g, cfg) ∈ guilds → watchesKeyed cfg) →
  readableEntries (map (λ '(guildId, cfg), (guildId, Persist.guildToJson cfg)) guilds)
  = map (λ '(guildId, cfg), (guildId, persisted cfg)) guilds.
Proof.
  induction guilds as [|[g cfg] guilds IH]; intros Hkey; simpl; [reflexivity|].
  rewrite guildOfJson_guildToJson by (eapply Hkey; left).
  rewrite IH; [reflexivity|]. intros g' cfg' H'. eapply Hkey. right. exact H'.
Qed.

Lemma restoreInto_fresh (entries acc : list (string * GuildConfig)) :
  NoDup (map fst acc ++ map fst entries) → restoreInto acc entries = (acc ++ entries)%list.
Proof.
  unfold restoreInto.
  revert acc. induction entries as [|[g cfg] entries IH]; intros acc Hnd; simpl.
  - rewrite app_nil_r. reflexivity.
  - simpl in Hnd. apply NoDup_app in Hnd as (Hacc & Hdis & Hgs).
    apply NoDup_cons in Hgs as [Hg Hgs].
    rewrite assocSet_fresh.
    + rewrite IH.
      * rewrite <- app_assoc. reflexivity.
      * rewrite map_app. simpl. rewrite <- app_assoc. simpl.
        apply NoDup_app. split; [exact Hacc|]. split.
        -- intros m Hm. apply Hdis, Hm.
        -- apply NoDup_cons. split; assumption.
    + intros Hin. apply (Hdis g Hin). left.
Qed.

Lemma guildOfJson_unseen stored cfg :
  Persist.guildOfJson stored = Some cfg →
  lastSeenPlayers cfg = ∅ ∧ lastRefreshMessageId cfg = None.
Proof.
  unfold Persist.guildOfJson. destruct (Persist.isNull stored); [discriminate|].
  destruct (Persist.watchesOfJson stored); [|discriminate].
  intros H. injection H as <-. split; reflexivity.
Qed.

Lemma readable_unseen (file : list (string * Json)) g cfg :
  (g, cfg) ∈ readableEntries file → lastSeenPlayers cfg = ∅.
Proof.
  induction file as [|[g0 stored] file IH]; simpl; [intros H; inversion H|].
  destruct (Persist.guildOfJson stored) as [cfg0|] eqn:E; [|intros H; inversion H].
  rewrite elem_of_cons. intros [H|H]; [|exact (IH H)].
  injection H as -> ->. apply (guildOfJson_unseen _ _ E).
Qed.

Lemma restoreInto_elem (entries acc : list (string * GuildConfig)) g cfg :
  (g, cfg) ∈ restoreInto acc entries → (g, cfg) ∈ acc ∨ (g, cfg) ∈ entries.
Proof.
  unfold restoreInto.
  revert acc. induction entries as [|[g0 cfg0] entries IH]; intros acc; simpl; [auto|].
  intros H. apply IH in H as [H|H]; [|right; right; exact H].
  destruct (elem_of_assocSet_key _ _ _ _ _ H) as [H'|[-> ->]]; [left; exact H'|right; left].
Qed.

Lemma restored_empty (file : list (string * Json)) g cfg :
  (g, cfg) ∈ restoreInto [] (readableEntries file) → lastSeenPlayers cfg = ∅.
Proof.
  intros H. apply restoreInto_elem in H as [H|H]; [inversion H|].
  exact (readable_unseen file g cfg H).
Qed.

(** C8. [saveGuildConfigsToDisk] writes, for each tenant in order, an
    object with exactly the seven keys of the persisted fields: it has no
    [lastSeenPlayers] entry. [loadGuildConfigsFromDisk] on any file gives
    every tenant an empty last-seen map. A process started again on the
    file a world saved has the same tenants in the same order. Each comes
    back with its alert flags and its watches (threshold, interval and
    [lastAlertAt] included) as they were; with its next watch number as
    it was, or 1 if that was 0; with its alert channel, ping role,
    default region and refresh channel as they were, or null if they were
    missing or empty; and with nothing remembered as seen and no refresh
    message. *)
Theorem tenants_saved_and_restored :
  (∀ w, ∃ file,
     Persist.saveGuildConfigsToDisk w = (Returned tt, setConfigFile (Some file) w)
     ∧ map fst file = map fst (guildConfigs w)
     ∧ ∀ g stored, (g, stored) ∈ file →
         ∃ entries, stored = JObj entries ∧ map fst entries = storedKeys
                    ∧ Persist.field "lastSeenPlayers" stored = None)
  ∧ (∀ w file, configFile w = Some file →
       ∃ w', Persist.loadGuildConfigsFromDisk w = (Returned tt, w')
             ∧ ∀ g cfg, (g, cfg) ∈ guildConfigs w' → lastSeenPlayers cfg = ∅)
  ∧ (∀ w t, tenantsKeyed (guildConfigs w) →
       let saved := finalWorld Persist.saveGuildConfigsToDisk w in
       let again := finalWorld Persist.loadGuildConfigsFromDisk (restarted t saved) in
       guildConfigs again = map (λ '(g, cfg), (g, persisted cfg)) (guildConfigs w)
       ∧ (∀ i g cfg, guildConfigs w !! i = Some (g, cfg) →
            ∃ cfg', guildConfigs again !! i = Some (g, cfg')
              ∧ alertEnabled cfg' = alertEnabled cfg
              ∧ watches cfg' = watches cfg
              ∧ (nextWatchId cfg ≠ 0 → nextWatchId cfg' = nextWatchId cfg)
              ∧ (nextWatchId cfg = 0 → nextWatchId cfg' = 1)
              ∧ alertChannelId cfg' = keptText (alertChannelId cfg)
              ∧ pingRoleId cfg' = keptText (pingRoleId cfg)
              ∧ defaultRegion cfg' = keptText (defaultRegion cfg)
              ∧ refreshChannelId cfg' = keptText (refreshChannelId cfg)
              ∧ lastSeenPlayers cfg' = ∅
              ∧ lastRefreshMessageId cfg' = None)
       ∧ ∀ g cfg, (g, cfg) ∈ guildConfigs again → lastSeenPlayers cfg = ∅).
Proof.
  split; [|split].
  - intros w. eexists. split; [reflexivity|]. split.
    + rewrite <- list_fmap_compose. apply list_fmap_ext. intros i [g cfg] _. reflexivity.
    + intros g stored Hin. apply list_elem_of_fmap in Hin as ([g' cfg] & E & _).
      inversion E; subst. apply guildToJson_keys.
  - intros w file Hf. eexists. split; [apply load_run, Hf|]. simpl.
    intros g cfg Hin. exact (restored_empty file g cfg Hin).
  - intros w t [Hnd Hkey] saved again.
    assert (E : guildConfigs again
                = map (λ '(g, cfg), (g, persisted cfg)) (guildConfigs w)).
    { unfold again, saved, finalWorld.
      rewrite (load_run _ (map (λ '(g, cfg), (g, Persist.guildToJson cfg)) (guildConfigs w)))
        by reflexivity.
      simpl. rewrite (readable_saved (guildConfigs w) Hkey).
      rewrite restoreInto_fresh; [reflexivity|].
      simpl. rewrite fst_map_second. exact Hnd. }
    split; [exact E|]. split.
    + intros i g cfg Hi. exists (persisted cfg). rewrite E, list_lookup_fmap, Hi.
      split; [reflexivity|]. split; [reflexivity|]. split; [reflexivity|].
      unfold persisted; simpl. split; [|split].
      * intros N. destruct (decide (nextWatchId cfg = 0)); [contradiction|reflexivity].
      * intros Z0. destruct (decide (nextWatchId cfg = 0)); [reflexivity|contradiction].
      * repeat split.
    + rewrite E. intros g cfg Hin.
      apply list_elem_of_fmap in Hin as ([g' cfg'] & E' & _). inversion E'. reflexivity.
Qed.

End PersistFacts.

Lemma tenants_saved_and_restored_witness :
  let w := SampleTenant.world 0 SampleLobby.five ["a"; "b"] in
  let saved := finalWorld (Persist.saveGuildConfigsToDisk (text := SampleRuntime.text)) w in
  let again := finalWorld (Persist.loadGuildConfigsFromDisk (text := SampleRuntime.text))
                 (restarted 9 saved) in
  guildConfigs again = [("guild", persisted (SampleTenant.tenant ["a"; "b"]))]
  ∧ (∃ cfg', guildConfigs again !! 0%nat = Some ("guild", cfg')
       ∧ watches cfg' = watches (SampleTenant.tenant ["a"; "b"])
       ∧ nextWatchId cfg' = nextWatchId (SampleTenant.tenant ["a"; "b"])
       ∧ alertChannelId cfg' = alertChannelId (SampleTenant.tenant ["a"; "b"])
       ∧ lastSeenPlayers cfg' = ∅)
  ∧ ∀ g cfg, (g, cfg) ∈ guildConfigs again → lastSeenPlayers cfg = ∅.
Proof.
  intros w.
  destruct (tenants_saved_and_restored (text := SampleRuntime.text)) as (_ & _ & restore).
  assert (K : tenantsKeyed (guildConfigs w)).
  { split.
    - apply NoDup_singleton.
    - intros g cfg Hin. apply list_elem_of_singleton in Hin. inversion Hin. split.
      + apply NoDup_singleton.
      + intros n x Hx. apply list_elem_of_singleton in Hx. inversion Hx. reflexivity. }
  destruct (restore w 9 K) as (E & F & G).
  split; [exact E|]. split; [|exact G].
  destruct (F 0%nat "guild" (SampleTenant.tenant ["a"; "b"]) eq_refl)
    as (cfg' & H0 & _ & Hw & Hn & _ & Ha & _ & _ & _ & Hs & _).
  exists cfg'. split; [exact H0|]. split; [exact Hw|]. split.
  - apply Hn. vm_compute. discriminate.
  - split; [|exact Hs]. rewrite Ha. reflexivity.
Defined.

(** A watch that has fired keeps its time across the restart. *)
Example restart_keeps_lastAlertAt :
  let cfg := withWatches [(1, SampleLobby.watch1 (Some 1000000))]
               (SampleTenant.tenant ["a"]) in
  watches <$> Persist.guildOfJson (text := SampleRuntime.text)
                (Persist.guildToJson (text := SampleRuntime.text) cfg)
  = Some [(1, SampleLobby.watch1 (Some 1000000))].
Proof. vm_compute. reflexivity. Qed.

(** A file whose second entry is null: the restore keeps the tenant of
    the first entry and stops; the tenants it had before are gone. *)
Example restore_stops_at_null_entry :
  let stored := Persist.guildToJson (text := SampleRuntime.text) (SampleTenant.tenant []) in
  let file := [("first", stored); ("second", JNull); ("third", stored)] in
  let w := setConfigFile (Some file) (SampleTenant.world 0 [] []) in
  let w' := finalWorld (Persist.loadGuildConfigsFromDisk (text := SampleRuntime.text)) w in
  map fst (guildConfigs w) = ["guild"] ∧ map fst (guildConfigs w') = ["first"].
Proof. vm_compute. split; reflexivity. Qed.

(** * Further properties of the code *)

(** ** What a fetch stores *)

Lemma mapM_fmap_Some {A B} (f : A → B) (l : list (option A)) mapped :
  mapM (fmap f) l = Some mapped ↔ ∃ raw, l = map Some raw ∧ mapped = map f raw.
Proof.
  revert mapped. induction l as [|a l IH]; intros mapped; simpl.
  - split.
    + intros H. injection H as <-. exists []. auto.
    + intros (raw & E & ->). destruct raw; [reflexivity|discriminate].
  - destruct a as [a|]; simpl.
    + destruct (mapM (fmap f) l) as [rest|] eqn:M; simpl.
      * split.
        -- intros H. injection H as <-.
           destruct (proj1 (IH rest) eq_refl) as (raw & -> & ->). exists (a :: raw). auto.
        -- intros (raw & E & ->). destruct raw as [|a' raw]; [discriminate|].
           injection E as <- ->.
           assert (E : Some rest = Some (map f raw)) by (apply IH; eauto).
           injection E as ->. reflexivity.
      * split; [discriminate|]. intros (raw & E & ->).
        destruct raw as [|a' raw]; [discriminate|]. injection E as <- ->.
        assert (E : None = Some (map f raw)) by (apply IH; eauto). discriminate.
    + split; [discriminate|]. intros (raw & E & _). destruct raw; discriminate.
Qed.

Lemma map_Some_no_null {A} (l : list (option A)) :
  (∃ raw, l = map Some raw) ↔ None ∉ l.
Proof.
  induction l as [|a l IH].
  - split; [intros _; apply not_elem_of_nil|]. intros _. exists []. reflexivity.
  - rewrite not_elem_of_cons, <- IH. split.
    + intros (raw & E). destruct raw as [|a' raw]; [discriminate|]. injection E as -> ->.
      split; [discriminate|eauto].
    + intros [Ha (raw & ->)]. destruct a as [a|]; [|contradiction]. exists (a :: raw).
      reflexivity.
Qed.

Section FetchMore.
Context {text : JsText} (out : Outside).

Lemma attachUsd_fields price p :
  privyId (attachUsd price p) = privyId p ∧ id (attachUsd price p) = id p
  ∧ name (attachUsd price p) = name p ∧ size (attachUsd price p) = size p
  ∧ monetaryValue (attachUsd price p) = monetaryValue p.
Proof. repeat split. Qed.

Lemma attachUsd_usable price p :
  rateUsable price →
  ∃ r, price = Some r ∧ usdFromSol (attachUsd price p) = (λ m, times m r) <$> monetaryValue p.
Proof.
  intros (r & -> & Hr). exists r. split; [reflexivity|].
  unfold attachUsd. simpl. destruct (monetaryValue p) as [m|]; [|reflexivity]. simpl.
  assert (E : Qeq_bool r 0 = false).
  { destruct (Qeq_bool r 0) eqn:E; [|reflexivity].
    apply Qeq_bool_eq in E. rewrite E in Hr. exfalso. apply (Qlt_irrefl 0 Hr). }
  rewrite E. simpl. apply JsFacts.gtb_lt in Hr. rewrite Hr. reflexivity.
Qed.

Lemma attachUsd_unusable price p :
  ¬ rateUsable price → usdFromSol (attachUsd price p) = None.
Proof.
  intros H. unfold attachUsd. simpl.
  destruct (monetaryValue p) as [m|]; [|reflexivity].
  destruct price as [r|]; [|reflexivity].
  destruct (JsVal.gtb r 0) eqn:G.
  - exfalso. apply H. exists r. split; [reflexivity|]. apply JsFacts.gtb_lt, G.
  - rewrite andb_false_r. reflexivity.
Qed.

(** The reply behind a snapshot that a fetch of a supported lobby
    returned. *)
Lemma fetch_success_reply l w u s w' :
  url l = Some u → u ≠ "" →
  fetchLobbyPlayers out l w = (Returned (Some s), w') →
  ∃ d raw, httpGet out (calls w) u = HttpOk (Some d) ∧ success d = true
       ∧ default [] (bodyPlayers d) = map Some raw
       ∧ players s = map (attachUsd (solPriceUsd w)) raw
       ∧ playerCount s = default (Z.of_nat (length raw)) (bodyPlayerCount d).
Proof.
  intros Hu Hne H. rewrite (fetch_supported_run out l w u Hu Hne) in H. cbv zeta in H.
  destruct (httpGet out (calls w) u) as [e|[d|]] eqn:Hr; try discriminate.
  destruct (success d) eqn:Hs; [|discriminate].
  destruct (mapM _ _) as [mapped|] eqn:M; [|discriminate].
  apply mapM_fmap_Some in M as (raw & Eraw & ->).
  exists d, raw. split; [reflexivity|]. split; [exact Hs|]. split; [exact Eraw|].
  rewrite Eraw, length_map in H. injection H as <- _. simpl. auto.
Qed.

Lemma fetch_good_reply l w u d raw :
  url l = Some u → u ≠ "" →
  httpGet out (calls w) u = HttpOk (Some d) → success d = true →
  default [] (bodyPlayers d) = map Some raw →
  ∃ s w', fetchLobbyPlayers out l w = (Returned (Some s), w').
Proof.
  intros Hu Hne Hr Hs Hraw. rewrite (fetch_supported_run out l w u Hu Hne). cbv zeta.
  rewrite Hr, Hs.
  destruct (mapM _ _) as [mapped|] eqn:M; [eauto|].
  assert (E : mapM (fmap (attachUsd (solPriceUsd w))) (default [] (bodyPlayers d))
              = Some (map (attachUsd (solPriceUsd w)) raw)).
  { apply mapM_fmap_Some. eauto. }
  congruence.
Qed.

(** X1. Every player of a snapshot that [fetchLobbyPlayers] returns is
    the record the upstream lists at the same position, with its
    identifiers, name, size and native value as the upstream gave them
    and with nothing but the USD value set: the product of the native
    value and the rate cached at that moment when the native value is a
    number and the rate is a positive number, and null when the rate is
    missing, zero or negative or the native value is no number. *)
Theorem usd_attached_at_fetch (l : LobbyDef) (w w' : World) (s : Snapshot) :
  fetchLobbyPlayers out l w = (Returned (Some s), w') →
  ∀ i p, players s !! i = Some p →
    ∃ u d q,
      url l = Some u
      ∧ httpGet out (calls w) u = HttpOk (Some d)
      ∧ default [] (bodyPlayers d) !! i = Some (Some q)
      ∧ privyId p = privyId q ∧ id p = id q ∧ name p = name q ∧ size p = size q
      ∧ monetaryValue p = monetaryValue q
      ∧ (∀ r, solPriceUsd w = Some r → (0 < r)%Q →
              usdFromSol p = (λ m, times m r) <$> monetaryValue q)
      ∧ (¬ rateUsable (solPriceUsd w) → usdFromSol p = None)
      ∧ (monetaryValue q = None → usdFromSol p = None).
Proof.
  intros H i p Hp. destruct (JsVal.truthy (url l)) eqn:Hu.
  - destruct (JsFacts.truthy_Some _ Hu) as (u & Eu & Hne).
    destruct (fetch_success_reply l w u s w' Eu Hne H) as (d & raw & Hr & _ & Hraw & Hps & _).
    rewrite Hps, list_lookup_fmap in Hp.
    destruct (raw !! i) as [q|] eqn:Hq; [|discriminate]. injection Hp as <-.
    exists u, d, q. split; [exact Eu|]. split; [exact Hr|].
    split; [rewrite Hraw, list_lookup_fmap, Hq; reflexivity|].
    repeat (split; [reflexivity|]). split; [|split].
    + intros r Er Hpos.
      destruct (attachUsd_usable (solPriceUsd w) q) as (r' & Er' & E); [exists r; auto|].
      rewrite Er in Er'. injection Er' as <-. exact E.
    + apply attachUsd_unusable.
    + intros Hm. unfold attachUsd. simpl. rewrite Hm. reflexivity.
  - destruct (fetch_unsupported out l w Hu) as (s0 & E & _ & Hps & _).
    rewrite E in H. inversion H; subst. rewrite Hps in Hp. discriminate.
Qed.

Lemma filter_attachUsd (P : Player → bool) price raw :
  (∀ p, P (attachUsd price p) = P p) →
  filter (λ p, P p = true) (map (attachUsd price) raw)
  = map (attachUsd price) (filter (λ p, P p = true) raw).
Proof.
  intros HP. induction raw as [|a raw IH]; [reflexivity|].
  change (map (attachUsd price) (a :: raw))
    with (attachUsd price a :: map (attachUsd price) raw).
  rewrite !filter_cons, IH.
  destruct (decide (P (attachUsd price a) = true)) as [H|H];
    destruct (decide (P a = true)) as [H'|H']; try reflexivity;
    rewrite HP in H; contradiction.
Qed.

Lemma currentIdsOf_attachUsd price raw :
  currentIdsOf (map (attachUsd price) raw) = currentIdsOf raw.
Proof.
  unfold currentIdsOf. f_equal. f_equal. rewrite <- list_fmap_compose.
  apply list_fmap_ext. intros i p _. reflexivity.
Qed.

(** X2. For a lobby with an endpoint, [fetchLobbyPlayers] returns a
    snapshot exactly when the request is answered with a body whose
    success flag is truthy and whose player list has no null element (a
    null element makes the mapping throw, and the catch returns null).
    The snapshot then lists the upstream players in the upstream order,
    one for one: a missing list reads as no player, a missing count as
    the length of the list, and the active players, their number and the
    current identifiers computed from the snapshot are those of the
    upstream list. The snapshot returned is the entry the cache holds
    for the lobby afterwards, and no other entry of the cache changes. *)
Theorem fetch_success_keeps_upstream_players (l : LobbyDef) (w : World) (u : string) :
  url l = Some u → u ≠ "" →
  ((∃ s w', fetchLobbyPlayers out l w = (Returned (Some s), w'))
   ↔ ∃ d, httpGet out (calls w) u = HttpOk (Some d) ∧ success d = true
          ∧ None ∉ default [] (bodyPlayers d))
  ∧ ∀ s w', fetchLobbyPlayers out l w = (Returned (Some s), w') →
      ∃ d raw, httpGet out (calls w) u = HttpOk (Some d)
           ∧ default [] (bodyPlayers d) = map Some raw
           ∧ length (players s) = length raw
           ∧ map playerKey (players s) = map playerKey raw
           ∧ map size (players s) = map size raw
           ∧ map name (players s) = map name raw
           ∧ playerCount s = default (Z.of_nat (length raw)) (bodyPlayerCount d)
           ∧ length (filter (λ p, watchActive p = true) (players s))
             = length (filter (λ p, watchActive p = true) raw)
           ∧ currentIdsOf (filter (λ p, joinActive p = true) (players s))
             = currentIdsOf (filter (λ p, joinActive p = true) raw)
           ∧ lobbyCache w' !! key l = Some s
           ∧ ∀ k, k ≠ key l → lobbyCache w' !! k = lobbyCache w !! k.
Proof.
  intros Hu Hne. split.
  - split.
    + intros (s & w' & H).
      destruct (fetch_success_reply l w u s w' Hu Hne H) as (d & raw & Hr & Hs & Hraw & _).
      exists d. split; [exact Hr|]. split; [exact Hs|]. apply map_Some_no_null. eauto.
    + intros (d & Hr & Hs & Hnull). apply map_Some_no_null in Hnull as (raw & Hraw).
      eapply fetch_good_reply; eassumption.
  - intros s w' H.
    destruct (fetch_success_reply l w u s w' Hu Hne H) as (d & raw & Hr & _ & Hraw & Hps & Hc).
    destruct (fetch_supported_stores out l w u s w' Hu Hne H) as (Hcache & _).
    exists d, raw. split; [exact Hr|]. split; [exact Hraw|].
    rewrite Hps. split; [apply length_map|].
    split; [rewrite <- list_fmap_compose; reflexivity|].
    split; [rewrite <- list_fmap_compose; reflexivity|].
    split; [rewrite <- list_fmap_compose; reflexivity|].
    split; [exact Hc|]. split; [|split; [|split]].
    + rewrite (filter_attachUsd watchActive) by reflexivity. apply length_map.
    + rewrite (filter_attachUsd joinActive) by reflexivity.
      apply currentIdsOf_attachUsd.
    + rewrite Hcache. apply lookup_insert_eq.
    + intros k Hk. rewrite Hcache. apply lookup_insert_ne. congruence.
Qed.

(** X3. An entry that is 5000 ms old or older is not served: for a lobby
    with an endpoint [getLobbySnapshot] makes one request, and when that
    request fails or its reply is not a success the caller gets null
    while the old entry stays in the cache. *)
Theorem stale_entry_refetched (l : LobbyDef) (w : World) (u : string) (old : Snapshot) :
  url l = Some u → u ≠ "" →
  lobbyCache w !! key l = Some old →
  5000 ≤ clock w - lastFetched old →
  networkCalls (getLobbySnapshot out l) w = 1%nat
  ∧ (match httpGet out (calls w) u with
     | HttpOk (Some d) => success d = false
     | _ => True
     end →
     ∃ w', getLobbySnapshot out l w = (Returned None, w')
           ∧ lobbyCache w' !! key l = Some old).
Proof.
  intros Hu Hne Hc Hold.
  assert (E : getLobbySnapshot out l w = fetchLobbyPlayers out l w).
  { rewrite getLobbySnapshot_unfold. unfold cacheFresh. rewrite Hc.
    destruct (Z.ltb_spec (clock w - lastFetched old) 5000); [lia|reflexivity]. }
  split.
  - unfold networkCalls, finalWorld. rewrite E.
    destruct (fetchLobbyPlayers out l w) as [r w'] eqn:F. simpl.
    destruct (fetch_supported_log out l w u Hu Hne r w' F) as (Hn & _).
    rewrite Hn, length_app. simpl. lia.
  - intros Hbad. rewrite E.
    destruct (fetchLobbyPlayers out l w) as [r w'] eqn:F.
    destruct (fetch_cache out l w r w' F) as [Hsame|(s & _ & -> & _)].
    + destruct r as [[s|]|e].
      * destruct (fetch_success_reply l w u s w' Hu Hne F) as (d & raw & Hr & Hs & _).
        rewrite Hr, Hs in Hbad. discriminate.
      * exists w'. split; [reflexivity|]. rewrite Hsame. exact Hc.
      * destruct (fetch_total out l w) as (r0 & w0 & T). congruence.
    + destruct (fetch_success_reply l w u s w' Hu Hne F) as (d & raw & Hr & Hs & _).
      rewrite Hr, Hs in Hbad. discriminate.
Qed.

(** Fetching a list of lobbies asks each endpoint once, in order. *)
Lemma fetch_all_requests (ls : list LobbyDef) w :
  ∃ w', forEach ls (λ l, run fetchLobbyPlayers out l in ret tt) w = (Returned tt, w')
        ∧ netLog w' = (netLog w ++ endpointsOf ls)%list
        ∧ guildConfigs w' = guildConfigs w ∧ sendLog w' = sendLog w.
Proof.
  revert w. induction ls as [|l ls IH]; intros w.
  - exists w. simpl. rewrite app_nil_r. auto.
  - simpl. unfold bind at 1. unfold bind at 1.
    destruct (fetch_total out l w) as (r & w1 & F). rewrite F. unfold ret at 1.
    destruct (IH w1) as (w' & E & Hn & Hg & Hs). exists w'.
    split; [exact E|]. rewrite Hn, Hg, Hs. clear IH E Hn Hg Hs.
    unfold endpointsOf. cbn [omap list_omap].
    destruct (JsVal.truthy (url l)) eqn:Hu.
    + destruct (JsFacts.truthy_Some _ Hu) as (u & Eu & Hne).
      destruct (fetch_supported_log out l w u Eu Hne _ w1 F) as (H1 & _ & _ & H2 & H3).
      rewrite H1, H2, H3, Eu. rewrite <- app_assoc. auto.
    + destruct (fetch_unsupported out l w Hu) as (s & E & _).
      rewrite E in F. inversion F; subst. simpl. auto.
Qed.

End FetchMore.

(** ** The poll cycle as a whole *)

#[local] Instance keepsView_refl {B} (view : World → B) good : Reflexive (keepsView view good).
Proof. intros w _. reflexivity. Qed.

#[local] Instance keepsView_trans {B} (view : World → B) good :
  Transitive (keepsView view good).
Proof.
  intros w1 w2 w3 H1 H2 G. unfold keepsView in *.
  rewrite H2; [apply H1, G|]. rewrite H1; assumption.
Qed.

Lemma agreeOn_keepsView {A B} (view : World → B) good (m : Js A) :
  preserves (agreeOn view) m → preserves (keepsView view good) m.
Proof. intros Hm w r w' H _. apply (Hm w r w' H). Qed.

Lemma assocGet_elem {V} k (l : list (string * V)) v :
  assocGet k l = Some v → (k, v) ∈ l.
Proof.
  induction l as [|[k' v'] l IH]; simpl; [discriminate|].
  destruct (String.eqb_spec k' k) as [->|N].
  - intros H. inversion H. left.
  - intros H. right. apply IH, H.
Qed.

Lemma forEach_idle {A} (l : list A) (body : A → Js unit) w :
  (∀ x, x ∈ l → body x w = (Returned tt, w)) → forEach l body w = (Returned tt, w).
Proof.
  induction l as [|x l IH]; intros H; [reflexivity|].
  simpl. unfold bind. rewrite (H x) by left.
  apply IH. intros y Hy. apply H. right. exact Hy.
Qed.

Section CycleFacts.
Context {text : JsText} (out : Outside).

(** X4. A poll cycle asks every endpoint of the registry once, in
    registry order, however fresh the cache is, and asks nothing else; it
    returns normally whatever the upstream and Discord do. When a join
    alert is rejected the cycle ends there: the watch pass of that cycle
    is not run. *)
Theorem poll_asks_every_endpoint (w : World) :
  ∃ w', pollLobbiesAndProcessAlerts out w = (Returned tt, w')
        ∧ netLog w' = (netLog w ++ endpointsOf LOBBIES)%list
        ∧ length (endpointsOf LOBBIES) = 5%nat
        ∧ ∃ w1, forEach LOBBIES (λ l, run fetchLobbyPlayers out l in ret tt) w
                = (Returned tt, w1)
                ∧ match processJoinAlerts out w1 with
                  | (Returned _, w2) => w' = finalWorld (processWatches out) w2
                  | (Thrown _, w2) => w' = w2
                  end.
Proof.
  destruct (fetch_all_requests out LOBBIES w) as (w1 & F & Hn & _).
  unfold pollLobbiesAndProcessAlerts, tryCatch.
  unfold bind at 1. rewrite F.
  destruct (processJoinAlerts out w1) as [r2 w2] eqn:J.
  assert (Hj : netLog w2 = netLog w1).
  { apply (processJoinAlerts_frame out netLog) in J; try reflexivity. exact J. }
  unfold bind at 1. rewrite J.
  destruct r2 as [[]|e].
  - destruct (processWatches out w2) as [r3 w3] eqn:W.
    assert (Hw : netLog w3 = netLog w2).
    { apply (processWatches_frame out netLog) in W; try reflexivity. exact W. }
    exists w3. split; [destruct r3 as [[]|e]; reflexivity|].
    split; [congruence|]. split; [reflexivity|].
    exists w1. split; [reflexivity|]. rewrite J. unfold finalWorld. rewrite W. reflexivity.
  - exists w2. split; [reflexivity|]. split; [congruence|].
    split; [reflexivity|]. exists w1. split; [reflexivity|]. rewrite J. reflexivity.
Qed.

(** X5. While no tenant has an alert channel that Discord resolves to
    a text channel, both alert passes do nothing at all: no message, no
    change of any tenant, not even of the last-seen sets. *)
Theorem passes_idle_without_channel (w : World) :
  noAlertChannel out w →
  processJoinAlerts out w = (Returned tt, w) ∧ processWatches out w = (Returned tt, w).
Proof.
  intros Hno.
  assert (idle : ∀ body g, g ∈ map fst (guildConfigs w) →
            forAlertChannel out g body w = (Returned tt, w)).
  { intros body g Hg. unfold forAlertChannel, getCfg.
    unfold bind, gets. destruct (assocGet g (guildConfigs w)) as [cfg|] eqn:E; [|reflexivity].
    destruct (Hno g cfg (assocGet_elem _ _ _ E)) as [H|H]; rewrite H;
      [reflexivity|]. destruct (JsVal.truthy (alertChannelId cfg)); reflexivity. }
  split.
  - unfold processJoinAlerts. unfold bind, gets.
    apply forEach_idle. intros g Hg. apply idle, Hg.
  - unfold processWatches. unfold bind, gets, dateNow.
    apply forEach_idle. intros g Hg. apply idle, Hg.
Qed.

Lemma tenantsWithoutLastSeen_alter k ids g guilds :
  map (λ '(g, c), (g, withoutLastSeen c)) (assocAlter (withLastSeen k ids) g guilds)
  = map (λ '(g, c), (g, withoutLastSeen c)) guilds.
Proof.
  induction guilds as [|[g' c] guilds IH]; [reflexivity|].
  simpl. destruct (String.eqb g' g); simpl; [reflexivity|]. rewrite IH. reflexivity.
Qed.

(** X6. The join pass changes nothing of the tenants but their
    last-seen sets: alert channel, alert flags, watches, ping role and
    the order of the tenants are as before, and the cache and the
    request log are untouched, whether the pass returns or throws. *)
Theorem join_pass_confined (w w' : World) (r : Outcome unit) :
  processJoinAlerts out w = (r, w') →
  tenantsWithoutLastSeen w' = tenantsWithoutLastSeen w
  ∧ lobbyCache w' = lobbyCache w ∧ netLog w' = netLog w.
Proof.
  intros H. split; [|split].
  - revert w r w' H.
    change (preserves (agreeOn tenantsWithoutLastSeen) (processJoinAlerts out)).
    unfold processJoinAlerts. frame.
    apply preserves_forEach; [tc_solve..|]. intros g _.
    unfold forAlertChannel. frame.
    apply preserves_forEach; [tc_solve..|]. intros l _.
    unfold joinAlertsForLobby. frame.
    + apply preserves_modify. intros w0. apply tenantsWithoutLastSeen_alter.
    + apply preserves_modify. intros w0. apply tenantsWithoutLastSeen_alter.
    + apply channelSend_frame; reflexivity.
  - apply (processJoinAlerts_frame out lobbyCache) in H; try reflexivity. exact H.
  - apply (processJoinAlerts_frame out netLog) in H; try reflexivity. exact H.
Qed.

End CycleFacts.

(** ** The watch pass stamps and nothing else *)

Lemma assocGet_fmap {V W} (f : V → W) k (l : list (string * V)) :
  assocGet k (map (λ '(g, c), (g, f c)) l) = f <$> assocGet k l.
Proof.
  induction l as [|[k' v] l IH]; [reflexivity|].
  simpl. destruct (String.eqb k' k); [reflexivity|exact IH].
Qed.

Lemma assocAlter_view {V W} (view : V → W) (f : V → V) k (l : list (string * V)) :
  (∀ v, assocGet k l = Some v → view (f v) = view v) →
  map (λ '(g, c), (g, view c)) (assocAlter f k l) = map (λ '(g, c), (g, view c)) l.
Proof.
  induction l as [|[k' v] l IH]; intros H; [reflexivity|].
  simpl in *. destruct (String.eqb k' k); simpl.
  - rewrite (H v eq_refl). reflexivity.
  - rewrite IH by exact H. reflexivity.
Qed.

Lemma watchAlter_stamp n x' (ws : list (Z * Watch)) e :
  NoDup (map fst ws) →
  (n, e) ∈ map (λ '(n, x), (n, withLastAlertAt None x)) ws →
  withLastAlertAt None x' = e →
  map (λ '(n, x), (n, withLastAlertAt None x)) (watchAlter (λ _, x') n ws)
  = map (λ '(n, x), (n, withLastAlertAt None x)) ws.
Proof.
  induction ws as [|[n0 x0] ws IH]; intros Hnd Hin He; [reflexivity|].
  simpl in *. apply NoDup_cons in Hnd as [Hn0 Hnd].
  destruct (Z.eqb_spec n0 n) as [->|N]; simpl.
  - f_equal. f_equal. rewrite He.
    apply elem_of_cons in Hin as [Hin|Hin]; [inversion Hin; reflexivity|].
    exfalso. apply Hn0. apply list_elem_of_fmap in Hin as ([n1 x1] & E1 & H1).
    inversion E1; subst. apply list_elem_of_fmap. exists (n1, x1). split; [reflexivity|exact H1].
  - f_equal. apply IH; [exact Hnd| |exact He].
    apply elem_of_cons in Hin as [Hin|Hin]; [inversion Hin; congruence|exact Hin].
Qed.

Section WatchPass.
Context {text : JsText} (out : Outside).

(** An iteration gives the watch back with at most a new stamp, and
    leaves the tenants alone. *)
Lemma evalWatch_result now g c p x w r w' :
  evalWatch out now g c p x w = (r, w') →
  guildConfigs w' = guildConfigs w
  ∧ ∀ x', r = Returned x' → withLastAlertAt None x' = withLastAlertAt None x.
Proof.
  intros H. split.
  - apply (evalWatch_frame out guildConfigs) in H; try reflexivity. exact H.
  - intros x' ->. unfold evalWatch in H.
    destruct (lobbyOfKey (lobbyKey x)) as [l|]; [|inversion H; reflexivity].
    unfold bind at 1 in H. unfold gets at 1 in H.
    destruct (lobbyCache w !! lobbyKey x) as [s|]; [|inversion H; reflexivity].
    destruct (noApi s); [inversion H; reflexivity|].
    destruct (_ <? _); [inversion H; reflexivity|].
    destruct (watchDue now x); [|inversion H; reflexivity].
    unfold channelSend, request, bind, modify, dateNow, gets, ret, throw in H.
    simpl in H. destruct (sendOk out (calls w)); inversion H. reflexivity.
Qed.

Lemma watch_iteration_keeps_view now g c p n x stamps :
  (n, withLastAlertAt None x) ∈ stamps →
  preserves
    (keepsView tenantsWithoutLastAlerts
       (λ view, ∃ c', assocGet g view = Some c' ∧ watches c' = stamps
                      ∧ NoDup (map fst stamps)))
    (let! x' := evalWatch out now g c p x in
     modifyCfg g (λ c, withWatches (watchAlter (λ _, x') n (watches c)) c)).
Proof.
  intros Hin w r w' H (c' & Hc' & Hst & Hnd).
  unfold tenantsWithoutLastAlerts in Hc'. rewrite assocGet_fmap in Hc'.
  destruct (assocGet g (guildConfigs w)) as [c0|] eqn:E0; [|discriminate].
  simpl in Hc'. injection Hc' as <-. simpl in Hst.
  unfold bind in H.
  destruct (evalWatch out now g c p x w) as [[x'|e] w1] eqn:E.
  - destruct (evalWatch_result _ _ _ _ _ _ _ _ E) as [Hg Hx].
    unfold modifyCfg, modify in H. injection H as _ <-.
    unfold tenantsWithoutLastAlerts. simpl. rewrite Hg.
    apply assocAlter_view. intros v Hv. rewrite E0 in Hv. inversion Hv; subst v.
    unfold withoutLastAlerts, withWatches. simpl. f_equal.
    apply (watchAlter_stamp n x' (watches c0) (withLastAlertAt None x)).
    + rewrite <- Hst in Hnd. rewrite fst_map_second in Hnd. exact Hnd.
    + rewrite Hst. exact Hin.
    + apply Hx. reflexivity.
  - destruct (evalWatch_result _ _ _ _ _ _ _ _ E) as [Hg _].
    injection H as _ <-. unfold tenantsWithoutLastAlerts. rewrite Hg. reflexivity.
Qed.

Lemma processWatches_keeps_view :
  preserves (keepsView tenantsWithoutLastAlerts watchKeysUnique) (processWatches out).
Proof.
  unfold processWatches. frame.
  apply preserves_forEach; [tc_solve..|]. intros g _.
  intros w r w' H G. unfold forAlertChannel, getCfg in H.
  unfold bind at 1 in H. unfold gets at 1 in H.
  destruct (assocGet g (guildConfigs w)) as [cfg|] eqn:E; [|inversion H; reflexivity].
  destruct (negb (JsVal.truthy (alertChannelId cfg))); [inversion H; reflexivity|].
  destruct (negb (textChannel out g _)); [inversion H; reflexivity|].
  pose (stamps := map (λ '(n, x), (n, withLastAlertAt None x)) (watches cfg)).
  assert (Hnd : NoDup (map fst stamps)).
  { assert (Hc : (g, withoutLastAlerts cfg) ∈ tenantsWithoutLastAlerts w).
    { apply list_elem_of_fmap. exists (g, cfg). split; [reflexivity|].
      apply assocGet_elem, E. }
    apply (G _ _ Hc). }
  eapply (preserves_forEach
            (keepsView tenantsWithoutLastAlerts
               (λ view, ∃ c', assocGet g view = Some c' ∧ watches c' = stamps
                              ∧ NoDup (map fst stamps)))); [| exact H |].
  - intros [n x] Hx. apply watch_iteration_keeps_view.
    apply list_elem_of_fmap. exists (n, x). split; [reflexivity|exact Hx].
  - exists (withoutLastAlerts cfg). unfold tenantsWithoutLastAlerts.
    rewrite assocGet_fmap, E. auto.
Qed.

Lemma watchKeysUnique_view guilds :
  watchKeysUnique guilds →
  watchKeysUnique (map (λ '(g, c), (g, withoutLastAlerts c)) guilds).
Proof.
  intros H g c Hin. apply list_elem_of_fmap in Hin as ([g' c'] & E & Hin).
  inversion E; subst. simpl. rewrite fst_map_second. apply (H g' c' Hin).
Qed.

(** X7. Where every map of watches has one entry per key, the watch
    pass changes nothing of the tenants but the [lastAlertAt] of their
    watches: no watch is added, dropped, re-keyed or re-targeted, no
    threshold or interval changes, and alert flags, last-seen sets and
    the cache are as before, whether the pass returns or throws. It
    sends no request upstream. The maps stay keyed as the restore of the
    tenants needs them. *)
Theorem watch_pass_confined (w w' : World) (r : Outcome unit) :
  watchKeysUnique (guildConfigs w) →
  processWatches out w = (r, w') →
  tenantsWithoutLastAlerts w' = tenantsWithoutLastAlerts w
  ∧ lobbyCache w' = lobbyCache w
  ∧ netLog w' = netLog w
  ∧ (tenantsKeyed (guildConfigs w) → tenantsKeyed (guildConfigs w')).
Proof.
  intros Hu H.
  assert (V : tenantsWithoutLastAlerts w' = tenantsWithoutLastAlerts w).
  { apply (processWatches_keeps_view w r w' H). apply watchKeysUnique_view, Hu. }
  split; [exact V|]. split; [|split].
  2: { pose proof H as H'.
       apply (processWatches_frame out netLog) in H'; try reflexivity. exact H'. }
  - assert (F : preserves (agreeOn lobbyCache) (processWatches out)).
    { unfold processWatches. frame.
      apply preserves_forEach; [tc_solve..|]. intros g _.
      unfold forAlertChannel. frame.
      apply preserves_forEach; [tc_solve..|]. intros [n x] _.
      unfold watchIteration. frame.
      - apply evalWatch_frame; reflexivity.
      - apply preserves_modify. intros w0. reflexivity. }
    apply (F w r w' H).
  - intros [Hg Hk]. split.
    + assert (E : map fst (guildConfigs w') = map fst (guildConfigs w)).
      { apply (f_equal (map fst)) in V. unfold tenantsWithoutLastAlerts in V.
        rewrite !fst_map_second in V. exact V. }
      rewrite E. exact Hg.
    + intros g c' Hin.
      assert (Hv : (g, withoutLastAlerts c') ∈ tenantsWithoutLastAlerts w).
      { rewrite <- V. apply list_elem_of_fmap. exists (g, c'). split; [reflexivity|exact Hin]. }
      apply list_elem_of_fmap in Hv as ([g0 c0] & E0 & Hin0).
      assert (Eg : g = g0) by (apply (f_equal fst) in E0; exact E0).
      assert (Ec : withoutLastAlerts c' = withoutLastAlerts c0)
        by (apply (f_equal snd) in E0; exact E0).
      subst g0. clear E0.
      destruct (Hk g c0 Hin0) as [Hnd Hid].
      assert (Ew : map (λ '(n, x), (n, withLastAlertAt None x)) (watches c')
                   = map (λ '(n, x), (n, withLastAlertAt None x)) (watches c0)).
      { apply (f_equal watches) in Ec. exact Ec. }
      split.
      * apply (f_equal (map fst)) in Ew. rewrite !fst_map_second in Ew.
        rewrite Ew. exact Hnd.
      * intros n x Hx.
        assert (Hs : (n, withLastAlertAt None x)
                     ∈ map (λ '(n, x), (n, withLastAlertAt None x)) (watches c0)).
        { rewrite <- Ew. apply list_elem_of_fmap. exists (n, x). split; [reflexivity|exact Hx]. }
        apply list_elem_of_fmap in Hs as ([n1 x1] & E1 & H1').
        assert (En : n = n1) by (apply (f_equal fst) in E1; exact E1).
        assert (Ex : withLastAlertAt None x = withLastAlertAt None x1)
          by (apply (f_equal snd) in E1; exact E1).
        subst n1. rewrite <- (Hid n x1 H1'). apply (f_equal watchId) in Ex. exact Ex.
Qed.

End WatchPass.

Lemma usd_attached_at_fetch_witness :
  ∃ s w', fetchLobbyPlayers (text := SampleRuntime.text) SampleUpstream.serving Sample.us1
            (SampleUpstream.priced 200)
          = (Returned (Some s), w')
          ∧ ∀ i p, players s !! i = Some p →
              ∃ q, bodyPlayers SampleUpstream.body = Some [Some (SampleUpstream.paying "a" 10 (1 # 2));
                                                          Some (SampleUpstream.paying "b" 2 1)]
                   ∧ [SampleUpstream.paying "a" 10 (1 # 2); SampleUpstream.paying "b" 2 1] !! i
                     = Some q
                   ∧ name p = name q ∧ size p = size q
                   ∧ usdFromSol p = (λ m, (m * 200)%Q) <$> monetaryValue q.
Proof.
  eexists _, _. split; [reflexivity|]. intros i p Hp.
  destruct (usd_attached_at_fetch (text := SampleRuntime.text) SampleUpstream.serving Sample.us1
              (SampleUpstream.priced 200) _ _ eq_refl i p Hp)
    as (u & d & q & _ & Hd & Hq & _ & _ & Hn & Hs & _ & usable & _).
  injection Hd as <-. exists q. split; [reflexivity|].
  split; [|split; [exact Hn|split; [exact Hs|]]].
  - destruct i as [|[|i]]; vm_compute in Hq; vm_compute; congruence.
  - apply (usable 200%Q); reflexivity.
Defined.

Lemma fetch_success_keeps_upstream_players_witness :
  ∃ s w', fetchLobbyPlayers (text := SampleRuntime.text) SampleUpstream.serving Sample.us1
            (SampleUpstream.priced 200)
          = (Returned (Some s), w')
          ∧ playerCount s = 2
          ∧ length (filter (λ p, watchActive p = true) (players s)) = 1%nat
          ∧ currentIdsOf (filter (λ p, joinActive p = true) (players s)) = ["a"]
          ∧ lobbyCache w' !! "us-1" = Some s.
Proof.
  destruct (fetch_success_keeps_upstream_players (text := SampleRuntime.text)
              SampleUpstream.serving Sample.us1 (SampleUpstream.priced 200)
              "https://damnbruh-game-server-instance-1-us.onrender.com/players"
              eq_refl) as [_ shape]; [discriminate|].
  eexists _, _. split; [reflexivity|].
  destruct (shape _ _ eq_refl)
    as (d & raw & Hd & Hraw & _ & _ & _ & _ & Hc & Ha & Hi & Hcache & _).
  injection Hd as <-. simpl in Hraw.
  destruct raw as [|a [|b [|c raw]]]; try discriminate Hraw.
  injection Hraw as <- <-.
  split; [exact Hc|]. split; [exact Ha|]. split; [exact Hi|exact Hcache].
Defined.

(** A reply that lists a player and a null: the mapping throws on the
    null, the fetch returns null and the cache keeps what it had. *)
Example fetch_null_player :
  let reply := {| success := true; bodyServerId := None; bodyPlayerCount := None;
                  bodyPlayers := Some [Some (SampleUpstream.paying "a" 10 (1 # 2)); None];
                  bodyTimestamp := None |} in
  let upstream := {| httpGet := λ _ _, HttpOk (Some reply); delay := λ _, 40%N;
                     sendOk := λ _, true; textChannel := λ _ _, true;
                     embedOk := λ _, true |} in
  let result := fetchLobbyPlayers (text := SampleRuntime.text) upstream Sample.us1 Sample.warm in
  fst result = Returned None
  ∧ lobbyCache (snd result) !! "us-1" = lobbyCache Sample.warm !! "us-1"
  ∧ length (netLog (snd result)) = 1%nat.
Proof. vm_compute. repeat split. Qed.

Lemma stale_entry_refetched_witness :
  networkCalls (getLobbySnapshot (text := SampleRuntime.text) SampleRuntime.offline Sample.us1) SampleUpstream.stale = 1%nat
  ∧ ∃ w', getLobbySnapshot (text := SampleRuntime.text) SampleRuntime.offline Sample.us1 SampleUpstream.stale
          = (Returned None, w')
          ∧ lobbyCache w' !! "us-1"
            = Some (Sample.snapshotOf Sample.us1 [Sample.player "a" 10; Sample.player "b" 20] 0).
Proof.
  destruct (stale_entry_refetched (text := SampleRuntime.text) SampleRuntime.offline Sample.us1 SampleUpstream.stale
              "https://damnbruh-game-server-instance-1-us.onrender.com/players"
              (Sample.snapshotOf Sample.us1 [Sample.player "a" 10; Sample.player "b" 20] 0)
              eq_refl) as [one null]; [discriminate|reflexivity|vm_compute; discriminate|].
  split; [exact one|]. apply null. exact I.
Defined.

Lemma passes_idle_without_channel_witness :
  processJoinAlerts (text := SampleRuntime.text) SampleLobby.prompt SampleUpstream.unset
  = (Returned tt, SampleUpstream.unset)
  ∧ processWatches (text := SampleRuntime.text) SampleLobby.prompt SampleUpstream.unset
    = (Returned tt, SampleUpstream.unset).
Proof.
  apply (passes_idle_without_channel (text := SampleRuntime.text)).
  intros g cfg Hin. apply list_elem_of_singleton in Hin. injection Hin as -> ->.
  left. reflexivity.
Defined.

Lemma join_pass_confined_witness :
  let w := SampleTenant.world 0 [Sample.player "B" 10; Sample.player "C" 20] ["A"; "B"] in
  let w' := finalWorld (processJoinAlerts (text := SampleRuntime.text) SampleLobby.prompt) w in
  tenantsWithoutLastSeen w' = tenantsWithoutLastSeen w
  ∧ lobbyCache w' = lobbyCache w ∧ netLog w' = netLog w.
Proof.
  intros w w'.
  apply (join_pass_confined (text := SampleRuntime.text) SampleLobby.prompt w w'
           (fst (processJoinAlerts (text := SampleRuntime.text) SampleLobby.prompt w))).
  apply surjective_pairing.
Defined.

Lemma watch_pass_confined_witness :
  let w := SampleTenant.world 0 SampleLobby.five [] in
  let w' := finalWorld (processWatches (text := SampleRuntime.text) SampleLobby.prompt) w in
  tenantsWithoutLastAlerts w' = tenantsWithoutLastAlerts w
  ∧ lobbyCache w' = lobbyCache w
  ∧ netLog w' = netLog w
  ∧ (tenantsKeyed (guildConfigs w) → tenantsKeyed (guildConfigs w')).
Proof.
  intros w w'.
  apply (watch_pass_confined (text := SampleRuntime.text) SampleLobby.prompt w w'
           (fst (processWatches (text := SampleRuntime.text) SampleLobby.prompt w))).
  - intros g c Hin. apply list_elem_of_singleton in Hin. injection Hin as -> ->.
    apply NoDup_singleton.
  - apply surjective_pairing.
Defined.

(** The sample tenant's watch fires in that pass: its stamp is what
    changes. *)
Example watch_pass_stamps :
  let w := SampleTenant.world 0 SampleLobby.five [] in
  let w' := finalWorld (processWatches (text := SampleRuntime.text) SampleLobby.prompt) w in
  (watches <$> assocGet "guild" (guildConfigs w')) = Some [(1, SampleLobby.watch1 (Some 0))]
  ∧ length (sendLog w') = 1%nat.
Proof. vm_compute. split; reflexivity. Qed.

(** ** The leaderboard list and its pages *)

Lemma insertBySize_perm p l : insertBySize p l ≡ₚ p :: l.
Proof.
  induction l as [|q l IH]; simpl; [reflexivity|].
  destruct (staysBefore p q); [reflexivity|].
  rewrite IH. apply Permutation_swap.
Qed.

Lemma sortBySizeDesc_perm l : sortBySizeDesc l ≡ₚ l.
Proof.
  induction l as [|p l IH]; simpl; [reflexivity|].
  unfold sortBySizeDesc in *. simpl. rewrite insertBySize_perm, IH. reflexivity.
Qed.

Lemma insertBySize_sorted p l : sizeDescending l → sizeDescending (insertBySize p l).
Proof.
  unfold sizeDescending. induction l as [|q l IH]; intros Hs; simpl.
  - constructor; constructor.
  - apply StronglySorted_inv in Hs as [Hl Hq].
    destruct (staysBefore p q) eqn:B; unfold staysBefore in B.
    + apply Qle_bool_iff in B. constructor.
      * constructor; assumption.
      * constructor; [exact B|].
        eapply Forall_impl; [exact Hq|]. intros r Hr. simpl in Hr.
        eapply Qle_trans; eassumption.
    + constructor; [apply IH, Hl|].
      assert (Hpq : (sizeOrZero p <= sizeOrZero q)%Q).
      { apply Qlt_le_weak, Qnot_le_lt. intros H. apply Qle_bool_iff in H. congruence. }
      rewrite insertBySize_perm. constructor; assumption.
Qed.

Lemma sortBySizeDesc_sorted l : sizeDescending (sortBySizeDesc l).
Proof.
  induction l as [|p l IH]; [constructor|].
  unfold sortBySizeDesc in *. simpl. apply insertBySize_sorted, IH.
Qed.

Lemma insertBySize_ofSize c p l : ofSize c (insertBySize p l) = ofSize c (p :: l).
Proof.
  unfold ofSize. induction l as [|q l IH]; simpl; [reflexivity|].
  destruct (staysBefore p q) eqn:B; [reflexivity|].
  rewrite filter_cons, IH, !filter_cons.
  destruct (decide (sizeOrZero p == c)%Q) as [Hp|Hp]; [|reflexivity].
  destruct (decide (sizeOrZero q == c)%Q) as [Hq|Hq]; [|reflexivity].
  exfalso. unfold staysBefore in B.
  assert (H : Qle_bool (sizeOrZero q) (sizeOrZero p) = true).
  { apply Qle_bool_iff. rewrite Hp, Hq. apply Qle_refl. }
  congruence.
Qed.

Lemma sortBySizeDesc_ofSize c l : ofSize c (sortBySizeDesc l) = ofSize c l.
Proof.
  induction l as [|p l IH]; [reflexivity|].
  unfold sortBySizeDesc in *. simpl. rewrite insertBySize_ofSize.
  unfold ofSize in *. rewrite !filter_cons, IH. reflexivity.
Qed.

(** X8. The list a leaderboard is built from holds exactly the players
    of the snapshot whose size is a number above 3, each as often as the
    snapshot lists it, ordered by size with the largest first; players of
    equal size keep the order in which the snapshot lists them. *)
Theorem leaderboard_list_ordered (s : Snapshot) :
  let shown := leaderboardPlayers s in
  shown ≡ₚ filter (λ p, lbActive p = true) (players s)
  ∧ (∀ p, p ∈ shown ↔ p ∈ players s ∧ ∃ q, size p = Some q ∧ (3 < q)%Q)
  ∧ sizeDescending shown
  ∧ ∀ c, ofSize c shown = ofSize c (filter (λ p, lbActive p = true) (players s)).
Proof.
  intros shown. unfold shown, leaderboardPlayers.
  split; [apply sortBySizeDesc_perm|]. split; [|split].
  - intros p. rewrite sortBySizeDesc_perm, list_elem_of_filter.
    unfold lbActive. destruct (size p) as [q|].
    + rewrite JsFacts.gtb_lt. split.
      * intros [H1 H2]. split; [exact H2|]. eauto.
      * intros [H1 (q' & E & H2)]. inversion E; subst. auto.
    + split; [intros [H _]; discriminate|]. intros [_ (q' & E & _)]. discriminate.
  - apply sortBySizeDesc_sorted.
  - intros c. apply sortBySizeDesc_ofSize.
Qed.

Lemma lbPagePlayers_valid ps (k : nat) :
  Z.of_nat k < lbTotalPages ps →
  lbPagePlayers ps (Z.of_nat k) = take 5 (drop (5 * k) ps).
Proof.
  intros Hk. unfold lbPagePlayers, LB_PAGE_SIZE.
  destruct (lbCurrentPage_clamped ps (Z.of_nat k)) as (_ & Hin & _).
  rewrite Hin by lia.
  replace (Z.to_nat (Z.of_nat k * 5)) with (5 * k)%nat by lia. reflexivity.
Qed.

Lemma pages_upto ps (n : nat) :
  Z.of_nat n ≤ lbTotalPages ps →
  concat (map (λ k, lbPagePlayers ps (Z.of_nat k)) (seq 0 n)) = take (5 * n) ps.
Proof.
  induction n as [|n IH]; intros Hn; [reflexivity|].
  rewrite seq_S, map_app, concat_app. simpl.
  rewrite IH by lia. rewrite lbPagePlayers_valid by lia.
  rewrite app_nil_r, take_take_drop. f_equal. lia.
Qed.

(** X9. The pages of a leaderboard cut the list into consecutive runs
    of five: page after page, from page 0 to the last, they give back the
    whole list, every player once and in order, and only the last page
    may hold fewer than five. *)
Theorem leaderboard_pages_partition (ps : list Player) :
  let pages := map (λ k, lbPagePlayers ps (Z.of_nat k))
                   (seq 0 (Z.to_nat (lbTotalPages ps))) in
  concat pages = ps
  ∧ ∀ k page, pages !! k = Some page →
      (S k < length pages)%nat → length page = 5%nat.
Proof.
  intros pages.
  pose proof (lbTotalPages_ceiling ps) as [Hge Hceil].
  split.
  - unfold pages. rewrite pages_upto by lia. apply take_ge. lia.
  - intros k page Hk Hlast. unfold pages in *.
    rewrite length_map, length_seq in Hlast.
    rewrite list_lookup_fmap in Hk.
    rewrite lookup_seq_lt in Hk by lia. simpl in Hk. injection Hk as <-.
    rewrite lbPagePlayers_valid by lia.
    rewrite length_take, length_drop. lia.
Qed.

Section Navigation.
Context {text : JsText}.

(** X10. Under a leaderboard page there is at most one row of buttons:
    a previous button exactly when the page shown is not the first, and a
    next button exactly when it is not the last; each carries region,
    lobby and the page shown. So a button is offered only when the page
    it leads to exists. *)
Theorem leaderboard_buttons (lobbyDef : LobbyDef) (snapshot : Snapshot)
    (ps : list Player) (page : Z) (w : World) :
  let current := lbCurrentPage ps page in
  let total := lbTotalPages ps in
  let suffix := "|" +:+ region lobbyDef +:+ "|" +:+ pretty (lobby lobbyDef)
                +:+ "|" +:+ pretty current in
  ∃ view, buildLbEmbed lobbyDef snapshot ps page w = (Returned view, w)
    ∧ (length (lbComponents view) ≤ 1)%nat
    ∧ map customId (concat (lbComponents view))
      = ((if 0 <? current then ["lb_prev" +:+ suffix] else [])
         ++ (if current <? total - 1 then ["lb_next" +:+ suffix] else []))%list
    ∧ ((0 <? current) = true ↔ lbCurrentPage ps (current - 1) = current - 1)
    ∧ ((current <? total - 1) = true ↔ lbCurrentPage ps (current + 1) = current + 1).
Proof.
  intros current total suffix.
  destruct (buildLbEmbed_fields lobbyDef snapshot ps page w) as (view & Ev & _).
  exists view. split; [exact Ev|].
  assert (Ec : lbComponents view = lbButtons lobbyDef current total).
  { unfold buildLbEmbed, solPriceStatusLine, bind, gets, ret in Ev. simpl in Ev.
    destruct (solPriceUsd w) as [p|]; [destruct (solPriceUpdatedAt w) as [t|];
      [destruct (negb (Qeq_bool p 0))|]|]; inversion Ev; reflexivity. }
  pose proof (lbCurrentPage_clamped ps page) as (Hc & _).
  fold current total in Hc.
  pose proof (lbCurrentPage_clamped ps (current - 1)) as (_ & Hin1 & Hlo1 & _).
  pose proof (lbCurrentPage_clamped ps (current + 1)) as (_ & Hin2 & _ & Hhi2).
  fold total in Hin1, Hin2, Hhi2.
  rewrite Ec. unfold lbButtons. fold suffix.
  destruct (Z.ltb_spec 1 total) as [Ht|Ht];
    destruct (Z.ltb_spec 0 current) as [Hp|Hp];
    destruct (Z.ltb_spec current (total - 1)) as [Hn|Hn];
    simpl; (split; [lia|]); (split; [reflexivity || lia|]);
    split; split; intros H; try reflexivity; try discriminate; try lia;
    try (apply Hin1; lia); try (apply Hin2; lia);
    try (rewrite Hlo1 in H by lia; lia); try (rewrite Hhi2 in H by lia; lia).
Qed.

End Navigation.

(** ** The price refresher *)

Section RefresherFacts.
Context {text : JsText} (out : Outside) (priceGet : nat → PriceResult).

(** X11. A refresh of the price never throws and sends one request, to
    the price endpoint. It takes over price and date exactly from a
    reply that has a body, a truthy success flag and a numeric price (the
    date is the reply's, or else the clock after the request); after any
    other reply, or none, price and date stay as they were. It touches
    neither the lobby cache nor the tenants nor Discord, and a cached
    price stays stamped with a date. *)
Theorem price_refresh_outcome (w : World) :
  ∃ w', refreshSolPrice out priceGet w = (Returned tt, w')
    ∧ netLog w' = (netLog w ++ [SOL_PRICE_URL])%list
    ∧ calls w' = S (calls w)
    ∧ lobbyCache w' = lobbyCache w
    ∧ guildConfigs w' = guildConfigs w
    ∧ sendLog w' = sendLog w
    ∧ match acceptedPrice (priceGet (calls w)) with
      | Some (p, stamp) =>
          solPriceUsd w' = Some p ∧ solPriceUpdatedAt w' = Some (default (clock w') stamp)
      | None =>
          solPriceUsd w' = solPriceUsd w ∧ solPriceUpdatedAt w' = solPriceUpdatedAt w
      end
    ∧ (priceStamped w → priceStamped w').
Proof.
  unfold refreshSolPrice, tryCatch, bind, modify, request, dateNow, gets, throw, ret,
    acceptedPrice, priceStamped.
  simpl.
  destruct (priceGet (calls w)) as [e|[data|]]; simpl.
  - eexists. split; [reflexivity|]. simpl. tauto.
  - destruct (bodyPrice data) as [p|]; [destruct (priceSuccess data)|destruct (priceSuccess data)];
      simpl; (eexists; split; [reflexivity|]); simpl; try tauto.
    repeat (split; [reflexivity|]). split; [split; reflexivity|]. intros _ _. eexists. reflexivity.
  - eexists. split; [reflexivity|]. simpl. tauto.
Qed.

(** X12. Where a cached price is stamped with a date, the status line
    of the leaderboard reads unavailable exactly when no price is cached
    or the cached price is zero. In particular it shows the price
    whenever the price is one that a fetch converts player values with. *)
Theorem status_line_available (w : World) :
  priceStamped w →
  ∃ line, solPriceStatusLine w = (Returned line, w)
    ∧ (line = UNAVAILABLE ↔ JsVal.truthyNum (solPriceUsd w) = false)
    ∧ (rateUsable (solPriceUsd w) → line ≠ UNAVAILABLE).
Proof.
  intros Hst. unfold solPriceStatusLine, bind, gets, ret, priceStamped in *.
  assert (Hrate : ∀ line, (line = UNAVAILABLE ↔ JsVal.truthyNum (solPriceUsd w) = false) →
                  rateUsable (solPriceUsd w) → line ≠ UNAVAILABLE).
  { intros line Hl (r & Er & Hr) E. apply Hl in E. rewrite Er in E. simpl in E.
    apply negb_false_iff, Qeq_bool_iff in E. rewrite E in Hr. inversion Hr. }
  destruct (solPriceUsd w) as [p|] eqn:Ep.
  - destruct (Hst (ex_intro _ p eq_refl)) as [t Et]. rewrite Et.
    destruct (JsVal.truthyNum (Some p)) eqn:Tp.
    + eexists. split; [reflexivity|].
      assert (Hl : "SOL price: $" +:+ toFixed 2 p +:+ " (cached at " +:+ toISOString t +:+ ")"
                   = UNAVAILABLE ↔ true = false).
      { split; [|discriminate]. unfold UNAVAILABLE. simpl. intros H. discriminate H. }
      split; [exact Hl|]. apply Hrate. exact Hl.
    + eexists. split; [reflexivity|].
      assert (Hl : UNAVAILABLE = UNAVAILABLE ↔ false = false) by tauto.
      split; [exact Hl|]. apply Hrate. exact Hl.
  - assert (Hl : UNAVAILABLE = UNAVAILABLE ↔ false = false) by tauto.
    destruct (solPriceUpdatedAt w); (eexists; split; [reflexivity|]);
      (split; [exact Hl|]); apply Hrate; exact Hl.
Qed.

End RefresherFacts.

Lemma status_line_available_witness :
  priceStamped (SampleUpstream.priced 150)
  ∧ ∃ line, solPriceStatusLine (text := SampleRuntime.text) (SampleUpstream.priced 150)
            = (Returned line, SampleUpstream.priced 150)
      ∧ (line = UNAVAILABLE ↔ JsVal.truthyNum (Some 150%Q) = false)
      ∧ (rateUsable (Some 150%Q) → line ≠ UNAVAILABLE).
Proof.
  assert (St : priceStamped (SampleUpstream.priced 150)).
  { intros _. exists 0. reflexivity. }
  split; [exact St|].
  exact (status_line_available (text := SampleRuntime.text) (SampleUpstream.priced 150) St).
Defined.

(** ** Commands *)

Lemma assocGet_snoc {V} k (v : V) (l : list (string * V)) :
  assocGet k l = None → assocGet k (l ++ [(k, v)]) = Some v.
Proof.
  induction l as [|[k' v'] l IH]; simpl.
  - rewrite String.eqb_refl. reflexivity.
  - destruct (String.eqb k' k); [discriminate|exact IH].
Qed.

Lemma assocGet_snoc_ne {V} k k' (v : V) (l : list (string * V)) :
  k' ≠ k → assocGet k' (l ++ [(k, v)]) = assocGet k' l.
Proof.
  intros N. induction l as [|[k0 v0] l IH]; simpl.
  - destruct (String.eqb_spec k k'); [congruence|reflexivity].
  - destruct (String.eqb k0 k'); [reflexivity|exact IH].
Qed.

Lemma assocGet_None {V} k (l : list (string * V)) :
  assocGet k l = None ↔ k ∉ map fst l.
Proof.
  induction l as [|[k' v'] l IH]; simpl.
  - split; [intros _; apply not_elem_of_nil|reflexivity].
  - rewrite not_elem_of_cons. destruct (String.eqb_spec k' k) as [->|N].
    + split; [discriminate|]. intros [H _]. congruence.
    + rewrite IH. split; [intros H; split; [congruence|exact H]|intros [_ H]; exact H].
Qed.

Lemma assocGet_ensureTenant g guilds :
  assocGet g (ensureTenant g guilds) = Some (default emptyGuildConfig (assocGet g guilds)).
Proof.
  unfold ensureTenant. destruct (assocGet g guilds) as [cfg|] eqn:E; simpl.
  - exact E.
  - apply assocGet_snoc, E.
Qed.

Lemma assocGet_ensureTenant_ne g g' guilds :
  g' ≠ g → assocGet g' (ensureTenant g guilds) = assocGet g' guilds.
Proof.
  intros N. unfold ensureTenant. destruct (assocGet g guilds); [reflexivity|].
  apply assocGet_snoc_ne, N.
Qed.

Lemma getGuildConfig_run g w :
  getGuildConfig g w
  = (Returned (tenantOf g w), setGuildConfigs (ensureTenant g (guildConfigs w)) w).
Proof.
  unfold getGuildConfig, getCfg, bind, gets, modify, ret, tenantOf, ensureTenant.
  destruct (assocGet g (guildConfigs w)); simpl; [|reflexivity].
  rewrite setGuildConfigs_same. reflexivity.
Qed.

Lemma assocAlter_at {V} (f h : V → V) k (l : list (string * V)) v :
  assocGet k l = Some v → f v = h v → assocAlter f k l = assocAlter h k l.
Proof.
  induction l as [|[k' v'] l IH]; simpl; intros E Hf; [reflexivity|].
  destruct (String.eqb k' k).
  - injection E as ->. rewrite Hf. reflexivity.
  - rewrite (IH E Hf). reflexivity.
Qed.

Lemma assocAlter_same {V} k (l : list (string * V)) v :
  assocGet k l = Some v → assocAlter (λ _, v) k l = l.
Proof.
  induction l as [|[k' v'] l IH]; simpl; intros E; [reflexivity|].
  destruct (String.eqb k' k).
  - injection E as ->. reflexivity.
  - rewrite (IH E). reflexivity.
Qed.

Lemma assocAlter_twice {V} (f h : V → V) k (l : list (string * V)) :
  assocAlter h k (assocAlter f k l) = assocAlter (λ v, h (f v)) k l.
Proof.
  induction l as [|[k' v'] l IH]; simpl; [reflexivity|].
  destruct (String.eqb k' k) eqn:E; simpl; rewrite E; [reflexivity|].
  rewrite IH. reflexivity.
Qed.

Lemma watchGet_None n (l : list (Z * Watch)) :
  watchGet n l = None ↔ n ∉ map fst l.
Proof.
  induction l as [|[n' x'] l IH]; simpl.
  - split; [intros _; apply not_elem_of_nil|reflexivity].
  - rewrite not_elem_of_cons. destruct (Z.eqb_spec n' n) as [->|N].
    + split; [discriminate|]. intros [H _]. congruence.
    + rewrite IH. split; [intros H; split; [congruence|exact H]|intros [_ H]; exact H].
Qed.

Lemma filter_absent n (l : list (Z * Watch)) :
  n ∉ map fst l → filter (λ e, e.1 ≠ n) l = l.
Proof.
  induction l as [|[n' x'] l IH]; [reflexivity|].
  simpl. rewrite not_elem_of_cons. intros [H1 H2].
  rewrite filter_cons_True by (simpl; congruence). rewrite IH by exact H2. reflexivity.
Qed.

Lemma watchDelete_filter n (l : list (Z * Watch)) :
  NoDup (map fst l) → watchDelete n l = filter (λ e, e.1 ≠ n) l.
Proof.
  induction l as [|[n' x'] l IH]; [reflexivity|].
  simpl. intros Hnd. apply NoDup_cons in Hnd as [Hn Hnd].
  destruct (Z.eqb_spec n' n) as [->|N].
  - rewrite filter_cons_False by (simpl; tauto). rewrite filter_absent by exact Hn. reflexivity.
  - rewrite filter_cons_True by (simpl; exact N). rewrite IH by exact Hnd. reflexivity.
Qed.

Lemma fresh_absent cfg : watchesFresh cfg → nextWatchId cfg ∉ map fst (watches cfg).
Proof.
  intros Hf Hin. apply list_elem_of_fmap in Hin as ([n x] & E & Hin). simpl in E. subst n.
  apply Hf in Hin. lia.
Qed.

Lemma LOBBIES_label l : l ∈ LOBBIES → label l ≠ "Watch created" ∧ label l ≠ "Watch removed".
Proof.
  unfold LOBBIES. rewrite !elem_of_cons, elem_of_nil.
  intros H. repeat (destruct H as [H|H]; [subst l; split; discriminate|]). contradiction.
Qed.

Section WatchCommandFacts.
Context {text : JsText}.
Context (toLowerCase : string → string) (parseInt : string → Parsed).

Lemma modifyCfg_tenant g (f : GuildConfig → GuildConfig) cfg guilds w :
  assocGet g guilds = Some cfg →
  modifyCfg g f (setGuildConfigs guilds w)
  = (Returned tt, setGuildConfigs (assocAlter (λ _, f cfg) g guilds) w).
Proof.
  intros E. unfold modifyCfg, modify. simpl.
  rewrite (assocAlter_at f (λ _, f cfg) g guilds cfg E eq_refl). reflexivity.
Qed.

Lemma withTenant_keep g w :
  withTenant g (tenantOf g w) w = setGuildConfigs (ensureTenant g (guildConfigs w)) w.
Proof.
  unfold withTenant. rewrite assocAlter_same; [reflexivity|]. apply assocGet_ensureTenant.
Qed.

Lemma withWatches_nil cfg : watches cfg = [] → withWatches [] cfg = cfg.
Proof. destruct cfg; simpl; intros ->; reflexivity. Qed.

Lemma addAccepted_Some args l t m :
  addAccepted toLowerCase parseInt args = Some (l, t, m) ↔
    (length args <? 5)%nat = false
    ∧ includesParsed [1; 5; 20] (parseArg parseInt args 1) = true
    ∧ bool_decide (lowerArg toLowerCase args 2 ∈ ["us"; "eu"]) = true
    ∧ parseArg parseInt args 3 = Whole t ∧ (t <? 1) = false
    ∧ parseArg parseInt args 4 = Whole m ∧ (m <? 1) = false
    ∧ findLobby (lowerArg toLowerCase args 2) (numberOf (parseArg parseInt args 1)) = Some l
    ∧ JsVal.truthy (url l) = true.
Proof.
  unfold addAccepted.
  destruct (parseArg parseInt args 3) as [t'|s3];
    [|split; [discriminate|intros (_&_&_&A&_); discriminate A]].
  destruct (parseArg parseInt args 4) as [m'|s4];
    [|split; [discriminate|intros (_&_&_&_&_&A&_); discriminate A]].
  destruct (length args <? 5)%nat; simpl;
    [split; [discriminate|intros (A&_); discriminate A]|].
  destruct (includesParsed [1; 5; 20] (parseArg parseInt args 1)); simpl;
    [|split; [discriminate|intros (_&A&_); discriminate A]].
  destruct (bool_decide (lowerArg toLowerCase args 2 ∈ ["us"; "eu"])); simpl;
    [|split; [discriminate|intros (_&_&A&_); discriminate A]].
  destruct (t' <? 1) eqn:T; simpl;
    [split; [discriminate|intros (_&_&_&A&B&_); injection A as <-; congruence]|].
  destruct (m' <? 1) eqn:M; simpl;
    [split; [discriminate|intros (_&_&_&_&_&A&B&_); injection A as <-; congruence]|].
  destruct (findLobby _ _) as [l'|];
    [|split; [discriminate|intros (_&_&_&_&_&_&_&A&_); discriminate A]].
  destruct (JsVal.truthy (url l')) eqn:U.
  - split.
    + intros A. injection A as <- <- <-. repeat split; try reflexivity; assumption.
    + intros (_&_&_&A3&_&A4&_&Al&_). injection A3 as <-. injection A4 as <-.
      injection Al as <-. reflexivity.
  - split; [discriminate|]. intros (_&_&_&_&_&_&_&Al&Au). injection Al as <-. congruence.
Qed.

(** The effect of a [,watch] command on the world is the edit its
    arguments stand for. *)
Lemma handleWatchCommand_effect message args w :
  let g := messageGuildId message in
  let cfg := tenantOf g w in
  let e := watchEditOf toLowerCase parseInt args cfg in
  NoDup (map fst (watches cfg)) → watchesFresh cfg →
  ∃ reply, handleWatchCommand toLowerCase parseInt message args w
             = (Returned reply, withTenant g (applyEdit e cfg) w)
    ∧ (title reply = "Watch created" ↔ ∃ l t m, e = AddWatch l t m)
    ∧ (title reply = "Watch removed" ↔ ∃ n, e = RemoveWatch n).
Proof.
  intros g cfg e Hnd Hfresh.
  pose proof (assocGet_ensureTenant g (guildConfigs w)) as Hget. fold (tenantOf g w) in Hget.
  fold cfg in Hget.
  assert (Other : ∀ reply e', title reply ≠ "Watch created" → title reply ≠ "Watch removed" →
            e = e' → (∀ l t m, e' ≠ AddWatch l t m) → (∀ n, e' ≠ RemoveWatch n) →
            applyEdit e' cfg = cfg →
            ∃ reply', (Returned reply, setGuildConfigs (ensureTenant g (guildConfigs w)) w)
                      = (Returned reply', withTenant g (applyEdit e cfg) w)
              ∧ (title reply' = "Watch created" ↔ ∃ l t m, e = AddWatch l t m)
              ∧ (title reply' = "Watch removed" ↔ ∃ n, e = RemoveWatch n)).
  { intros reply e' H1 H2 -> Ha Hr Hk. exists reply. rewrite Hk. unfold cfg.
    rewrite withTenant_keep.
    split; [reflexivity|]. split; (split; [contradiction|]).
    - intros (l & t & m & H). destruct (Ha _ _ _ H).
    - intros (n & H). destruct (Hr _ H). }
  assert (Keep : ∀ reply, title reply ≠ "Watch created" → title reply ≠ "Watch removed" →
            e = KeepWatches →
            ∃ reply', (Returned reply, setGuildConfigs (ensureTenant g (guildConfigs w)) w)
                      = (Returned reply', withTenant g (applyEdit e cfg) w)
              ∧ (title reply' = "Watch created" ↔ ∃ l t m, e = AddWatch l t m)
              ∧ (title reply' = "Watch removed" ↔ ∃ n, e = RemoveWatch n)).
  { intros reply H1 H2 He. apply (Other reply KeepWatches); auto; discriminate. }
  unfold handleWatchCommand. fold g. unfold bind at 1. rewrite getGuildConfig_run. fold cfg.
  destruct (String.eqb_spec (lowerArg toLowerCase args 0) "") as [E0|N0].
  { unfold ret. apply Keep; [discriminate|discriminate|].
    unfold e, watchEditOf. rewrite E0. reflexivity. }
  destruct (String.eqb (lowerArg toLowerCase args 0) "add") eqn:Ea.
  { assert (He : e = match addAccepted toLowerCase parseInt args with
                     | Some (l, t, m) => AddWatch l t m
                     | None => KeepWatches
                     end).
    { unfold e, watchEditOf. rewrite Ea. reflexivity. }
    destruct (addAccepted toLowerCase parseInt args) as [[[l t] m]|] eqn:Acc.
    - apply addAccepted_Some in Acc as (L & I & R & P3 & T & P4 & M & F & U).
      rewrite L, I, R, P3, P4. simpl. rewrite T, M. simpl.
      rewrite F, U. simpl.
      unfold bind at 1. rewrite (modifyCfg_tenant g _ cfg _ w Hget).
      unfold bind at 1.
      rewrite (modifyCfg_tenant g _ (withNextWatchId (nextWatchId cfg + 1) cfg)
                 _ w (assocGet_alter_eq (λ _, withNextWatchId (nextWatchId cfg + 1) cfg) _ _ _ Hget)).
      rewrite assocAlter_twice. unfold ret. eexists. split; [|split].
      + unfold withTenant. rewrite He. simpl.
        rewrite watchSet_fresh by (apply fresh_absent, Hfresh). reflexivity.
      + simpl. split; [intros _; rewrite He; eauto|reflexivity].
      + simpl. split; [discriminate|]. intros (n & Hn). rewrite He in Hn. discriminate Hn.
    - destruct (length args <? 5)%nat eqn:L.
      { unfold ret. apply Keep; [discriminate|discriminate|exact He]. }
      destruct (includesParsed [1; 5; 20] (parseArg parseInt args 1)) eqn:I; simpl;
        [|unfold ret; apply Keep; [discriminate|discriminate|exact He]].
      destruct (bool_decide (lowerArg toLowerCase args 2 ∈ ["us"; "eu"])) eqn:R; simpl;
        [|unfold ret; apply Keep; [discriminate|discriminate|exact He]].
      destruct (parseArg parseInt args 3) as [t|s3] eqn:P3; simpl;
        [|unfold ret; apply Keep; [discriminate|discriminate|exact He]].
      destruct (t <? 1) eqn:T;
        [unfold ret; apply Keep; [discriminate|discriminate|exact He]|].
      destruct (parseArg parseInt args 4) as [m|s4] eqn:P4; simpl;
        [|unfold ret; apply Keep; [discriminate|discriminate|exact He]].
      destruct (m <? 1) eqn:M;
        [unfold ret; apply Keep; [discriminate|discriminate|exact He]|].
      destruct (findLobby (lowerArg toLowerCase args 2) (numberOf (parseArg parseInt args 1)))
        as [l|] eqn:F;
        [|unfold ret; apply Keep; [discriminate|discriminate|exact He]].
      destruct (JsVal.truthy (url l)) eqn:U; simpl.
      + exfalso. assert (A : addAccepted toLowerCase parseInt args = Some (l, t, m)).
        { apply addAccepted_Some. repeat split; assumption. }
        congruence.
      + unfold ret. apply Keep; [| |exact He]; apply LOBBIES_label, (findLobby_elem _ _ _ F). }
  destruct (String.eqb (lowerArg toLowerCase args 0) "list") eqn:El.
  { assert (He : e = KeepWatches).
    { unfold e, watchEditOf. rewrite Ea.
      destruct (String.eqb_spec (lowerArg toLowerCase args 0) "list") as [->|]; [|discriminate].
      reflexivity. }
    destruct (length (watches cfg) =? 0)%nat; unfold ret;
      (apply Keep; [discriminate|discriminate|exact He]). }
  destruct (String.eqb (lowerArg toLowerCase args 0) "remove") eqn:Er.
  { assert (He : e = match parseArg parseInt args 1 with
                     | Whole n =>
                         if negb (length args <? 2)%nat && watchHas n (watches cfg)
                         then RemoveWatch n else KeepWatches
                     | NotWhole _ => KeepWatches
                     end).
    { unfold e, watchEditOf. rewrite Ea, Er. reflexivity. }
    destruct (length args <? 2)%nat eqn:L.
    { unfold ret. apply Keep; [discriminate|discriminate|].
      rewrite He. destruct (parseArg parseInt args 1); reflexivity. }
    simpl in He.
    destruct (parseArg parseInt args 1) as [n|s1] eqn:P1; simpl;
      [|unfold ret; apply Keep; [discriminate|discriminate|exact He]].
    destruct (watchHas n (watches cfg)) eqn:Has; simpl;
      [|unfold ret; apply Keep; [discriminate|discriminate|exact He]].
    unfold bind at 1. rewrite (modifyCfg_tenant g _ cfg _ w Hget).
    unfold ret. eexists. split; [|split].
    - unfold withTenant. rewrite He. simpl. rewrite watchDelete_filter by exact Hnd. reflexivity.
    - simpl. split; [discriminate|]. intros (l & t & m & H). rewrite He in H. discriminate H.
    - simpl. split; [intros _; rewrite He; eauto|reflexivity]. }
  destruct (String.eqb (lowerArg toLowerCase args 0) "clear") eqn:Ec.
  { assert (He : e = ClearWatches).
    { unfold e, watchEditOf. rewrite Ea, Er, Ec. reflexivity. }
    destruct (length (watches cfg) =? 0)%nat eqn:L.
    - unfold ret. apply (Other _ ClearWatches); try discriminate; [exact He|].
      simpl. apply withWatches_nil. destruct (watches cfg); [reflexivity|discriminate L].
    - unfold bind at 1. rewrite (modifyCfg_tenant g _ cfg _ w Hget).
      unfold ret. eexists. split; [|split].
      + unfold withTenant. rewrite He. reflexivity.
      + simpl. split; [discriminate|]. intros (l & t & m & H). rewrite He in H. discriminate H.
      + simpl. split; [discriminate|]. intros (n & H). rewrite He in H. discriminate H. }
  unfold ret. apply Keep; [discriminate|discriminate|].
  unfold e, watchEditOf. rewrite Ea, Er, Ec. reflexivity.
Qed.

Lemma tenantOf_orderly g guilds w :
  guildConfigs w = guilds → tenantsOrderly guilds → tenantOrderly (tenantOf g w).
Proof.
  intros <- [_ Ho]. unfold tenantOf.
  destruct (assocGet g (guildConfigs w)) as [cfg|] eqn:E; simpl.
  - apply (Ho g), assocGet_elem, E.
  - split; [split; [constructor|]|split]; intros n x H; simpl in H;
      apply elem_of_nil in H; contradiction.
Qed.

Lemma withTenant_get g cfg w :
  assocGet g (guildConfigs (withTenant g cfg w)) = Some cfg.
Proof.
  unfold withTenant. simpl.
  apply (assocGet_alter_eq (λ _, cfg) g _ _ (assocGet_ensureTenant g (guildConfigs w))).
Qed.

Lemma withTenant_others g g' cfg w :
  g' ≠ g → assocGet g' (guildConfigs (withTenant g cfg w)) = assocGet g' (guildConfigs w).
Proof.
  intros N. unfold withTenant. simpl. rewrite assocGet_alter_ne by congruence.
  apply assocGet_ensureTenant_ne, N.
Qed.

Lemma parseArg_Whole args i n :
  parseArg parseInt args i = Whole n → (length args <? S i)%nat = false.
Proof.
  unfold parseArg. destruct (args !! i) as [s|] eqn:E; [|discriminate].
  intros _. apply lookup_lt_Some in E. apply Nat.ltb_ge. lia.
Qed.

(** X13. [,watch add]: where the watches of the tenant carry numbers
    below its counter, the command either creates a watch or leaves the
    tenant as it is. It creates one exactly when there are five
    arguments, lobby number and region are known, threshold and minutes
    are whole numbers of at least 1 and the lobby has an endpoint. The
    new watch is put behind the existing ones under the value of the
    counter, it has not alerted yet, and the counter goes up by one; no
    existing watch is replaced. Other tenants, the lobby cache and the
    logs are not touched. *)
Theorem watch_add_outcome (message : Message) (args : list string) (w : World) :
  let g := messageGuildId message in
  let before := tenantOf g w in
  lowerArg toLowerCase args 0 = "add" →
  NoDup (map fst (watches before)) →
  watchesFresh before →
  ∃ reply w' after,
    handleWatchCommand toLowerCase parseInt message args w = (Returned reply, w')
    ∧ assocGet g (guildConfigs w') = Some after
    ∧ (∀ g', g' ≠ g → assocGet g' (guildConfigs w') = assocGet g' (guildConfigs w))
    ∧ lobbyCache w' = lobbyCache w ∧ netLog w' = netLog w ∧ sendLog w' = sendLog w
    ∧ match addAccepted toLowerCase parseInt args with
      | Some (l, t, m) =>
          title reply = "Watch created"
          ∧ l ∈ LOBBIES ∧ JsVal.truthy (url l) = true ∧ 1 ≤ t ∧ 1 ≤ m
          ∧ after = withWatches
                      (watches before
                       ++ [(nextWatchId before, newWatch (nextWatchId before) l t m)])%list
                      (withNextWatchId (nextWatchId before + 1) before)
      | None => title reply ≠ "Watch created" ∧ after = before
      end.
Proof.
  intros g before Hsub Hnd Hfresh.
  destruct (handleWatchCommand_effect message args w Hnd Hfresh) as (reply & Run & Hc & _).
  fold g before in Run, Hc.
  assert (He : watchEditOf toLowerCase parseInt args before
               = match addAccepted toLowerCase parseInt args with
                 | Some (l, t, m) => AddWatch l t m
                 | None => KeepWatches
                 end).
  { unfold watchEditOf. rewrite Hsub. reflexivity. }
  rewrite He in Run, Hc.
  exists reply. eexists. eexists. split; [exact Run|].
  split; [apply withTenant_get|]. split; [intros g' N; apply withTenant_others, N|].
  split; [reflexivity|]. split; [reflexivity|]. split; [reflexivity|].
  destruct (addAccepted toLowerCase parseInt args) as [[[l t] m]|] eqn:Acc.
  - apply addAccepted_Some in Acc as (_ & _ & _ & _ & T & _ & M & F & U).
    split; [apply Hc; eauto|]. split; [exact (findLobby_elem _ _ _ F)|].
    split; [exact U|]. split; [apply Z.ltb_ge in T; lia|]. split; [apply Z.ltb_ge in M; lia|].
    reflexivity.
  - split; [|reflexivity]. intros H. apply Hc in H as (l & t & m & H). discriminate H.
Qed.

(** X14. [,watch remove <id>]: where the watches of the tenant have
    distinct numbers, the command takes out the watch of that number and
    nothing else: the other watches keep their order and their state,
    the counter and every other setting of the tenant stay, and so do
    the other tenants. An id that is no number, or the number of no
    watch, removes nothing; the reply says removed exactly when a watch
    was removed. *)
Theorem watch_remove_outcome (message : Message) (args : list string) (w : World) :
  let g := messageGuildId message in
  let before := tenantOf g w in
  lowerArg toLowerCase args 0 = "remove" →
  NoDup (map fst (watches before)) →
  watchesFresh before →
  ∃ reply w' after,
    handleWatchCommand toLowerCase parseInt message args w = (Returned reply, w')
    ∧ assocGet g (guildConfigs w') = Some after
    ∧ (∀ g', g' ≠ g → assocGet g' (guildConfigs w') = assocGet g' (guildConfigs w))
    ∧ withWatches [] after = withWatches [] before
    ∧ match parseArg parseInt args 1 with
      | Whole n =>
          watches after = filter (λ e, e.1 ≠ n) (watches before)
          ∧ (title reply = "Watch removed" ↔ n ∈ map fst (watches before))
      | NotWhole _ => after = before ∧ title reply ≠ "Watch removed"
      end.
Proof.
  intros g before Hsub Hnd Hfresh.
  destruct (handleWatchCommand_effect message args w Hnd Hfresh) as (reply & Run & _ & Hr).
  fold g before in Run, Hr.
  assert (He : watchEditOf toLowerCase parseInt args before
               = match parseArg parseInt args 1 with
                 | Whole n =>
                     if negb (length args <? 2)%nat && watchHas n (watches before)
                     then RemoveWatch n else KeepWatches
                 | NotWhole _ => KeepWatches
                 end).
  { unfold watchEditOf. rewrite Hsub. reflexivity. }
  rewrite He in Run, Hr.
  exists reply. eexists. eexists. split; [exact Run|].
  split; [apply withTenant_get|]. split; [intros g' N; apply withTenant_others, N|].
  destruct (parseArg parseInt args 1) as [n|s1] eqn:P1.
  - rewrite (parseArg_Whole _ _ _ P1) in *. simpl in *.
    unfold watchHas in *.
    destruct (watchGet n (watches before)) as [x|] eqn:G.
    + rewrite bool_decide_eq_true_2 in * by eauto. simpl.
      split; [reflexivity|]. split; [reflexivity|].
      split; [intros _|intros _; apply Hr; eauto].
      destruct (decide (n ∈ map fst (watches before))) as [Hin|Hin]; [exact Hin|].
      apply watchGet_None in Hin. congruence.
    + rewrite bool_decide_eq_false_2 in * by (intros [? ?]; discriminate). simpl.
      apply watchGet_None in G.
      split; [reflexivity|]. split; [symmetry; apply filter_absent, G|].
      split; [intros H; apply Hr in H as (n' & H); discriminate H|intros H; contradiction].
  - simpl. split; [reflexivity|]. split; [reflexivity|].
    intros H. apply Hr in H as (n' & H). discriminate H.
Qed.

Lemma NoDup_fst_filter (P : Z * Watch → Prop) `{!∀ e, Decision (P e)} (l : list (Z * Watch)) :
  NoDup (map fst l) → NoDup (map fst (filter P l)).
Proof.
  induction l as [|[n x] l IH]; simpl; intros Hnd; [constructor|].
  apply NoDup_cons in Hnd as [Hn Hnd].
  destruct (decide (P (n, x))).
  - rewrite filter_cons_True by assumption. simpl. apply NoDup_cons. split; [|apply IH, Hnd].
    intros Hin. apply Hn. apply list_elem_of_fmap in Hin as (e & E & Hin).
    apply list_elem_of_filter in Hin as [_ Hin]. apply list_elem_of_fmap. eauto.
  - rewrite filter_cons_False by assumption. apply IH, Hnd.
Qed.

Lemma applyEdit_orderly e cfg :
  tenantOrderly cfg →
  (∀ l t m, e = AddWatch l t m →
     l ∈ LOBBIES ∧ JsVal.truthy (url l) = true ∧ 1 ≤ t ∧ 1 ≤ m) →
  tenantOrderly (applyEdit e cfg)
  ∧ nextWatchId cfg ≤ nextWatchId (applyEdit e cfg)
  ∧ withNextWatchId 0 (withWatches [] (applyEdit e cfg))
    = withNextWatchId 0 (withWatches [] cfg).
Proof.
  intros ([Hnd Hid] & Hfresh & Hsound) Hadd.
  destruct e as [|l t m|n|]; simpl.
  - split; [split; [split|split]; assumption|]. split; [lia|reflexivity].
  - destruct (Hadd l t m eq_refl) as (Hl & Hu & Ht & Hm).
    split; [|split; [lia|reflexivity]].
    split; [split|split].
    + simpl. rewrite map_app. apply NoDup_app. split; [exact Hnd|]. split.
      * intros k Hk Hk'. simpl in Hk'. apply list_elem_of_singleton in Hk'. subst k.
        exact (fresh_absent cfg Hfresh Hk).
      * simpl. apply NoDup_singleton.
    + intros k x Hin. simpl in Hin. apply elem_of_app in Hin as [Hin|Hin]; [exact (Hid k x Hin)|].
      apply list_elem_of_singleton in Hin. injection Hin as -> ->. reflexivity.
    + intros k x Hin. simpl in *. apply elem_of_app in Hin as [Hin|Hin].
      * specialize (Hfresh k x Hin). lia.
      * apply list_elem_of_singleton in Hin. injection Hin as -> ->. lia.
    + intros k x Hin. simpl in Hin. apply elem_of_app in Hin as [Hin|Hin]; [exact (Hsound k x Hin)|].
      apply list_elem_of_singleton in Hin. injection Hin as -> ->.
      split; [exists l; auto|simpl; lia].
  - split; [|split; [lia|reflexivity]].
    split; [split|split]; simpl.
    + apply NoDup_fst_filter, Hnd.
    + intros k x Hin. apply list_elem_of_filter in Hin as [_ Hin]. exact (Hid k x Hin).
    + intros k x Hin. simpl in Hin. apply list_elem_of_filter in Hin as [_ Hin].
      exact (Hfresh k x Hin).
    + intros k x Hin. apply list_elem_of_filter in Hin as [_ Hin]. exact (Hsound k x Hin).
  - split; [|split; [lia|reflexivity]].
    split; [split; [constructor|]|split]; intros k x Hin; simpl in Hin;
      apply elem_of_nil in Hin; contradiction.
Qed.

Lemma withTenant_orderly g cfg w :
  tenantsOrderly (guildConfigs w) → tenantOrderly cfg →
  tenantsOrderly (guildConfigs (withTenant g cfg w)).
Proof.
  intros [Hnd Ho] Hc. unfold withTenant. simpl.
  assert (He : tenantsOrderly (ensureTenant g (guildConfigs w))).
  { unfold ensureTenant. destruct (assocGet g (guildConfigs w)) eqn:E; [split; assumption|].
    split.
    - rewrite map_app. apply NoDup_app. split; [exact Hnd|]. split; [|apply NoDup_singleton].
      intros k Hk Hk'. simpl in Hk'. apply list_elem_of_singleton in Hk'. subst k.
      apply assocGet_None in E. contradiction.
    - intros g0 c0 Hin. apply elem_of_app in Hin as [Hin|Hin]; [exact (Ho g0 c0 Hin)|].
      apply list_elem_of_singleton in Hin. injection Hin as -> ->.
      split; [split; [constructor|]|split]; intros n x H; simpl in H;
        apply elem_of_nil in H; contradiction. }
  destruct He as [Hnd1 Ho1]. split.
  - rewrite fst_assocAlter. exact Hnd1.
  - intros g0 c0 Hin. apply elem_of_assocAlter in Hin as [Hin|(v & _ & _ & ->)];
      [exact (Ho1 g0 c0 Hin)|exact Hc].
Qed.

(** X15. Every [,watch] command, whatever its arguments, keeps the
    tenants in order: one entry per guild, the watches of a tenant under
    distinct numbers, each filed under its own id, each number below the
    counter of the tenant, each watch on a registry lobby that has an
    endpoint, with threshold and interval of at least 1. The counter of
    a tenant never goes down, so the number of a removed watch is not
    handed out again; and a command changes nothing of a tenant but its
    watches and its counter. *)
Theorem watch_commands_keep_order (message : Message) (args : list string)
    (w w' : World) (r : Outcome Embed) :
  handleWatchCommand toLowerCase parseInt message args w = (r, w') →
  tenantsOrderly (guildConfigs w) →
  tenantsOrderly (guildConfigs w')
  ∧ ∀ g cfg, assocGet g (guildConfigs w) = Some cfg →
      ∃ cfg', assocGet g (guildConfigs w') = Some cfg'
        ∧ nextWatchId cfg ≤ nextWatchId cfg'
        ∧ withNextWatchId 0 (withWatches [] cfg') = withNextWatchId 0 (withWatches [] cfg).
Proof.
  intros Run Ho.
  pose proof (tenantOf_orderly (messageGuildId message) _ w eq_refl Ho) as Hc.
  destruct (handleWatchCommand_effect message args w) as (reply & Run' & _).
  { apply Hc. } { apply Hc. }
  rewrite Run' in Run. injection Run as _ <-.
  set (g0 := messageGuildId message) in *.
  set (e := watchEditOf toLowerCase parseInt args (tenantOf g0 w)) in *.
  assert (Hadd : ∀ l t m, e = AddWatch l t m →
                   l ∈ LOBBIES ∧ JsVal.truthy (url l) = true ∧ 1 ≤ t ∧ 1 ≤ m).
  { intros l t m He. unfold e, watchEditOf in He.
    destruct (String.eqb _ "add").
    - destruct (addAccepted toLowerCase parseInt args) as [[[l' t'] m']|] eqn:Acc;
        [|discriminate]. injection He as -> -> ->.
      apply addAccepted_Some in Acc as (_ & _ & _ & _ & T & _ & M & F & U).
      split; [exact (findLobby_elem _ _ _ F)|]. split; [exact U|].
      apply Z.ltb_ge in T, M. lia.
    - destruct (String.eqb _ "remove").
      + destruct (parseArg parseInt args 1); [|discriminate].
        destruct (_ && _); discriminate.
      + destruct (String.eqb _ "clear"); discriminate. }
  destruct (applyEdit_orderly e _ Hc Hadd) as (Hc' & Hmono & Hrest).
  split; [apply withTenant_orderly; assumption|].
  intros g cfg Hg. destruct (decide (g = g0)) as [->|N].
  - rewrite withTenant_get. eexists. split; [reflexivity|].
    assert (Ht : tenantOf g0 w = cfg) by (unfold tenantOf; rewrite Hg; reflexivity).
    rewrite Ht in Hmono, Hrest |- *. split; assumption.
  - rewrite (withTenant_others _ _ _ _ N), Hg. eexists. split; [reflexivity|].
    split; [lia|reflexivity].
Qed.

(** X16. A [,config] command changes nothing but the default region
    and the ping role of its own tenant. The default region changes only
    through [default-region] with an argument that reads us or eu, so it
    stays unset or one of the two; [default-region] with any other
    argument leaves the tenant as it was. After [setrole] the ping role
    is the first role the message mentions, or none, and that is what
    the alert passes put in front of their messages from then on; no
    other subcommand changes it. *)
Theorem config_command_outcome (message : Message) (args : list string) (w : World) :
  let g := messageGuildId message in
  let before := tenantOf g w in
  ∃ reply w' after,
    handleConfigCommand toLowerCase message args w = (Returned reply, w')
    ∧ assocGet g (guildConfigs w') = Some after
    ∧ (∀ g', g' ≠ g → assocGet g' (guildConfigs w') = assocGet g' (guildConfigs w))
    ∧ lobbyCache w' = lobbyCache w ∧ netLog w' = netLog w ∧ sendLog w' = sendLog w
    ∧ withPingRoleId None (withDefaultRegion None after)
      = withPingRoleId None (withDefaultRegion None before)
    ∧ (regionKnown before → regionKnown after)
    ∧ (defaultRegion after ≠ defaultRegion before → lowerArg toLowerCase args 0 = "default-region")
    ∧ (lowerArg toLowerCase args 0 = "default-region" →
         lowerArg toLowerCase args 1 ∈ ["us"; "eu"] →
         defaultRegion after = Some (lowerArg toLowerCase args 1))
    ∧ (lowerArg toLowerCase args 0 = "setrole" →
         pingRoleId after = roleId <$> mentionedRole message
         ∧ pingContentOf after
           = match mentionedRole message with
             | Some role =>
                 if String.eqb (roleId role) "" then "No ping role given"
                 else "<@&" +:+ roleId role +:+ ">"
             | None => "No ping role given"
             end)
    ∧ (lowerArg toLowerCase args 0 ≠ "setrole" → pingRoleId after = pingRoleId before)
    ∧ (lowerArg toLowerCase args 0 = "default-region" →
         lowerArg toLowerCase args 1 ∉ ["us"; "eu"] →
         after = before ∧ defaultRegion after = defaultRegion before).
Proof.
  intros g before.
  pose proof (assocGet_ensureTenant g (guildConfigs w)) as Hget. fold (tenantOf g w) in Hget.
  fold before in Hget.
  assert (Same : ∀ reply : Embed,
            lowerArg toLowerCase args 0 ≠ "setrole" →
            (lowerArg toLowerCase args 0 = "default-region" →
             lowerArg toLowerCase args 1 ∉ ["us"; "eu"]) →
            ∃ reply' w' after,
              (Returned reply, setGuildConfigs (ensureTenant g (guildConfigs w)) w)
              = (Returned reply', w')
              ∧ assocGet g (guildConfigs w') = Some after
              ∧ (∀ g', g' ≠ g → assocGet g' (guildConfigs w') = assocGet g' (guildConfigs w))
              ∧ lobbyCache w' = lobbyCache w ∧ netLog w' = netLog w ∧ sendLog w' = sendLog w
              ∧ withPingRoleId None (withDefaultRegion None after)
                = withPingRoleId None (withDefaultRegion None before)
              ∧ (regionKnown before → regionKnown after)
              ∧ (defaultRegion after ≠ defaultRegion before →
                 lowerArg toLowerCase args 0 = "default-region")
              ∧ (lowerArg toLowerCase args 0 = "default-region" →
                   lowerArg toLowerCase args 1 ∈ ["us"; "eu"] →
                   defaultRegion after = Some (lowerArg toLowerCase args 1))
              ∧ (lowerArg toLowerCase args 0 = "setrole" →
                   pingRoleId after = roleId <$> mentionedRole message
                   ∧ pingContentOf after
                     = match mentionedRole message with
                       | Some role =>
                           if String.eqb (roleId role) "" then "No ping role given"
                           else "<@&" +:+ roleId role +:+ ">"
                       | None => "No ping role given"
                       end)
              ∧ (lowerArg toLowerCase args 0 ≠ "setrole" →
                 pingRoleId after = pingRoleId before)
              ∧ (lowerArg toLowerCase args 0 = "default-region" →
                   lowerArg toLowerCase args 1 ∉ ["us"; "eu"] →
                   after = before ∧ defaultRegion after = defaultRegion before)).
  { intros reply Nr Nd. exists reply. eexists. exists before. split; [reflexivity|].
    split; [exact Hget|]. split; [intros g' N; apply assocGet_ensureTenant_ne, N|].
    repeat (split; [reflexivity|]).
    split; [tauto|]. split; [intros H; contradiction|].
    split; [intros H1 H2; destruct (Nd H1 H2)|].
    split; [intros H; contradiction|]. split; [reflexivity|].
    intros _ _. split; reflexivity. }
  unfold handleConfigCommand. fold g. unfold bind at 1. rewrite getGuildConfig_run.
  fold before.
  destruct (String.eqb_spec (lowerArg toLowerCase args 0) "") as [E0|N0].
  { unfold ret. apply Same; rewrite E0; [discriminate|discriminate]. }
  destruct (String.eqb_spec (lowerArg toLowerCase args 0) "default-region") as [Ed|Nd].
  { destruct (bool_decide (lowerArg toLowerCase args 1 ∈ ["us"; "eu"])) eqn:R; simpl.
    - apply bool_decide_eq_true in R.
      unfold bind at 1. rewrite (modifyCfg_tenant g _ before _ w Hget). unfold ret.
      eexists. eexists. eexists. split; [reflexivity|].
      split; [apply (assocGet_alter_eq (λ _, _) _ _ _ Hget)|].
      split; [intros g' N; simpl; rewrite assocGet_alter_ne by congruence;
              apply assocGet_ensureTenant_ne, N|].
      repeat (split; [reflexivity|]).
      split.
      { intros _. unfold regionKnown. simpl.
        rewrite !elem_of_cons, elem_of_nil in R. destruct R as [->| [->|[]]]; auto. }
      split; [intros _; exact Ed|]. split; [reflexivity|].
      split; [rewrite Ed; discriminate|]. split; [reflexivity|].
      intros _ H. contradiction.
    - apply bool_decide_eq_false in R. unfold ret. apply Same; [rewrite Ed; discriminate|].
      intros _. exact R. }
  destruct (String.eqb_spec (lowerArg toLowerCase args 0) "setrole") as [Es|Ns].
  { destruct (mentionedRole message) as [role|] eqn:Hrole;
      unfold bind at 1; rewrite (modifyCfg_tenant g _ before _ w Hget); unfold ret;
      (eexists; eexists; eexists; split; [reflexivity|]);
      (split; [apply (assocGet_alter_eq (λ _, _) _ _ _ Hget)|]);
      (split; [intros g' N; simpl; rewrite assocGet_alter_ne by congruence;
               apply assocGet_ensureTenant_ne, N|]);
      repeat (split; [reflexivity|]);
      (split; [tauto|]); (split; [intros H; simpl in H; contradiction|]);
      (split; [intros H; congruence|]);
      (split; [|split; [intros H; contradiction|intros H; congruence]]);
      intros _; (split; [reflexivity|]); unfold pingContentOf; simpl; [|reflexivity].
    destruct (String.eqb (roleId role) ""); reflexivity. }
  unfold ret. apply Same; [exact Ns|]. intros H. contradiction.
Qed.

End WatchCommandFacts.

Section LbCommandFacts.
Context {text : JsText} (out : Outside).
Context (toLowerCase : string → string) (parseInt : string → Parsed).

Lemma solPriceStatusLine_run w : ∃ line, solPriceStatusLine w = (Returned line, w).
Proof.
  unfold solPriceStatusLine, bind, gets, ret.
  destruct (solPriceUsd w) as [p|]; [destruct (solPriceUpdatedAt w) as [t|];
    [destruct (JsVal.truthyNum (Some p))|]|]; eexists; reflexivity.
Qed.

Lemma findLobby_spec r n l :
  findLobby r n = Some l → l ∈ LOBBIES ∧ region l = r ∧ lobby l = n.
Proof.
  intros H. split; [exact (findLobby_elem _ _ _ H)|].
  unfold findLobby in H. apply find_some in H as [_ H].
  apply andb_true_iff in H as [H1 H2].
  apply String.eqb_eq in H1. apply Z.eqb_eq in H2. auto.
Qed.

Lemma lbButtons_first l ps b :
  b ∈ concat (lbButtons l (lbCurrentPage ps 0) (lbTotalPages ps)) →
  b = {| customId := "lb_next|" +:+ region l +:+ "|" +:+ pretty (lobby l) +:+ "|0";
         buttonLabel := "▶" |}.
Proof.
  pose proof (lbTotalPages_ceiling ps) as [Hge _].
  destruct (lbCurrentPage_clamped ps 0) as (_ & H0 & _). rewrite H0 by lia.
  unfold lbButtons. destruct (1 <? lbTotalPages ps); [|intros H; inversion H].
  change (0 <? 0) with false. cbv iota. rewrite app_nil_l.
  destruct (0 <? lbTotalPages ps - 1); simpl; [|intros H; inversion H].
  intros H. apply list_elem_of_singleton in H. exact H.
Qed.

(** X17. A [,lb] command never touches the tenants nor sends a
    message to a channel. It sends at most one request upstream, and
    only for the lobby its arguments name, when that lobby has an
    endpoint and its cache entry is missing or at least five seconds
    old; in every other case it leaves the world as it is. It throws
    only after that lookup, and only when the embed builder rejects the
    first page it has built for the lobby; otherwise it reaches its
    reply, and whatever it replies shows the first page: the only button
    a reply can carry is the next button of page 0. *)
Theorem lb_command_outcome (message : Message) (args : list string) (w : World) :
  ∃ r w',
    handleLbCommand out toLowerCase parseInt message args w = (r, w')
    ∧ guildConfigs w' = guildConfigs w ∧ sendLog w' = sendLog w
    ∧ (w' = w
       ∨ ∃ l u, l ∈ LOBBIES ∧ region l = lowerArg toLowerCase args 1
           ∧ parseArg parseInt args 0 = Whole (lobby l)
           ∧ url l = Some u ∧ cacheFresh l w = false
           ∧ netLog w' = (netLog w ++ [u])%list)
    ∧ (∀ reply, r = Returned reply →
         ∀ b, b ∈ concat (lbComponents reply) →
           ∃ l, l ∈ LOBBIES ∧
             b = {| customId := "lb_next|" +:+ region l +:+ "|" +:+ pretty (lobby l) +:+ "|0";
                    buttonLabel := "▶" |})
    ∧ (∀ e, r = Thrown e →
         ∃ l s view, l ∈ LOBBIES ∧ region l = lowerArg toLowerCase args 1
           ∧ parseArg parseInt args 0 = Whole (lobby l)
           ∧ lobbyCache w' !! key l = Some s ∧ noApi s = false
           ∧ buildLbEmbed l s (leaderboardPlayers s) 0 w' = (Returned view, w')
           ∧ embedOk out (lbEmbed view) = false)
    ∧ ((∀ e, embedOk out e = true) → ∃ reply, r = Returned reply).
Proof.
  set (Post := λ (r : Outcome LbView) (w' : World),
    guildConfigs w' = guildConfigs w ∧ sendLog w' = sendLog w
    ∧ (w' = w
       ∨ ∃ l u, l ∈ LOBBIES ∧ region l = lowerArg toLowerCase args 1
           ∧ parseArg parseInt args 0 = Whole (lobby l)
           ∧ url l = Some u ∧ cacheFresh l w = false
           ∧ netLog w' = (netLog w ++ [u])%list)
    ∧ (∀ reply, r = Returned reply →
         ∀ b, b ∈ concat (lbComponents reply) →
           ∃ l, l ∈ LOBBIES ∧
             b = {| customId := "lb_next|" +:+ region l +:+ "|" +:+ pretty (lobby l) +:+ "|0";
                    buttonLabel := "▶" |})
    ∧ (∀ e, r = Thrown e →
         ∃ l s view, l ∈ LOBBIES ∧ region l = lowerArg toLowerCase args 1
           ∧ parseArg parseInt args 0 = Whole (lobby l)
           ∧ lobbyCache w' !! key l = Some s ∧ noApi s = false
           ∧ buildLbEmbed l s (leaderboardPlayers s) 0 w' = (Returned view, w')
           ∧ embedOk out (lbEmbed view) = false)
    ∧ ((∀ e, embedOk out e = true) → ∃ reply, r = Returned reply)).
  enough (G : ∃ r w', handleLbCommand out toLowerCase parseInt message args w = (r, w')
                      ∧ Post r w') by exact G.
  assert (Plain : ∀ e : Embed,
            ∃ r w', (Returned (plainReply e), w) = (r, w') ∧ Post r w').
  { intros e. eexists _, _. split; [reflexivity|].
    split; [reflexivity|]. split; [reflexivity|]. split; [left; reflexivity|].
    split; [intros reply E b H; injection E as <-; inversion H|].
    split; [intros e0 E; discriminate E|]. intros _. eexists. reflexivity. }
  unfold handleLbCommand.
  destruct (length args <? 2)%nat.
  { unfold bind. destruct (solPriceStatusLine_run w) as [line ->]. unfold ret. apply Plain. }
  destruct (parseArg parseInt args 0) as [n|s0] eqn:P0; simpl; [|unfold ret; apply Plain].
  destruct (bool_decide (n ∈ [1; 5; 20])); simpl; [|unfold ret; apply Plain].
  destruct (bool_decide (lowerArg toLowerCase args 1 ∈ ["us"; "eu"])); simpl;
    [|unfold ret; apply Plain].
  destruct (findLobby (lowerArg toLowerCase args 1) n) as [l|] eqn:F;
    [|unfold ret; apply Plain].
  destruct (findLobby_spec _ _ _ F) as (Hl & Hr & Hn).
  destruct (JsVal.truthy (url l)) eqn:U; simpl; [|unfold ret; apply Plain].
  destruct (JsFacts.truthy_Some _ U) as (u & Hu & Hne).
  assert (HP : Whole n = Whole (lobby l)) by (rewrite Hn; reflexivity).
  unfold bind at 1. rewrite getLobbySnapshot_unfold.
  assert (Tail : ∀ (r : option Snapshot) w1,
            guildConfigs w1 = guildConfigs w → sendLog w1 = sendLog w →
            (∀ s, r = Some s → lobbyCache w1 !! key l = Some s) →
            (w1 = w ∨ cacheFresh l w = false ∧ netLog w1 = (netLog w ++ [u])%list) →
            ∃ r' w',
              match r with
              | Some s =>
                  if noApi s
                  then ret (plainReply (simpleEmbed "Error"
                         "Could not load lobby data right now. The game server might be offline or unreachable. Please try again in a moment."))
                  else
                    let! view := buildLbEmbed l s (leaderboardPlayers s) 0 in
                    if embedOk out (lbEmbed view) then ret view
                    else throw "CombinedPropertyError"
              | None =>
                  ret (plainReply (simpleEmbed "Error"
                         "Could not load lobby data right now. The game server might be offline or unreachable. Please try again in a moment."))
              end w1 = (r', w')
              ∧ Post r' w').
  { intros r w1 Hg Hs Hcache Hw.
    assert (Hw' : w1 = w
               ∨ ∃ l u, l ∈ LOBBIES ∧ region l = lowerArg toLowerCase args 1
                   ∧ Whole n = Whole (lobby l)
                   ∧ url l = Some u ∧ cacheFresh l w = false
                   ∧ netLog w1 = (netLog w ++ [u])%list).
    { destruct Hw as [->|[Hf Hn']]; [left; reflexivity|]. right. exists l, u. auto 10. }
    destruct r as [s|]; [destruct (noApi s) eqn:Na|];
      try (unfold ret; eexists _, _; split; [reflexivity|];
           split; [exact Hg|]; split; [exact Hs|]; split; [exact Hw'|];
           split; [intros reply E b H; injection E as <-; inversion H|];
           split; [intros e0 E; discriminate E|]; intros _; eexists; reflexivity).
    destruct (buildLbEmbed_fields l s (leaderboardPlayers s) 0 w1) as (view & Ev & _).
    unfold bind. rewrite Ev.
    destruct (embedOk out (lbEmbed view)) eqn:Ok.
    - exists (Returned view), w1. split; [reflexivity|].
      split; [exact Hg|]. split; [exact Hs|]. split; [exact Hw'|].
      split; [|split; [intros e0 E; discriminate E|intros _; eexists; reflexivity]].
      intros reply E b Hb. injection E as <-. exists l. split; [exact Hl|].
      apply (lbButtons_first l (leaderboardPlayers s)).
      assert (Ec : lbComponents view
                   = lbButtons l (lbCurrentPage (leaderboardPlayers s) 0)
                       (lbTotalPages (leaderboardPlayers s))).
      { unfold buildLbEmbed, bind in Ev. destruct (solPriceStatusLine_run w1) as [line El].
        rewrite El in Ev. unfold ret in Ev. injection Ev as <-. reflexivity. }
      rewrite <- Ec. exact Hb.
    - exists (Thrown "CombinedPropertyError"), w1. split; [reflexivity|].
      split; [exact Hg|]. split; [exact Hs|]. split; [exact Hw'|].
      split; [intros reply E; discriminate E|]. split.
      + intros e0 _. exists l, s, view. split; [exact Hl|]. split; [exact Hr|].
        split; [exact HP|]. split; [apply Hcache; reflexivity|]. split; [exact Na|].
        split; [exact Ev|exact Ok].
      + intros All. rewrite All in Ok. discriminate Ok. }
  destruct (cacheFresh l w) eqn:Fr.
  - cbv beta iota. apply Tail; auto.
  - destruct (fetch_total out l w) as (r0 & w0 & Ef0). rewrite Ef0.
    destruct (fetch_supported_log out l w u Hu Hne _ _ Ef0) as (Hlog & _ & _ & Hg & Hs).
    cbv beta iota. apply Tail; auto.
    intros s ->. destruct (fetch_supported_stores out l w u s w0 Hu Hne Ef0) as [Hc _].
    rewrite Hc. apply lookup_insert_eq.
Qed.

End LbCommandFacts.

(** A player whose display name has 300 characters leads the cached
    lobby: the field name of the first page is over the limit of the
    builder, and [,lb 1 us] throws instead of replying. *)
Example lb_long_name_throws :
  let w := SampleLobby.cachedAt 0 [Sample.player SampleCommands.longName 10] in
  handleLbCommand (text := SampleRuntime.text) SampleCommands.strict SampleCommands.lower
    SampleCommands.readInt SampleCommands.asker ["1"; "us"] w
  = (Thrown "CombinedPropertyError", w)
  ∧ ∃ reply,
      handleLbCommand (text := SampleRuntime.text) SampleCommands.strict SampleCommands.lower
        SampleCommands.readInt SampleCommands.asker ["1"; "us"]
        (SampleLobby.cachedAt 0 SampleLobby.five)
      = (Returned reply, SampleLobby.cachedAt 0 SampleLobby.five)
      ∧ length (fields (lbEmbed reply)) = 5%nat.
Proof. split; [vm_compute; reflexivity|]. eexists. vm_compute. split; reflexivity. Qed.

(** ** The registry *)

(** X18. The registry has a lobby for each of the three lobby numbers
    in each of the two regions, so the reply that no lobby definition
    was found is never given for arguments that pass the checks. The key
    of that lobby is the key [getLobbyKey] builds from region and number
    (the switch [,alert on] sets is the one the join pass reads), the
    lobby is found again under its key, and EU $5 is the only one
    without an endpoint. *)
Theorem registry_lookup (r : string) (n : Z) :
  n ∈ [1; 5; 20] → r ∈ ["us"; "eu"] →
  ∃ l, findLobby r n = Some l
    ∧ region l = r ∧ lobby l = n
    ∧ key l = getLobbyKey r n
    ∧ lobbyOfKey (getLobbyKey r n) = Some l
    ∧ (JsVal.truthy (url l) = false ↔ r = "eu" ∧ n = 5).
Proof.
  rewrite !elem_of_cons, !elem_of_nil.
  intros [->|[->|[->|[]]]] [->|[->|[]]]; eexists; (split; [reflexivity|]);
    repeat (split; [reflexivity|]);
    (split; [intros H; try discriminate H; split; reflexivity
            |intros [H1 H2]; try discriminate H1; try discriminate H2; reflexivity]).
Qed.

Lemma registry_lookup_witness :
  ∃ l, findLobby "eu" 5 = Some l ∧ key l = "eu-5" ∧ JsVal.truthy (url l) = false.
Proof.
  destruct (registry_lookup "eu" 5) as (l & F & _ & _ & K & _ & U).
  - rewrite !elem_of_cons. tauto.
  - rewrite !elem_of_cons. tauto.
  - exists l. split; [exact F|]. split; [exact K|]. apply U. split; reflexivity.
Defined.

(** ** Switching join alerts, and restarting *)

Lemma findLobby_valid r n l :
  findLobby r n = Some l →
  bool_decide (n ∈ [1; 5; 20]) && bool_decide (r ∈ ["us"; "eu"]) = true
  ∧ key l = getLobbyKey r n.
Proof.
  intros F. unfold findLobby in F. apply find_some in F as [Hin F].
  apply andb_true_iff in F as [H1 H2].
  apply String.eqb_eq in H1. apply Z.eqb_eq in H2. subst r n.
  unfold LOBBIES in Hin. simpl in Hin.
  repeat (destruct Hin as [<-|Hin]; [split; reflexivity|]). contradiction.
Qed.

Section Reannounce.
Context {text : JsText} (out : Outside).

(** With nothing remembered for the lobby, an iteration of the join
    loop reports every current identifier. *)
Lemma join_unseen g c p l w cfg snapshot :
  assocGet g (guildConfigs w) = Some cfg →
  alertEnabled cfg !! key l = Some true →
  default [] (lastSeenPlayers cfg !! key l) = [] →
  lobbyCache w !! key l = Some snapshot →
  noApi snapshot = false →
  let act := filter (λ q, joinActive q = true) (players snapshot) in
  let cur := currentIdsOf act in
  ∃ r w' joins,
    joinAlertsForLobby out g c p l w = (r, w')
    ∧ map playerKey joins = map Some cur
    ∧ (∀ q, q ∈ joins → q ∈ act)
    ∧ assocGet g (guildConfigs w') = Some (withLastSeen (key l) cur cfg)
    ∧ sendLog w'
      = (sendLog w ++
         match cur with
         | [] => []
         | _ => [{| toGuild := g; toChannel := c; content := p;
                    embed := Some (joinEmbed l joins (length act));
                    delivered := sendOk out (calls w) |}]
         end)%list.
Proof.
  intros Hcfg Hen Hlast Hc Hn act cur.
  destruct (joinAlertsForLobby_effect out g c p l w cfg snapshot Hcfg Hen Hc Hn)
    as (r & w' & Run & Hget & Hlog).
  cbv zeta in Hget, Hlog. fold act cur in Hget, Hlog. rewrite Hlast in Hlog.
  destruct (newJoinsOf_currentIds act []) as [Hkeys Hin]. fold cur in Hkeys, Hin.
  assert (Hall : filter (λ i, i ∉ []) cur = cur).
  { clear. induction cur as [|i cur IH]; [reflexivity|].
    rewrite filter_cons_True by apply not_elem_of_nil. rewrite IH. reflexivity. }
  rewrite Hall in Hkeys.
  exists r, w', (newJoinsOf act cur []). split; [exact Run|]. split; [exact Hkeys|].
  split; [exact Hin|]. split; [exact Hget|].
  rewrite Hlog. destruct cur as [|i cur']; destruct (newJoinsOf act _ []) eqn:J;
    try discriminate Hkeys; reflexivity.
Qed.

(** X19. Switching the join alerts of a lobby off and on again forgets
    who was seen: the two commands leave the alerts on and the last-seen
    set empty, touch neither the cache nor Discord, and the next join
    pass over the lobby reports every current identifier again, whoever
    had been reported before. *)
Theorem alerts_off_on_reannounce (g r : string) (n : Z) (l : LobbyDef) (w : World)
    (cfg : GuildConfig) :
  assocGet g (guildConfigs w) = Some cfg →
  JsVal.truthy (alertChannelId cfg) = true →
  findLobby r n = Some l →
  JsVal.truthy (url l) = true →
  alertEnabled cfg !! key l = Some true →
  ∃ w2 cfg2,
    (run alertSwitch false g r n in alertSwitch true g r n) w = (Returned tt, w2)
    ∧ assocGet g (guildConfigs w2) = Some cfg2
    ∧ alertEnabled cfg2 !! key l = Some true
    ∧ lastSeenPlayers cfg2 !! key l = Some []
    ∧ lobbyCache w2 = lobbyCache w ∧ sendLog w2 = sendLog w
    ∧ ∀ c p snapshot,
        lobbyCache w !! key l = Some snapshot → noApi snapshot = false →
        let act := filter (λ q, joinActive q = true) (players snapshot) in
        let cur := currentIdsOf act in
        ∃ r' w3 joins,
          joinAlertsForLobby out g c p l w2 = (r', w3)
          ∧ map playerKey joins = map Some cur
          ∧ sendLog w3
            = (sendLog w ++
               match cur with
               | [] => []
               | _ => [{| toGuild := g; toChannel := c; content := p;
                          embed := Some (joinEmbed l joins (length act));
                          delivered := sendOk out (calls w) |}]
               end)%list.
Proof.
  intros Hcfg Hch F U Hen.
  destruct (findLobby_valid r n l F) as [Hv Hk].
  set (k := key l) in *.
  set (cfg1 := withLastSeen k [] (withAlertEnabled k false cfg)).
  set (cfg2 := withAlertEnabled k true cfg1).
  assert (Hens : ensureTenant g (guildConfigs w) = guildConfigs w).
  { unfold ensureTenant. rewrite Hcfg. reflexivity. }
  assert (Ht : tenantOf g w = cfg) by (unfold tenantOf; rewrite Hcfg; reflexivity).
  assert (Off : alertSwitch false g r n w
                = (Returned tt, setGuildConfigs (assocAlter (λ _, cfg1) g (guildConfigs w)) w)).
  { unfold alertSwitch. unfold bind at 1. rewrite getGuildConfig_run, Ht, Hens.
    rewrite Hv, F, U. simpl. rewrite <- Hk. fold k. rewrite Hen. simpl.
    unfold bind. rewrite (modifyCfg_tenant g _ cfg _ w Hcfg).
    rewrite (modifyCfg_tenant g _ (withAlertEnabled k false cfg) _ w
               (assocGet_alter_eq (λ _, withAlertEnabled k false cfg) _ _ _ Hcfg)).
    rewrite assocAlter_twice. reflexivity. }
  set (w1 := setGuildConfigs (assocAlter (λ _, cfg1) g (guildConfigs w)) w) in *.
  assert (Hcfg1 : assocGet g (guildConfigs w1) = Some cfg1).
  { apply (assocGet_alter_eq (λ _, cfg1) _ _ _ Hcfg). }
  assert (On : alertSwitch true g r n w1
               = (Returned tt, setGuildConfigs (assocAlter (λ _, cfg2) g (guildConfigs w)) w)).
  { unfold alertSwitch. unfold bind at 1. rewrite getGuildConfig_run.
    assert (Ht1 : tenantOf g w1 = cfg1) by (unfold tenantOf; rewrite Hcfg1; reflexivity).
    assert (Hens1 : ensureTenant g (guildConfigs w1) = guildConfigs w1).
    { unfold ensureTenant. rewrite Hcfg1. reflexivity. }
    rewrite Ht1, Hens1. rewrite Hv, F, U. simpl. rewrite Hch. simpl.
    rewrite <- Hk. fold k. unfold bind.
    change (setGuildConfigs (guildConfigs w1) w1) with (setGuildConfigs (guildConfigs w1) w).
    rewrite (modifyCfg_tenant g _ cfg1 _ w Hcfg1).
    rewrite lookup_insert_eq. unfold ret. simpl. rewrite assocAlter_twice. reflexivity. }
  set (w2 := setGuildConfigs (assocAlter (λ _, cfg2) g (guildConfigs w)) w) in *.
  assert (Hcfg2 : assocGet g (guildConfigs w2) = Some cfg2).
  { apply (assocGet_alter_eq (λ _, cfg2) _ _ _ Hcfg). }
  exists w2, cfg2. split; [unfold bind; rewrite Off; exact On|].
  split; [exact Hcfg2|].
  split; [simpl; apply lookup_insert_eq|].
  split; [simpl; apply lookup_insert_eq|].
  split; [reflexivity|]. split; [reflexivity|].
  intros c p snapshot Hc Hn act cur.
  destruct (join_unseen g c p l w2 cfg2 snapshot Hcfg2) as (r' & w3 & joins & Run & Hk' & _ & _ & Hlog).
  - simpl. apply lookup_insert_eq.
  - simpl. fold k. rewrite lookup_insert_eq. reflexivity.
  - exact Hc.
  - exact Hn.
  - exists r', w3, joins. split; [exact Run|]. split; [exact Hk'|]. exact Hlog.
Qed.

End Reannounce.

(** ** Restarting on the saved file (src/unnamed/part_001) *)

Lemma watchSet_keys n x (l : list (Z * Watch)) :
  map fst (watchSet n x l) = if bool_decide (n ∈ map fst l) then map fst l
                             else (map fst l ++ [n])%list.
Proof.
  induction l as [|[n' x'] l IH]; simpl; [reflexivity|].
  destruct (Z.eqb_spec n' n) as [->|N]; simpl.
  - rewrite bool_decide_eq_true_2 by left. reflexivity.
  - rewrite IH. destruct (decide (n ∈ map fst l)) as [Hin|Hin].
    + rewrite !bool_decide_eq_true_2; [reflexivity|right; exact Hin|exact Hin].
    + rewrite !bool_decide_eq_false_2; [reflexivity| |exact Hin].
      rewrite not_elem_of_cons. split; [congruence|exact Hin].
Qed.

Lemma assocSet_keys {V} k (v : V) (l : list (string * V)) :
  map fst (assocSet k v l) = if bool_decide (k ∈ map fst l) then map fst l
                             else (map fst l ++ [k])%list.
Proof.
  induction l as [|[k' v'] l IH]; simpl; [reflexivity|].
  destruct (String.eqb_spec k' k) as [->|N]; simpl.
  - rewrite bool_decide_eq_true_2 by left. reflexivity.
  - rewrite IH. destruct (decide (k ∈ map fst l)) as [Hin|Hin].
    + rewrite !bool_decide_eq_true_2; [reflexivity|right; exact Hin|exact Hin].
    + rewrite !bool_decide_eq_false_2; [reflexivity| |exact Hin].
      rewrite not_elem_of_cons. split; [congruence|exact Hin].
Qed.

Lemma NoDup_snoc_keys {K} (l : list K) k `{!Decision (k ∈ l)} :
  NoDup l → NoDup (if bool_decide (k ∈ l) then l else (l ++ [k])%list).
Proof.
  intros Hnd. destruct (decide (k ∈ l)) as [Hin|Hin].
  - rewrite bool_decide_eq_true_2 by exact Hin. exact Hnd.
  - rewrite bool_decide_eq_false_2 by exact Hin. apply NoDup_app.
    split; [exact Hnd|]. split; [|apply NoDup_singleton].
    intros i Hi Hi'. apply list_elem_of_singleton in Hi'. subst i. contradiction.
Qed.

Lemma elem_of_watchSet n x (l : list (Z * Watch)) n' x' :
  (n', x') ∈ watchSet n x l → (n', x') ∈ l ∨ (n' = n ∧ x' = x).
Proof.
  induction l as [|[n0 x0] l IH]; simpl.
  - intros H. apply list_elem_of_singleton in H. injection H as -> ->. auto.
  - destruct (Z.eqb_spec n0 n) as [->|N]; rewrite !elem_of_cons.
    + intros [E|H]; [injection E as -> ->; auto|auto].
    + intros [E|H]; [auto|]. destruct (IH H) as [H'|H']; auto.
Qed.

Section RestartFacts.
Context {text : JsText}.

Lemma save_run w :
  Persist.saveGuildConfigsToDisk w
  = (Returned tt,
     setConfigFile
       (Some (map (λ '(guildId, cfg), (guildId, Persist.guildToJson cfg)) (guildConfigs w))) w).
Proof. reflexivity. Qed.

Lemma watchesOfJson_keyed stored ws :
  Persist.watchesOfJson stored = Some ws →
  NoDup (map fst ws) ∧ ∀ n x, (n, x) ∈ ws → watchId x = n.
Proof.
  unfold Persist.watchesOfJson.
  assert (Hnil : ∀ ws0, Some [] = Some ws0 →
            NoDup (map fst ws0) ∧ ∀ n (x : Watch), (n, x) ∈ ws0 → watchId x = n).
  { intros ws0 H. injection H as <-. split; [constructor|].
    intros n x H. apply elem_of_nil in H. contradiction. }
  destruct (Persist.field "watches" stored) as [[|b0|n0|s0|js|es]|]; try apply Hnil.
  destruct (existsb Persist.isNull js); [discriminate|]. intros H. injection H as <-.
  assert (G : ∀ acc : list (Z * Watch),
            NoDup (map fst acc) ∧ (∀ n x, (n, x) ∈ acc → watchId x = n) →
            NoDup (map fst (foldl (λ m j, let x := Persist.watchOfJson j in
                                           watchSet (watchId x) x m) acc js))
            ∧ ∀ n x, (n, x) ∈ foldl (λ m j, let x := Persist.watchOfJson j in
                                             watchSet (watchId x) x m) acc js →
                     watchId x = n).
  { clear. induction js as [|j js IH]; intros acc [Hnd Hid]; simpl; [split; assumption|].
    apply IH. split.
    - rewrite watchSet_keys. apply NoDup_snoc_keys, Hnd.
    - intros n x H. apply elem_of_watchSet in H as [H|[-> ->]]; [exact (Hid n x H)|reflexivity]. }
  apply G. split; [constructor|]. intros n x H. apply elem_of_nil in H. contradiction.
Qed.

Lemma guildOfJson_keyed stored cfg :
  Persist.guildOfJson stored = Some cfg → watchesKeyed cfg.
Proof.
  unfold Persist.guildOfJson. destruct (Persist.isNull stored); [discriminate|].
  destruct (Persist.watchesOfJson stored) as [ws|] eqn:E; [|discriminate].
  intros H. injection H as <-. exact (watchesOfJson_keyed stored ws E).
Qed.

Lemma readable_keyed (file : list (string * Json)) g cfg :
  (g, cfg) ∈ readableEntries file → watchesKeyed cfg.
Proof.
  induction file as [|[g0 stored] file IH]; simpl; [intros H; inversion H|].
  destruct (Persist.guildOfJson stored) as [cfg0|] eqn:E; [|intros H; inversion H].
  rewrite elem_of_cons. intros [H|H]; [|exact (IH H)].
  injection H as -> ->. exact (guildOfJson_keyed _ _ E).
Qed.

Lemma restored_keyed (entries acc : list (string * GuildConfig)) :
  tenantsKeyed acc → (∀ g cfg, (g, cfg) ∈ entries → watchesKeyed cfg) →
  tenantsKeyed (restoreInto acc entries).
Proof.
  unfold restoreInto.
  revert acc. induction entries as [|[g cfg] entries IH]; intros acc Hk He; simpl; [exact Hk|].
  apply IH.
  - destruct Hk as [Hnd Hw]. split.
    + rewrite assocSet_keys. apply NoDup_snoc_keys, Hnd.
    + intros g' cfg' H. apply elem_of_assocSet in H as [H| ->]; [exact (Hw g' cfg' H)|].
      eapply He. left.
  - intros g' cfg' H. eapply He. right. exact H.
Qed.

Lemma restoreInto_keys (entries acc : list (string * GuildConfig)) g :
  g ∈ map fst (restoreInto acc entries) ↔ g ∈ map fst acc ∨ g ∈ map fst entries.
Proof.
  unfold restoreInto.
  revert acc. induction entries as [|[g0 cfg] entries IH]; intros acc; simpl.
  - rewrite elem_of_nil. tauto.
  - rewrite IH, assocSet_keys, elem_of_cons.
    destruct (decide (g0 ∈ map fst acc)) as [Hin|Hin].
    + rewrite bool_decide_eq_true_2 by exact Hin.
      split; [tauto|]. intros [H|[->|H]]; auto.
    + rewrite bool_decide_eq_false_2 by exact Hin.
      rewrite elem_of_app, list_elem_of_singleton. tauto.
Qed.

Lemma existsb_isNull (ws : list Json) : existsb Persist.isNull ws = true ↔ JNull ∈ ws.
Proof.
  induction ws as [|j ws IH]; simpl.
  - rewrite elem_of_nil. split; [discriminate|tauto].
  - rewrite elem_of_cons, orb_true_iff, IH. destruct j; simpl; split;
      intros [H|H]; auto; discriminate.
Qed.

(** The restore throws on an entry exactly when it is a null entry. *)
Lemma guildOfJson_None stored : Persist.guildOfJson stored = None ↔ nullEntry stored.
Proof.
  unfold Persist.guildOfJson, Persist.watchesOfJson, nullEntry.
  destruct stored as [|b0|n0|s0|ws|entries]; simpl;
    try (split; [discriminate|intros [H|(e & ws' & H & _)]; discriminate H]).
  - split; [auto|reflexivity].
  - destruct (assocGet "watches" entries) as [[|b1|n1|s1|ws|es]|] eqn:E;
      try (split; [discriminate|];
           intros [H|(e & ws' & H & H' & _)]; [discriminate H|];
           injection H as <-; rewrite E in H'; discriminate H').
    destruct (existsb Persist.isNull ws) eqn:X.
    + split; [|reflexivity]. intros _. right. exists entries, ws.
      split; [reflexivity|]. split; [exact E|]. apply existsb_isNull, X.
    + split; [discriminate|]. intros [H|(e & ws' & H & H' & Hin)]; [discriminate H|].
      injection H as <-. rewrite E in H'. injection H' as <-.
      apply existsb_isNull in Hin. congruence.
Qed.

(** The guilds read are those of the entries before the first null entry. *)
Lemma readable_keys (before rest : list (string * Json)) :
  (∀ g stored, (g, stored) ∈ before → ¬ nullEntry stored) →
  (rest = [] ∨ ∃ g stored rest', rest = (g, stored) :: rest' ∧ nullEntry stored) →
  map fst (readableEntries (before ++ rest)) = map fst before.
Proof.
  intros Hb Hr. induction before as [|[g stored] before IH]; simpl.
  - destruct Hr as [->|(g & stored & rest' & -> & Hn)]; [reflexivity|]. simpl.
    apply guildOfJson_None in Hn. rewrite Hn. reflexivity.
  - destruct (Persist.guildOfJson stored) as [cfg|] eqn:E.
    + simpl. rewrite IH; [reflexivity|]. intros g' s' H. eapply Hb. right. exact H.
    + apply guildOfJson_None in E. exfalso. eapply Hb; [left|exact E].
Qed.

Lemma readable_sub (file : list (string * Json)) g :
  g ∈ map fst (readableEntries file) → g ∈ map fst file.
Proof.
  induction file as [|[g0 stored] file IH]; simpl; [auto|].
  destruct (Persist.guildOfJson stored); simpl.
  - rewrite !elem_of_cons. intros [H|H]; auto.
  - intros H. inversion H.
Qed.

Lemma guildToJson_persisted cfg :
  Persist.guildToJson (persisted cfg) = Persist.guildToJson cfg.
Proof.
  unfold Persist.guildToJson, persisted, Persist.textToJson. simpl.
  assert (Ht : ∀ v, Persist.orNull (keptText v) = Persist.orNull v).
  { intros v. rewrite !orNull_keptText. destruct v as [[|c s0]|]; reflexivity. }
  assert (Ho : ∀ n, Persist.orOne (if decide (n = 0) then 1 else n) = Persist.orOne n).
  { intros n. rewrite <- orOne_spec. apply orOne_idem. }
  rewrite !Ht, Ho. reflexivity.
Qed.

(** X20. Loading never throws and touches only the tenants; with no
    file they stay as they are. Otherwise they are replaced by what is
    read from the entries of the file that come before the first null
    entry, an entry that is [null] or has a [null] among its watches,
    where the restore stops; from all entries when there is none. The
    tenants restored are in the shape the rest of the program relies on:
    one entry per guild of the entries read, a later entry for the same
    guild replacing the earlier one, and for each tenant one watch per
    number, filed under its own id. *)
Theorem restored_tenants_keyed (w : World) :
  ∃ w', Persist.loadGuildConfigsFromDisk w = (Returned tt, w')
    ∧ lobbyCache w' = lobbyCache w ∧ sendLog w' = sendLog w ∧ netLog w' = netLog w
    ∧ match configFile w with
      | None => w' = w
      | Some file =>
          tenantsKeyed (guildConfigs w')
          ∧ guildConfigs w' = restoreInto [] (readableEntries file)
          ∧ (∀ g, g ∈ map fst (guildConfigs w') → g ∈ map fst file)
          ∧ (∀ before rest, file = (before ++ rest)%list →
               (∀ g stored, (g, stored) ∈ before → ¬ nullEntry stored) →
               (rest = [] ∨ ∃ g stored rest', rest = (g, stored) :: rest' ∧ nullEntry stored) →
               ∀ g, g ∈ map fst (guildConfigs w') ↔ g ∈ map fst before)
      end.
Proof.
  destruct (configFile w) as [file|] eqn:Hf.
  - rewrite (load_run w file Hf). eexists. split; [reflexivity|].
    repeat (split; [reflexivity|]). simpl. split; [|split; [reflexivity|split]].
    + apply restored_keyed.
      * split; [constructor|]. intros g cfg H. apply elem_of_nil in H. contradiction.
      * apply readable_keyed.
    + intros g H. apply restoreInto_keys in H as [H|H]; [inversion H|].
      exact (readable_sub file g H).
    + intros before rest -> Hb Hr g. rewrite restoreInto_keys, (readable_keys before rest Hb Hr).
      simpl. rewrite elem_of_nil. tauto.
  - unfold Persist.loadGuildConfigsFromDisk, tryCatch, bind, gets, ret. rewrite Hf.
    eexists. split; [reflexivity|]. auto.
Qed.

(** X21. Saving again after a restart reproduces the file: a process
    started on the file a world saved, and saving at once, writes the
    same file, tenant for tenant and key for key. *)
Theorem save_after_restart_same_file (w : World) (t : Z) :
  tenantsKeyed (guildConfigs w) →
  let saved := finalWorld Persist.saveGuildConfigsToDisk w in
  let again := finalWorld Persist.loadGuildConfigsFromDisk (restarted t saved) in
  configFile (finalWorld Persist.saveGuildConfigsToDisk again) = configFile saved
  ∧ is_Some (configFile saved).
Proof.
  intros [Hnd Hk] saved again.
  unfold again, saved, finalWorld. rewrite !save_run. simpl.
  rewrite (load_run _ (map (λ '(g, cfg), (g, Persist.guildToJson cfg)) (guildConfigs w)))
    by reflexivity.
  simpl. rewrite (readable_saved (guildConfigs w) Hk).
  rewrite restoreInto_fresh by (simpl; rewrite fst_map_second; exact Hnd).
  simpl. split; [|eauto]. f_equal. rewrite <- list_fmap_compose.
  apply list_fmap_ext. intros i [g cfg] _. simpl. rewrite guildToJson_persisted. reflexivity.
Qed.

End RestartFacts.

Section RestartAlerts.
Context {text : JsText} (out : Outside).

(** X22. After a restart nobody counts as seen: for a tenant restored
    from the file, the first join pass over a lobby whose alerts are on
    reports every current identifier of the lobby, whether or not it had
    been reported before the restart. *)
Theorem restart_reannounces (w : World) (file : list (string * Json))
    (g c p : string) (cfg : GuildConfig) (l : LobbyDef) (snapshot : Snapshot) :
  configFile w = Some file →
  let w' := finalWorld Persist.loadGuildConfigsFromDisk w in
  assocGet g (guildConfigs w') = Some cfg →
  alertEnabled cfg !! key l = Some true →
  lobbyCache w !! key l = Some snapshot →
  noApi snapshot = false →
  let act := filter (λ q, joinActive q = true) (players snapshot) in
  let cur := currentIdsOf act in
  lastSeenPlayers cfg = ∅
  ∧ ∃ r w3 joins,
      joinAlertsForLobby out g c p l w' = (r, w3)
      ∧ map playerKey joins = map Some cur
      ∧ (∀ q, q ∈ joins → q ∈ act)
      ∧ sendLog w3
        = (sendLog w ++
           match cur with
           | [] => []
           | _ => [{| toGuild := g; toChannel := c; content := p;
                      embed := Some (joinEmbed l joins (length act));
                      delivered := sendOk out (calls w) |}]
           end)%list.
Proof.
  intros Hf w' Hcfg Hen Hc Hn act cur.
  assert (Hw' : w' = setGuildConfigs (restoreInto [] (readableEntries file)) w).
  { unfold w', finalWorld. rewrite (load_run w file Hf). reflexivity. }
  assert (Hempty : lastSeenPlayers cfg = ∅).
  { apply assocGet_elem in Hcfg. rewrite Hw' in Hcfg. simpl in Hcfg.
    exact (restored_empty file g cfg Hcfg). }
  split; [exact Hempty|].
  destruct (join_unseen out g c p l w' cfg snapshot Hcfg Hen) as
    (r & w3 & joins & Run & Hk & Hin & _ & Hlog).
  - rewrite Hempty, lookup_empty. reflexivity.
  - rewrite Hw'. exact Hc.
  - exact Hn.
  - exists r, w3, joins. split; [exact Run|]. split; [exact Hk|]. split; [exact Hin|].
    rewrite Hlog, Hw'. reflexivity.
Qed.

End RestartAlerts.

(** ** The [,alert] command *)

Section AlertCommandFacts.
Context {text : JsText}.
Context (toLowerCase : string → string) (parseInt : string → Parsed).

(** X23. What a [,alert] command does to the world. [on] and [off]
    with three arguments and a lobby number that parses change the
    world as [alertSwitch] does: alerts are switched on only for a known
    lobby with an endpoint and only once the tenant has an alert
    channel, and switching them off empties the last-seen set. [channel]
    sets the alert channel to the first channel the message mentions if
    that is a text channel, and changes nothing else. Every other use of
    the command changes nothing, apart from creating the tenant. No use
    of it touches the lobby cache or sends a request upstream. *)
Theorem alert_command_outcome (message : Message) (args : list string) (w : World) :
  let g := messageGuildId message in
  let sub := lowerArg toLowerCase args 0 in
  let switching := String.eqb sub "on" || String.eqb sub "off" in
  ∃ reply w',
    handleAlertCommand toLowerCase parseInt message args w = (Returned reply, w')
    ∧ lobbyCache w' = lobbyCache w ∧ netLog w' = netLog w ∧ sendLog w' = sendLog w
    ∧ (∀ n, switching = true → (length args <? 3)%nat = false →
            parseArg parseInt args 1 = Whole n →
            w' = finalWorld (alertSwitch (String.eqb sub "on") g
                               (lowerArg toLowerCase args 2) n) w)
    ∧ (sub = "channel" →
         w' = withTenant g
                (match mentionedChannel message with
                 | Some channel =>
                     if isTextBased channel
                     then withAlertChannelId (Some (channelId channel)) (tenantOf g w)
                     else tenantOf g w
                 | None => tenantOf g w
                 end) w)
    ∧ (sub ≠ "channel" →
       (switching = true → (length args <? 3)%nat = false →
        isInteger (parseArg parseInt args 1) = false) →
       w' = withTenant g (tenantOf g w) w).
Proof.
  intros g sub switching.
  pose proof (assocGet_ensureTenant g (guildConfigs w)) as Hget. fold (tenantOf g w) in Hget.
  set (cfg := tenantOf g w) in *.
  set (w1 := setGuildConfigs (ensureTenant g (guildConfigs w)) w).
  assert (Hkeep : withTenant g cfg w = w1) by apply withTenant_keep.
  assert (Idle : ∀ reply : Embed,
            sub ≠ "channel" →
            (∀ n, switching = true → (length args <? 3)%nat = false →
                  parseArg parseInt args 1 = Whole n →
                  w1 = finalWorld (alertSwitch (String.eqb sub "on") g
                                     (lowerArg toLowerCase args 2) n) w) →
            ∃ reply' w',
              (Returned reply, w1) = (Returned reply', w')
              ∧ lobbyCache w' = lobbyCache w ∧ netLog w' = netLog w ∧ sendLog w' = sendLog w
              ∧ (∀ n, switching = true → (length args <? 3)%nat = false →
                      parseArg parseInt args 1 = Whole n →
                      w' = finalWorld (alertSwitch (String.eqb sub "on") g
                                         (lowerArg toLowerCase args 2) n) w)
              ∧ (sub = "channel" →
                   w' = withTenant g
                          (match mentionedChannel message with
                           | Some channel =>
                               if isTextBased channel
                               then withAlertChannelId (Some (channelId channel)) cfg
                               else cfg
                           | None => cfg
                           end) w)
              ∧ (sub ≠ "channel" →
                 (switching = true → (length args <? 3)%nat = false →
                  isInteger (parseArg parseInt args 1) = false) →
                 w' = withTenant g cfg w)).
  { intros reply Nc Hs. exists reply, w1. split; [reflexivity|].
    repeat (split; [reflexivity|]). split; [exact Hs|].
    split; [intros H; contradiction|]. intros _ _. symmetry. exact Hkeep. }
  unfold handleAlertCommand. fold g sub. unfold bind at 1. rewrite getGuildConfig_run.
  fold cfg w1.
  destruct (String.eqb_spec sub "") as [E0|N0].
  { unfold ret. apply Idle; [rewrite E0; discriminate|].
    intros n Hs. unfold switching in Hs. rewrite E0 in Hs. discriminate Hs. }
  destruct (String.eqb_spec sub "channel") as [Ec|Nc].
  { assert (Ns : switching = false) by (unfold switching; rewrite Ec; reflexivity).
    destruct (mentionedChannel message) as [channel|];
      [destruct (isTextBased channel); simpl|];
      try (unfold ret; exists (simpleEmbed "Invalid channel"
             "Please mention a text channel. Example: `,alert channel #damnbruh-alerts`"), w1;
           split; [reflexivity|]; repeat (split; [reflexivity|]);
           split; [intros n Hs; congruence|];
           split; [intros _; symmetry; exact Hkeep|intros H; contradiction]).
    unfold bind at 1. unfold w1. rewrite (modifyCfg_tenant g _ cfg _ w Hget). unfold ret.
    eexists. eexists. split; [reflexivity|]. repeat (split; [reflexivity|]).
    split; [intros n Hs; congruence|]. split; [intros _; reflexivity|intros H; contradiction]. }
  destruct switching eqn:Sw; unfold switching in Sw; rewrite Sw;
    [|destruct (String.eqb sub "list"); [|destruct (String.eqb sub "status")];
      unfold ret; apply Idle; try exact Nc; intros n Hs; discriminate Hs].
  destruct (length args <? 3)%nat eqn:L.
  { unfold ret. apply Idle; [exact Nc|]. intros n _ H. discriminate H. }
  destruct (parseArg parseInt args 1) as [n|s1] eqn:P1; simpl;
    [|unfold ret; apply Idle; [exact Nc|]; intros n _ _ H; discriminate H].
  assert (Switch : ∀ (reply : Embed) w',
            w' = finalWorld (alertSwitch (String.eqb sub "on") g
                               (lowerArg toLowerCase args 2) n) w →
            lobbyCache w' = lobbyCache w → netLog w' = netLog w → sendLog w' = sendLog w →
            ∃ reply' w'',
              (Returned reply, w') = (Returned reply', w'')
              ∧ lobbyCache w'' = lobbyCache w ∧ netLog w'' = netLog w ∧ sendLog w'' = sendLog w
              ∧ (∀ n0, true = true → false = false → Whole n = Whole n0 →
                      w'' = finalWorld (alertSwitch (String.eqb sub "on") g
                                          (lowerArg toLowerCase args 2) n0) w)
              ∧ (sub = "channel" →
                   w'' = withTenant g
                          (match mentionedChannel message with
                           | Some channel =>
                               if isTextBased channel
                               then withAlertChannelId (Some (channelId channel)) cfg
                               else cfg
                           | None => cfg
                           end) w)
              ∧ (sub ≠ "channel" →
                 (true = true → false = false → true = false) →
                 w'' = withTenant g cfg w)).
  { intros reply w' Hw H1 H2 H3. exists reply, w'. split; [reflexivity|].
    split; [exact H1|]. split; [exact H2|]. split; [exact H3|].
    split; [intros n0 _ _ E; injection E as <-; exact Hw|].
    split; [intros H; contradiction|]. intros _ H. discriminate (H eq_refl eq_refl). }
  destruct (bool_decide (n ∈ [1; 5; 20])) eqn:I; simpl;
    [|unfold ret; apply Switch; try reflexivity;
      unfold finalWorld, alertSwitch; unfold bind at 1; rewrite getGuildConfig_run;
      rewrite I; reflexivity].
  destruct (bool_decide (lowerArg toLowerCase args 2 ∈ ["us"; "eu"])) eqn:R; simpl;
    [|unfold ret; apply Switch; try reflexivity;
      unfold finalWorld, alertSwitch; unfold bind at 1; rewrite getGuildConfig_run;
      rewrite I, R; reflexivity].
  destruct (findLobby (lowerArg toLowerCase args 2) n) as [l|] eqn:F;
    [|unfold ret; apply Switch; try reflexivity;
      unfold finalWorld, alertSwitch; unfold bind at 1; rewrite getGuildConfig_run;
      rewrite I, R, F; reflexivity].
  destruct (JsVal.truthy (url l)) eqn:U; simpl;
    [|unfold ret; apply Switch; try reflexivity;
      unfold finalWorld, alertSwitch; unfold bind at 1; rewrite getGuildConfig_run;
      rewrite I, R, F, U; reflexivity].
  destruct (String.eqb sub "on") eqn:On.
  - destruct (JsVal.truthy (alertChannelId cfg)) eqn:Ch; simpl;
      [|unfold ret; apply Switch; try reflexivity;
        unfold finalWorld, alertSwitch; unfold bind at 1; rewrite getGuildConfig_run;
        fold cfg; rewrite I, R, F, U; simpl; rewrite Ch; reflexivity].
    destruct (lastSeenPlayers cfg !! getLobbyKey (lowerArg toLowerCase args 2) n) eqn:Ls;
      unfold bind, ret, modifyCfg, modify; apply Switch; try reflexivity;
      unfold finalWorld, alertSwitch; unfold bind at 1; rewrite getGuildConfig_run;
      fold cfg; rewrite I, R, F, U; simpl; rewrite Ch; simpl; rewrite Ls; reflexivity.
  - destruct (default false (alertEnabled cfg !! getLobbyKey (lowerArg toLowerCase args 2) n))
      eqn:En; simpl;
      unfold bind, ret, modifyCfg, modify; apply Switch; try reflexivity;
      unfold finalWorld, alertSwitch; unfold bind at 1; rewrite getGuildConfig_run;
      fold cfg; rewrite I, R, F, U; simpl; rewrite En; reflexivity.
Qed.

End AlertCommandFacts.

(** ** The further properties on the samples *)

Lemma watch_add_outcome_witness :
  let args := ["ADD"; "5"; "US"; "6"; "2"] in
  let w := SampleTenant.world 0 SampleLobby.five [] in
  ∃ reply w' after l,
    handleWatchCommand (text := SampleRuntime.text) SampleCommands.lower SampleCommands.readInt
      SampleCommands.asker args w = (Returned reply, w')
    ∧ assocGet "guild" (guildConfigs w') = Some after
    ∧ title reply = "Watch created"
    ∧ key l = "us-5"
    ∧ watches after = [(1, SampleLobby.watch1 None); (2, newWatch 2 l 6 2)]
    ∧ nextWatchId after = 3.
Proof.
  intros args w.
  destruct (watch_add_outcome (text := SampleRuntime.text) SampleCommands.lower
              SampleCommands.readInt SampleCommands.asker args w)
    as (reply & w' & after & Run & Get & _ & _ & _ & _ & Acc).
  - reflexivity.
  - apply NoDup_singleton.
  - intros n x H. apply list_elem_of_singleton in H. injection H as -> _. reflexivity.
  - destruct (addAccepted SampleCommands.lower SampleCommands.readInt args)
      as [[[l t] m]|] eqn:E; [|discriminate E].
    vm_compute in E. injection E as <- <- <-.
    destruct Acc as (Ht & _ & _ & _ & _ & ->).
    eexists reply, w', _,
      {| key := "us-5"; region := "us"; lobby := 5; label := "US $5";
         url := Some "https://damnbruh-game-server-instance-5-us.onrender.com/players" |}.
    split; [exact Run|]. split; [exact Get|]. split; [exact Ht|].
    split; [reflexivity|]. split; reflexivity.
Defined.

Lemma watch_remove_outcome_witness :
  let args := ["remove"; "1"] in
  let w := SampleTenant.world 0 SampleLobby.five [] in
  ∃ reply w' after,
    handleWatchCommand (text := SampleRuntime.text) SampleCommands.lower SampleCommands.readInt
      SampleCommands.asker args w = (Returned reply, w')
    ∧ assocGet "guild" (guildConfigs w') = Some after
    ∧ watches after = []
    ∧ nextWatchId after = 2
    ∧ title reply = "Watch removed".
Proof.
  intros args w.
  destruct (watch_remove_outcome (text := SampleRuntime.text) SampleCommands.lower
              SampleCommands.readInt SampleCommands.asker args w)
    as (reply & w' & after & Run & Get & _ & Rest & Out).
  - reflexivity.
  - apply NoDup_singleton.
  - intros n x H. apply list_elem_of_singleton in H. injection H as -> _. reflexivity.
  - change (parseArg SampleCommands.readInt args 1) with (Whole 1) in Out.
    destruct Out as [Hw Ht].
    exists reply, w', after. split; [exact Run|]. split; [exact Get|].
    split; [exact Hw|]. split; [exact (f_equal nextWatchId Rest)|].
    apply Ht. left.
Defined.

Lemma watch_commands_keep_order_witness :
  let args := ["add"; "20"; "eu"; "3"; "10"] in
  let w := startWorld 0 in
  let w' := finalWorld (handleWatchCommand (text := SampleRuntime.text) SampleCommands.lower
                          SampleCommands.readInt SampleCommands.asker args) w in
  tenantsOrderly (guildConfigs w') ∧ map fst (guildConfigs w') = ["guild"].
Proof.
  intros args w w'. split; [|reflexivity].
  apply (watch_commands_keep_order (text := SampleRuntime.text) SampleCommands.lower
           SampleCommands.readInt SampleCommands.asker args w w'
           (fst (handleWatchCommand (text := SampleRuntime.text) SampleCommands.lower
                   SampleCommands.readInt SampleCommands.asker args w))).
  - apply surjective_pairing.
  - split; [constructor|]. intros g cfg H. apply elem_of_nil in H. contradiction.
Defined.

Lemma alerts_off_on_reannounce_witness :
  let w := SampleTenant.world 0 SampleLobby.five ["a"; "b"; "c"; "d"; "e"] in
  ∃ w2 r' w3 joins,
    (run alertSwitch false "guild" "us" 1 in alertSwitch true "guild" "us" 1) w
    = (Returned tt, w2)
    ∧ joinAlertsForLobby (text := SampleRuntime.text) SampleLobby.prompt
        "guild" "channel" "<@&role>" Sample.us1 w2 = (r', w3)
    ∧ map playerKey joins = [Some "a"; Some "b"; Some "c"; Some "d"; Some "e"]
    ∧ length (sendLog w3) = 1%nat.
Proof.
  intros w.
  destruct (alerts_off_on_reannounce (text := SampleRuntime.text) SampleLobby.prompt
              "guild" "us" 1 Sample.us1 w (SampleTenant.tenant ["a"; "b"; "c"; "d"; "e"]))
    as (w2 & cfg2 & Run & _ & _ & _ & _ & _ & Next); try reflexivity.
  destruct (Next "channel" "<@&role>" (Sample.snapshotOf Sample.us1 SampleLobby.five 0))
    as (r' & w3 & joins & Run' & Hk & Hlog); try reflexivity.
  exists w2, r', w3, joins. split; [exact Run|]. split; [exact Run'|]. split; [exact Hk|].
  rewrite Hlog. reflexivity.
Defined.

Lemma save_after_restart_same_file_witness :
  let w := SampleTenant.world 0 SampleLobby.five ["a"; "b"] in
  let saved := finalWorld (Persist.saveGuildConfigsToDisk (text := SampleRuntime.text)) w in
  let again := finalWorld (Persist.loadGuildConfigsFromDisk (text := SampleRuntime.text))
                 (restarted 9 saved) in
  configFile (finalWorld (Persist.saveGuildConfigsToDisk (text := SampleRuntime.text)) again)
  = configFile saved
  ∧ is_Some (configFile saved).
Proof.
  intros w.
  apply (save_after_restart_same_file (text := SampleRuntime.text) w 9). split.
  - apply NoDup_singleton.
  - intros g cfg Hin. apply list_elem_of_singleton in Hin. inversion Hin. split.
    + apply NoDup_singleton.
    + intros n x Hx. apply list_elem_of_singleton in Hx. inversion Hx. reflexivity.
Defined.

Lemma restart_reannounces_witness :
  let w := finalWorld (Persist.saveGuildConfigsToDisk (text := SampleRuntime.text))
             (SampleTenant.world 0 SampleLobby.five ["a"; "b"; "c"; "d"; "e"]) in
  let w' := finalWorld (Persist.loadGuildConfigsFromDisk (text := SampleRuntime.text)) w in
  ∃ r w3 joins,
    joinAlertsForLobby (text := SampleRuntime.text) SampleLobby.prompt
      "guild" "channel" "<@&role>" Sample.us1 w' = (r, w3)
    ∧ map playerKey joins = [Some "a"; Some "b"; Some "c"; Some "d"; Some "e"]
    ∧ length (sendLog w3) = 1%nat.
Proof.
  intros w w'.
  destruct (restart_reannounces (text := SampleRuntime.text) SampleLobby.prompt w
              [("guild", Persist.guildToJson (text := SampleRuntime.text)
                           (SampleTenant.tenant ["a"; "b"; "c"; "d"; "e"]))]
              "guild" "channel" "<@&role>"
              (persisted (SampleTenant.tenant ["a"; "b"; "c"; "d"; "e"]))
              Sample.us1 (Sample.snapshotOf Sample.us1 SampleLobby.five 0))
    as (_ & r & w3 & joins & Run & Hk & _ & Hlog); try reflexivity.
  exists r, w3, joins. split; [exact Run|]. split; [exact Hk|]. rewrite Hlog. reflexivity.
Defined.

(** ** The region summary *)

Lemma insertByUsd_perm p l : Summary.insertByUsd p l ≡ₚ p :: l.
Proof.
  induction l as [|q l IH]; simpl; [reflexivity|].
  destruct (Summary.staysBefore p q); [reflexivity|].
  rewrite IH. apply Permutation_swap.
Qed.

Lemma sortByUsdDesc_perm l : Summary.sortByUsdDesc l ≡ₚ l.
Proof.
  induction l as [|p l IH]; simpl; [reflexivity|].
  unfold Summary.sortByUsdDesc in *. simpl. rewrite insertByUsd_perm, IH. reflexivity.
Qed.

Lemma insertByUsd_sorted p l : usdDescending l → usdDescending (Summary.insertByUsd p l).
Proof.
  unfold usdDescending. induction l as [|q l IH]; intros Hs; simpl.
  - constructor; constructor.
  - apply StronglySorted_inv in Hs as [Hl Hq].
    destruct (Summary.staysBefore p q) eqn:B; unfold Summary.staysBefore in B.
    + apply Qle_bool_iff in B. constructor.
      * constructor; assumption.
      * constructor; [exact B|].
        eapply Forall_impl; [exact Hq|]. intros r Hr. simpl in Hr.
        eapply Qle_trans; eassumption.
    + constructor; [apply IH, Hl|].
      assert (Hpq : (Summary.usdOrZero p <= Summary.usdOrZero q)%Q).
      { apply Qlt_le_weak, Qnot_le_lt. intros H. apply Qle_bool_iff in H. congruence. }
      rewrite insertByUsd_perm. constructor; assumption.
Qed.

Lemma sortByUsdDesc_sorted l : usdDescending (Summary.sortByUsdDesc l).
Proof.
  induction l as [|p l IH]; [constructor|].
  unfold Summary.sortByUsdDesc in *. simpl. apply insertByUsd_sorted, IH.
Qed.

Lemma sorted_take_drop {A} (R : A → A → Prop) (l : list A) n p q :
  StronglySorted R l → p ∈ take n l → q ∈ drop n l → R p q.
Proof.
  revert n. induction l as [|a l IH]; intros n Hs Hp Hq.
  - rewrite take_nil in Hp. apply elem_of_nil in Hp. contradiction.
  - apply StronglySorted_inv in Hs as [Hl Ha]. destruct n as [|n]; simpl in *.
    + apply elem_of_nil in Hp. contradiction.
    + apply elem_of_cons in Hp as [->|Hp].
      * rewrite Forall_forall in Ha. apply Ha.
        exact (elem_of_sublist _ _ _ Hq (sublist_drop l n)).
      * eapply IH; eauto.
Qed.

(** X24. The players a region summary shows for a lobby are the five
    most valuable of its active players: the list it cuts them from
    holds exactly the snapshot's players with a size above 3, ordered by
    USD value with the largest first (a player without USD value counts
    as 0), so no player left out is worth more than a player shown; the
    count in the summary is that of all active players. *)
Theorem summary_shows_top_five (s : Snapshot) :
  let active := Summary.activePlayersOf s in
  let shown := take 5 active in
  active ≡ₚ filter (λ p, lbActive p = true) (players s)
  ∧ usdDescending active
  ∧ (length shown ≤ 5)%nat
  ∧ active = (shown ++ drop 5 active)%list
  ∧ ∀ p q, p ∈ shown → q ∈ drop 5 active →
           (Summary.usdOrZero q <= Summary.usdOrZero p)%Q.
Proof.
  intros active shown. unfold active, Summary.activePlayersOf.
  split; [apply sortByUsdDesc_perm|]. split; [apply sortByUsdDesc_sorted|].
  split; [unfold shown; rewrite length_take; lia|].
  split; [symmetry; apply take_drop|].
  intros p q Hp Hq.
  exact (sorted_take_drop _ _ 5 p q (sortByUsdDesc_sorted _) Hp Hq).
Qed.

Section SummaryFacts.
Context {text : JsText} (out : Outside).

Lemma getLobbySnapshot_log l w u :
  url l = Some u → u ≠ "" →
  ∃ r w', getLobbySnapshot out l w = (Returned r, w')
    ∧ guildConfigs w' = guildConfigs w ∧ sendLog w' = sendLog w
    ∧ (netLog w' = netLog w ∨ netLog w' = (netLog w ++ [u])%list).
Proof.
  intros Hu Hne. rewrite getLobbySnapshot_unfold. destruct (cacheFresh l w).
  - eexists. eexists. split; [reflexivity|]. auto.
  - destruct (fetch_total out l w) as (r & w' & E). rewrite E.
    destruct (fetch_supported_log out l w u Hu Hne _ _ E) as (Hlog & _ & _ & Hg & Hs).
    eexists. eexists. split; [reflexivity|]. auto.
Qed.

Lemma summaryLoop_log r ns embeds w :
  ∃ r0 w' asked,
    Summary.summaryLoop out r ns embeds w = (r0, w')
    ∧ guildConfigs w' = guildConfigs w ∧ sendLog w' = sendLog w
    ∧ netLog w' = (netLog w ++ asked)%list
    ∧ asked `sublist_of` endpointsOf (omap (findLobby r) ns)
    ∧ ∀ result, r0 = Returned result →
        (length embeds ≤ length result ≤ length embeds + length ns)%nat.
Proof.
  revert embeds w. induction ns as [|n ns IH]; intros embeds w; simpl.
  - exists (Returned embeds), w, []. split; [reflexivity|]. rewrite app_nil_r.
    split; [reflexivity|]. split; [reflexivity|]. split; [reflexivity|].
    split; [constructor|]. intros result E. injection E as <-. lia.
  - destruct (findLobby r n) as [l|] eqn:F.
    + unfold endpointsOf. simpl. fold (endpointsOf (omap (findLobby r) ns)).
      destruct (JsVal.truthy (url l)) eqn:U; simpl.
      * destruct (JsFacts.truthy_Some _ U) as (u & Hu & Hne). rewrite Hu.
        unfold bind.
        destruct (getLobbySnapshot_log l w u Hu Hne) as (s & w1 & E & Hg & Hs & Hlog).
        rewrite E.
        assert (Step : ∀ embeds', (length embeds ≤ length embeds' ≤ length embeds + 1)%nat →
                  ∃ r0 w' asked,
                    Summary.summaryLoop out r ns embeds' w1 = (r0, w')
                    ∧ guildConfigs w' = guildConfigs w ∧ sendLog w' = sendLog w
                    ∧ netLog w' = (netLog w ++ asked)%list
                    ∧ asked `sublist_of` u :: endpointsOf (omap (findLobby r) ns)
                    ∧ ∀ result, r0 = Returned result →
                        (length embeds ≤ length result
                         ≤ length embeds + S (length ns))%nat).
        { intros embeds' Hlen.
          destruct (IH embeds' w1) as (r0 & w' & asked & Run & Hg' & Hs' & Hlog' & Hsub & Hn).
          destruct Hlog as [Hl|Hl].
          - exists r0, w', asked. split; [exact Run|]. split; [congruence|].
            split; [congruence|]. split; [congruence|].
            split; [apply sublist_cons, Hsub|]. intros result Er.
            specialize (Hn result Er). lia.
          - exists r0, w', (u :: asked). split; [exact Run|]. split; [congruence|].
            split; [congruence|]. split.
            + rewrite Hlog', Hl, <- app_assoc. reflexivity.
            + split; [apply sublist_skip, Hsub|]. intros result Er.
              specialize (Hn result Er). lia. }
        destruct s as [s|]; [destruct (noApi s)|]; try (apply Step; lia).
        destruct (embedOk out _).
        -- apply Step. rewrite length_app. simpl. lia.
        -- unfold throw. destruct Hlog as [Hl|Hl].
           ++ exists (Thrown "CombinedPropertyError"), w1, []. split; [reflexivity|].
              split; [exact Hg|]. split; [exact Hs|]. rewrite app_nil_r.
              split; [exact Hl|]. split; [apply sublist_nil_l|]. intros result Er.
              discriminate Er.
           ++ exists (Thrown "CombinedPropertyError"), w1, [u]. split; [reflexivity|].
              split; [exact Hg|]. split; [exact Hs|].
              split; [exact Hl|]. split; [apply sublist_skip, sublist_nil_l|].
              intros result Er. discriminate Er.
      * destruct (IH embeds w) as (r0 & w' & asked & Run & Hg' & Hs' & Hlog' & Hsub & Hn).
        exists r0, w', asked. split; [exact Run|]. split; [exact Hg'|].
        split; [exact Hs'|]. split; [exact Hlog'|]. split; [exact Hsub|].
        intros result Er. specialize (Hn result Er). lia.
    + destruct (IH embeds w) as (r0 & w' & asked & Run & Hg' & Hs' & Hlog' & Hsub & Hn).
      exists r0, w', asked. split; [exact Run|]. split; [exact Hg'|].
      split; [exact Hs'|]. split; [exact Hlog'|]. split; [exact Hsub|].
      intros result Er. specialize (Hn result Er). lia.
Qed.

Lemma findLobby_region r n l : findLobby r n = Some l → r = "us" ∨ r = "eu".
Proof.
  intros F. unfold findLobby in F. apply find_some in F as [Hin F].
  apply andb_true_iff in F as [H1 _]. apply String.eqb_eq in H1. subst r.
  unfold LOBBIES in Hin. simpl in Hin.
  repeat (destruct Hin as [<-|Hin]; [auto|]). contradiction.
Qed.

(** The lobbies the loop looks up are those of the region that have an
    endpoint, in registry order. *)
Lemma summary_lobbies r :
  filter (λ l, JsVal.truthy (url l) = true) (omap (findLobby r) (Summary.lobbyNumbersOf r))
  = regionLobbies r.
Proof.
  destruct (String.eqb_spec r "us") as [->|Nus]; [vm_compute; reflexivity|].
  destruct (String.eqb_spec r "eu") as [->|Neu]; [vm_compute; reflexivity|].
  assert (Hnone : ∀ n, findLobby r n = None).
  { intros n. destruct (findLobby r n) eqn:F; [|reflexivity].
    destruct (findLobby_region _ _ _ F); contradiction. }
  assert (E : filter (λ l, String.eqb (region l) r = true) LOBBIES = []).
  { apply elem_of_nil_inv. intros l Hl. apply list_elem_of_filter in Hl as [H1 H2].
    apply String.eqb_eq in H1. apply list_elem_of_In in H2. unfold LOBBIES in H2.
    simpl in H2. repeat (destruct H2 as [<-|H2]; [simpl in H1; congruence|]).
    contradiction. }
  unfold regionLobbies. rewrite E.
  unfold Summary.lobbyNumbersOf. destruct (String.eqb r "us"); simpl; rewrite !Hnone;
    reflexivity.
Qed.

(** The loop against the lookups: it pushes one embed per lobby that
    answers, and throws at the first one the builder rejects. *)
Lemma summaryLoop_lookups r ns w :
  let embedOf := λ a : LobbyDef * Snapshot,
                   Summary.summaryEmbed (fst a) r (Summary.activePlayersOf (snd a)) in
  ∃ answers w2,
    lookups out (filter (λ l, JsVal.truthy (url l) = true) (omap (findLobby r) ns)) w
    = (Returned answers, w2)
    ∧ (∀ l s, (l, s) ∈ answers → noApi s = false ∧ l ∈ omap (findLobby r) ns)
    ∧ (length answers ≤ length ns)%nat
    ∧ ∀ embeds,
        (forallb (λ a, embedOk out (embedOf a)) answers = true →
           Summary.summaryLoop out r ns embeds w
           = (Returned (embeds ++ map embedOf answers)%list, w2))
        ∧ (forallb (λ a, embedOk out (embedOf a)) answers = false →
             ∃ w', Summary.summaryLoop out r ns embeds w
                   = (Thrown "CombinedPropertyError", w')).
Proof.
  intros embedOf. revert w. induction ns as [|n ns IH]; intros w; simpl;
    try change (list_omap Z LobbyDef (findLobby r) ns) with (omap (findLobby r) ns).
  - exists [], w. split; [reflexivity|]. split; [intros l s H; inversion H|].
    split; [simpl; lia|]. intros embeds. simpl. rewrite app_nil_r.
    split; [reflexivity|discriminate].
  - destruct (findLobby r n) as [l|] eqn:F; simpl.
    + destruct (JsVal.truthy (url l)) eqn:U; simpl.
      * rewrite filter_cons_True by exact U. simpl.
        destruct (JsFacts.truthy_Some _ U) as (u & Hu & Hne).
        destruct (getLobbySnapshot_log l w u Hu Hne) as (s & w1 & E & _).
        destruct (IH w1) as (more & w2 & Run & Hin & Hlen & Loop).
        unfold bind. rewrite E, Run. unfold ret.
        assert (Skip : ∃ answers w3,
                  (Returned more, w2) = (Returned answers, w3)
                  ∧ (∀ l0 s0, (l0, s0) ∈ answers →
                       noApi s0 = false ∧ l0 ∈ l :: omap (findLobby r) ns)
                  ∧ (length answers ≤ S (length ns))%nat
                  ∧ ∀ embeds,
                      (forallb (λ a, embedOk out (embedOf a)) answers = true →
                         Summary.summaryLoop out r ns embeds w1
                         = (Returned (embeds ++ map embedOf answers)%list, w3))
                      ∧ (forallb (λ a, embedOk out (embedOf a)) answers = false →
                           ∃ w', Summary.summaryLoop out r ns embeds w1
                                 = (Thrown "CombinedPropertyError", w'))).
        { exists more, w2. split; [reflexivity|]. split.
          - intros l0 s0 H0. destruct (Hin l0 s0 H0). split; [assumption|]. right. assumption.
          - split; [lia|exact Loop]. }
        destruct s as [s|]; [destruct (noApi s) eqn:Na|]; try exact Skip.
        exists ((l, s) :: more), w2. split; [reflexivity|]. split.
        { intros l0 s0 H0. apply elem_of_cons in H0 as [H0|H0].
          - injection H0 as -> ->. split; [exact Na|left].
          - destruct (Hin l0 s0 H0). split; [assumption|]. right. assumption. }
        split; [simpl; lia|].
        intros embeds. simpl. fold (embedOf (l, s)).
        change (Summary.summaryEmbed l r (Summary.activePlayersOf s)) with (embedOf (l, s)).
        destruct (embedOk out (embedOf (l, s))); simpl.
        -- destruct (Loop (embeds ++ [embedOf (l, s)])%list) as [Ok Bad]. split.
           ++ intros H. rewrite (Ok H), <- app_assoc. reflexivity.
           ++ exact Bad.
        -- split; [discriminate|]. intros _. eexists. reflexivity.
      * rewrite filter_cons_False by (rewrite U; discriminate).
        destruct (IH w) as (more & w2 & Run & Hin & Hlen & Loop).
        exists more, w2. split; [exact Run|]. split.
        { intros l0 s0 H0. destruct (Hin l0 s0 H0). split; [assumption|]. right. assumption. }
        split; [lia|exact Loop].
    + destruct (IH w) as (more & w2 & Run & Hin & Hlen & Loop).
      exists more, w2. split; [exact Run|]. split; [exact Hin|]. split; [lia|exact Loop].
Qed.

(** X25. The summary of a region looks up the lobbies of the region
    that have an endpoint, in registry order, and replies with one embed
    per lobby that answered, in that order: the embed of that lobby's
    snapshot; or, when none answered, with the single embed that says no
    data is available. So a reply has between one and three embeds. It
    throws only when the embed builder rejects the embed of a lobby that
    answered. It touches neither the tenants nor Discord's log, and what
    it asks upstream are endpoints of lobbies of that region, each at
    most once and in registry order: never more than three requests,
    never one for a lobby without endpoint, and none at all for an
    unknown region. *)
Theorem region_summary_outcome (r : string) (w : World) :
  let embedOf := λ a : LobbyDef * Snapshot,
                   Summary.summaryEmbed (fst a) r (Summary.activePlayersOf (snd a)) in
  ∃ r0 w' asked answers w2,
    Summary.handleRegionSummaryCommand out r w = (r0, w')
    ∧ guildConfigs w' = guildConfigs w ∧ sendLog w' = sendLog w
    ∧ netLog w' = (netLog w ++ asked)%list
    ∧ asked `sublist_of` endpointsOf (filter (λ l, String.eqb (region l) r = true) LOBBIES)
    ∧ lookups out (regionLobbies r) w = (Returned answers, w2)
    ∧ (∀ l s, (l, s) ∈ answers → noApi s = false ∧ l ∈ regionLobbies r)
    ∧ (∀ embeds, r0 = Returned embeds →
         w' = w2
         ∧ (1 ≤ length embeds ≤ 3)%nat
         ∧ embeds
           = match answers with
             | [] => [simpleEmbed (if String.eqb r "us" then "US Lobby Summary"
                                   else "EU Lobby Summary")
                        "No lobby data available right now."]
             | _ => map embedOf answers
             end)
    ∧ (∀ e, r0 = Thrown e → ∃ a, a ∈ answers ∧ embedOk out (embedOf a) = false)
    ∧ (forallb (λ a, embedOk out (embedOf a)) answers = true → ∃ embeds, r0 = Returned embeds).
Proof.
  intros embedOf.
  destruct (summaryLoop_log r (Summary.lobbyNumbersOf r) [] w)
    as (r1 & w1 & asked & Run & Hg & Hs & Hlog & Hsub & Hn).
  destruct (summaryLoop_lookups r (Summary.lobbyNumbersOf r) w)
    as (answers & w2 & Look & Hans & Hlen & Loop).
  fold embedOf in Loop. rewrite summary_lobbies in Look.
  destruct (Loop []) as [Ok Bad]. clear Loop.
  assert (Hlen3 : (length (Summary.lobbyNumbersOf r) ≤ 3)%nat).
  { unfold Summary.lobbyNumbersOf. destruct (String.eqb r "us"); simpl; lia. }
  assert (Hsub' : asked `sublist_of`
                    endpointsOf (filter (λ l, String.eqb (region l) r = true) LOBBIES)).
  { destruct (String.eqb_spec r "us") as [->|Nus]; [exact Hsub|].
    destruct (String.eqb_spec r "eu") as [->|Neu]; [exact Hsub|].
    assert (Hnone : ∀ n, findLobby r n = None).
    { intros n. destruct (findLobby r n) eqn:F; [|reflexivity].
      destruct (findLobby_region _ _ _ F); contradiction. }
    unfold Summary.lobbyNumbersOf in Hsub.
    destruct (String.eqb r "us"); simpl in Hsub; rewrite !Hnone in Hsub;
      apply sublist_nil_r in Hsub; subst asked; apply sublist_nil_l. }
  assert (Hans' : ∀ l s, (l, s) ∈ answers → noApi s = false ∧ l ∈ regionLobbies r).
  { intros l s H. destruct (Hans l s H) as [Na _]. split; [exact Na|].
    assert (G : ∀ ls w answers w2,
              lookups out ls w = (Returned answers, w2) →
              ∀ l s, (l, s) ∈ answers → l ∈ ls).
    { clear. induction ls as [|l0 ls IH]; intros w answers w2; simpl.
      - unfold ret. intros E l s H. injection E as <- <-. inversion H.
      - unfold bind. destruct (getLobbySnapshot out l0 w) as [[snap|e] w1]; [|discriminate].
        destruct (lookups out ls w1) as [[more|e] w3] eqn:E1; [|discriminate].
        unfold ret. intros E l s H. injection E as <- <-.
        assert (Hm : (l, s) ∈ more → l ∈ l0 :: ls).
        { intros Hm. right. exact (IH w1 more w3 E1 l s Hm). }
        destruct snap as [s0|]; [destruct (noApi s0)|]; try exact (Hm H).
        apply elem_of_cons in H as [H|H]; [injection H as -> ->; left|exact (Hm H)]. }
    exact (G _ _ _ _ Look l s H). }
  unfold Summary.handleRegionSummaryCommand, bind.
  destruct (forallb (λ a, embedOk out (embedOf a)) answers) eqn:All.
  - specialize (Ok All). simpl in Ok. rewrite Ok in Run |- *.
    injection Run as <- <-.
    assert (Hres : ∃ embeds,
              (if (length (map embedOf answers) =? 0)%nat
               then ret [ {| title := if String.eqb r "us" then "US Lobby Summary"
                                      else "EU Lobby Summary";
                             description := "No lobby data available right now.";
                             color := ORANGE; fields := []; footer := None |} ]
               else ret (map embedOf answers)) w2 = (Returned embeds, w2)
              ∧ (1 ≤ length embeds ≤ 3)%nat
              ∧ embeds
                = match answers with
                  | [] => [simpleEmbed (if String.eqb r "us" then "US Lobby Summary"
                                        else "EU Lobby Summary")
                             "No lobby data available right now."]
                  | _ => map embedOf answers
                  end).
    { destruct answers as [|a answers]; simpl.
      - eexists. split; [reflexivity|]. split; [simpl; lia|reflexivity].
      - eexists. split; [reflexivity|]. split; [|reflexivity].
        simpl in *. rewrite length_map. lia. }
    destruct Hres as (embeds & Eq & Hbound & Hshape). rewrite Eq.
    exists (Returned embeds), w2, asked, answers, w2. split; [reflexivity|].
    split; [exact Hg|]. split; [exact Hs|]. split; [exact Hlog|]. split; [exact Hsub'|].
    split; [exact Look|]. split; [exact Hans'|]. split.
    + intros embeds' E. injection E as <-. split; [reflexivity|]. split; assumption.
    + split; [intros e E; discriminate E|]. intros _. eexists. reflexivity.
  - destruct (Bad All) as (w3 & Thr). rewrite Thr in Run |- *.
    injection Run as <- <-.
    exists (Thrown "CombinedPropertyError"), w3, asked, answers, w2. split; [reflexivity|].
    split; [exact Hg|]. split; [exact Hs|]. split; [exact Hlog|]. split; [exact Hsub'|].
    split; [exact Look|]. split; [exact Hans'|]. split; [intros embeds E; discriminate E|].
    split; [|intros All'; rewrite All' in All; discriminate All].
    intros e _. clear - All. induction answers as [|a answers IH]; [discriminate|].
    simpl in All. apply andb_false_iff in All as [H|H].
    + exists a. split; [left|exact H].
    + destruct (IH H) as (a' & Hin & Ha). exists a'. split; [right; exact Hin|exact Ha].
Qed.

End SummaryFacts.

(** With every endpoint answering, the summary of the US region has one
    embed per lobby, in registry order; with the upstream down it is the
    single embed that says so. *)
Example region_summary_scenario :
  (∃ embeds w',
     Summary.handleRegionSummaryCommand (text := SampleRuntime.text)
       SampleUpstream.serving "us" (startWorld 0) = (Returned embeds, w')
     ∧ map title embeds
       = ["US $1 Lobby Leaderboard"; "US $5 Lobby Leaderboard"; "US $20 Lobby Leaderboard"])
  ∧ ∃ embeds w',
      Summary.handleRegionSummaryCommand (text := SampleRuntime.text)
        SampleRuntime.offline "eu" (startWorld 0) = (Returned embeds, w')
      ∧ map description embeds = ["No lobby data available right now."].
Proof. split; eexists _, _; vm_compute; split; reflexivity. Qed.

(** ** A join alert that Discord rejects *)

Section RejectedAlert.
Context {text : JsText} (out : Outside).

Lemma filter_not_in_self (cur : list string) : filter (λ i, i ∉ cur) cur = [].
Proof.
  assert (G : ∀ l, (∀ i, i ∈ l → i ∈ cur) → filter (λ i, i ∉ cur) l = []).
  { induction l as [|i l IH]; intros H; [reflexivity|].
    rewrite filter_cons_False by (intros N; apply N, H; left).
    apply IH. intros j Hj. apply H. right. exact Hj. }
  apply G. auto.
Qed.

(** X26. A join alert that Discord rejects is lost. The iteration
    stores the current identifiers before it sends, so when the send is
    rejected it throws with the last-seen set already updated, and the
    next iteration over the same snapshot finds nobody new and sends
    nothing: the players of the rejected message are never announced.
    (A watch alert, in contrast, is stamped only after the send and is
    tried again.) *)
Theorem rejected_join_alert_is_lost (g c p : string) (l : LobbyDef) (w : World)
    (cfg : GuildConfig) (snapshot : Snapshot) :
  assocGet g (guildConfigs w) = Some cfg →
  alertEnabled cfg !! key l = Some true →
  lobbyCache w !! key l = Some snapshot →
  noApi snapshot = false →
  let act := filter (λ q, joinActive q = true) (players snapshot) in
  let cur := currentIdsOf act in
  let last := default [] (lastSeenPlayers cfg !! key l) in
  newJoinsOf act cur last ≠ [] →
  sendOk out (calls w) = false →
  ∃ e w',
    joinAlertsForLobby out g c p l w = (Thrown e, w')
    ∧ assocGet g (guildConfigs w') = Some (withLastSeen (key l) cur cfg)
    ∧ lobbyCache w' = lobbyCache w
    ∧ ∀ c' p', ∃ w'',
        joinAlertsForLobby out g c' p' l w' = (Returned tt, w'')
        ∧ sendLog w'' = sendLog w'.
Proof.
  intros Hcfg Hen Hc Hn act cur last Hjoins Hrej.
  pose proof (joinAlertsForLobby_run out g c p l w cfg snapshot Hcfg Hen Hc Hn) as E.
  cbv zeta in E. fold act cur last in E.
  set (w1 := setGuildConfigs (assocAlter (withLastSeen (key l) cur) g (guildConfigs w)) w) in *.
  destruct (newJoinsOf act cur last) as [|j joins] eqn:J; [contradiction|].
  unfold channelSend, request, bind, modify, throw in E. simpl in E. rewrite Hrej in E.
  eexists. eexists. split; [exact E|]. simpl.
  assert (Hcfg' : assocGet g (assocAlter (withLastSeen (key l) cur) g (guildConfigs w))
                  = Some (withLastSeen (key l) cur cfg)).
  { apply assocGet_alter_eq, Hcfg. }
  split; [exact Hcfg'|]. split; [reflexivity|].
  intros c' p'.
  match goal with |- ∃ w'', joinAlertsForLobby _ _ _ _ _ ?w0 = _ ∧ _ => set (w' := w0) end.
  pose proof (joinAlertsForLobby_run out g c' p' l w' (withLastSeen (key l) cur cfg) snapshot
                Hcfg' Hen Hc Hn) as E'.
  cbv zeta in E'. fold act cur in E'. simpl in E'. rewrite lookup_insert_eq in E'. simpl in E'.
  destruct (newJoinsOf_currentIds act cur) as [Hk _]. fold cur in Hk.
  rewrite filter_not_in_self in Hk.
  destruct (newJoinsOf act cur cur); [|discriminate Hk].
  eexists. split; [exact E'|]. reflexivity.
Qed.

End RejectedAlert.

Lemma rejected_join_alert_is_lost_witness :
  let refusing := {| httpGet := λ _ _, HttpFail "not asked"; delay := λ _, 0%N;
                     sendOk := λ _, false; textChannel := λ _ _, true;
                     embedOk := λ _, true |} in
  let w := SampleTenant.world 0 SampleLobby.five ["a"; "b"] in
  ∃ e w' w'',
    joinAlertsForLobby (text := SampleRuntime.text) refusing "guild" "channel" "<@&role>"
      Sample.us1 w = (Thrown e, w')
    ∧ joinAlertsForLobby (text := SampleRuntime.text) refusing "guild" "channel" "<@&role>"
        Sample.us1 w' = (Returned tt, w'')
    ∧ sendLog w'' = sendLog w'.
Proof.
  intros refusing w.
  destruct (rejected_join_alert_is_lost (text := SampleRuntime.text) refusing
              "guild" "channel" "<@&role>" Sample.us1 w (SampleTenant.tenant ["a"; "b"])
              (Sample.snapshotOf Sample.us1 SampleLobby.five 0))
    as (e & w' & Run & _ & _ & Next); try reflexivity.
  - vm_compute. discriminate.
  - destruct (Next "channel" "<@&role>") as (w'' & Run' & Hlog).
    exists e, w', w''. split; [exact Run|]. split; [exact Run'|exact Hlog].
Defined.
